(** * Option-chain scanner (app.py): a shallow embedding and its properties

    The development follows the layout of [app.py]:
    - [Py]        the fragments of Python the program relies on (exceptions,
                  truthiness, [round], [int], stable [list.sort], [deque]);
    - [Upstream]  [prime] and [get_json];
    - [Normalizer] [safe_float] and [parse_rows];
    - [Signal]    [nearest_strike_iv], [get_straddle_info], [build_hits];
    - [Surge]     the row loop of [api_premium_surge] and [scoreBomb];
    - [Realtime]  [_bg_loop];
    - [Scan], [StrategyScan]  the symbol loops of [scan_symbols] and
                  [api_strategy_ltp_scan].

    Numbers.  A Python float is a binary64 number; the model holds its
    exact value, a rational ([Q]), and compares floats exactly ([==] is
    [Qeq]).  The sums, differences, products and quotients that the code
    stores, rounds or tests against a threshold are rounded as the machine
    rounds them: [fadd], [fsub], [fmul] and [fdiv] give the double nearest
    to the exact result, ties to even ([rnd]).  [round(x, nd)] is written
    as the decimal it prints, and [scoreBomb], which computes with such
    figures, takes the doubles they stand for.  The distances
    [abs(strike - underlying)] by which a strike is picked
    ([nearest_strike_iv], [get_straddle_info], the strategy scan) are only
    compared, and are kept exact.  Infinities and NaN have no counterpart: a result beyond the range of
    the doubles is not modelled, except that [float] of an integer too
    large for a double raises [OverflowError] as in Python.  A division
    by a zero float raises [ZeroDivisionError] in Python and does so in
    the model. *)

From Stdlib Require Import QArith Qcanon Qround Qabs Qpower Lqa Lia List Sorted Permutation.
From stdpp Require Import gmap strings.
Import ListNotations.

Local Open Scope Q_scope.
Set Warnings "-register-all".

(* ===================================================================== *)
(** ** Python fragments *)
(* ===================================================================== *)

Module Py.

(** Exceptions the modelled code can raise. *)
Inductive exn : Type :=
| TypeError
| AttributeError
| ZeroDivisionError
| ValueError
| KeyError
| OverflowError
| RequestException
| RuntimeError (msg : string).

(** The outcome of a call: a value, or a raised exception. *)
Inductive result (A : Type) : Type :=
| Ok (a : A)
| Raise (e : exn).
Arguments Ok {A} a.
Arguments Raise {A} e.

Definition rbind {A B : Type} (m : result A) (k : A -> result B) : result B :=
  match m with
  | Ok a => k a
  | Raise e => Raise e
  end.

#[global] Instance result_bind : MBind result := fun A B k m => rbind m k.
#[global] Instance result_ret : MRet result := @Ok.

(** Float comparisons. *)
Definition Qltb (a b : Q) : bool := negb (Qle_bool b a).
Definition Qgeb (a b : Q) : bool := Qle_bool b a.
Definition Qgtb (a b : Q) : bool := negb (Qle_bool a b).
Definition Qnonzero (a : Q) : bool := negb (Qeq_bool a 0).

(** Truthiness of an optional float: [None] and [0.0] are falsy. *)
Definition truthy_float (o : option Q) : bool :=
  match o with
  | Some q => Qnonzero q
  | None => false
  end.

(** Rounding to the nearest integer, ties to the even one. *)
Definition round_half_even (q : Q) : Z :=
  let f := Qfloor q in
  let d := q - inject_Z f in
  if Qltb d (1#2) then f
  else if Qltb (1#2) d then (f + 1)%Z
  else if Z.even f then f else (f + 1)%Z.

(** The exponent [e] with [2^e <= x < 2^(e+1)], for a positive [x]. *)
Definition floor_log2 (x : Q) : Z :=
  let e0 := (Z.log2 (Qnum x) - Z.log2 (Zpos (Qden x)))%Z in
  if Qle_bool (2 ^ e0) x then e0 else (e0 - 1)%Z.

(** The double nearest to [x], ties to the even significand: 53 bits of
    significand, and a least exponent of -1074 (the subnormals). *)
Definition rnd (x : Q) : Q :=
  if Qeq_bool x 0 then 0
  else
    let e := Z.max (floor_log2 (Qabs x) - 52) (-1074) in
    inject_Z (round_half_even (x / 2 ^ e)) * 2 ^ e.

(** [a + b], [a - b], [a * b] and [a / b] on floats. *)
Definition fadd (a b : Q) : Q := rnd (a + b).
Definition fsub (a b : Q) : Q := rnd (a - b).
Definition fmul (a b : Q) : Q := rnd (a * b).
Definition fdiv (a b : Q) : Q := rnd (a / b).

(** Float division: raises on a zero divisor. *)
Definition py_div (a b : Q) : result Q :=
  if Qeq_bool b 0 then Raise ZeroDivisionError else Ok (fdiv a b).

(** [float(n)] on an integer: the nearest double, unless that would be
    beyond the largest one. *)
Definition float_of_int (n : Z) : result Q :=
  if (Z.abs n <? 2 ^ 1024 - 2 ^ 970)%Z then Ok (rnd (inject_Z n))
  else Raise OverflowError.

(** [round(x, nd)] on a float, as the decimal with [nd] places that the
    result prints as (the result is the double nearest to it). *)
Definition py_round (nd : nat) (x : Q) : Q :=
  let s := inject_Z (10 ^ Z.of_nat nd) in
  inject_Z (round_half_even (x * s)) / s.

Definition round1 : Q -> Q := py_round 1.
Definition round2 : Q -> Q := py_round 2.

(** [int(x)]: truncation towards zero. *)
Definition py_int (x : Q) : Z :=
  if Qle_bool 0 x then Qfloor x else Qceiling x.

(** [list.sort(key=...)]: a stable sort.  [leb a b] says that the key of
    [a] is at most the key of [b]; an element is put before the first
    element of the sorted tail that is not strictly smaller. *)
Section Sort.
Context {A : Type} (leb : A -> A -> bool).

Fixpoint insert_asc (x : A) (l : list A) : list A :=
  match l with
  | [] => [x]
  | y :: l' => if leb x y then x :: y :: l' else y :: insert_asc x l'
  end.

Definition sort_asc (l : list A) : list A := fold_right insert_asc [] l.

(** [list.sort(key=..., reverse=True)]: descending, and still stable
    (elements with equal keys keep their order). *)
Fixpoint insert_desc (x : A) (l : list A) : list A :=
  match l with
  | [] => [x]
  | y :: l' => if leb y x then x :: y :: l' else y :: insert_desc x l'
  end.

Definition sort_desc (l : list A) : list A := fold_right insert_desc [] l.
End Sort.

(** A [for] loop that appends to a list: each element is skipped
    ([continue]), contributes one entry, or raises and ends the loop. *)
Fixpoint for_collect {A B : Type} (f : A -> result (option B)) (l : list A)
  : result (list B) :=
  match l with
  | [] => Ok []
  | x :: l' =>
      match f x with
      | Raise e => Raise e
      | Ok o =>
          match for_collect f l' with
          | Raise e => Raise e
          | Ok bs => Ok (match o with Some b => b :: bs | None => bs end)
          end
      end
  end.

(** [min(xs, key=...)] on a non-empty list whose keys are already
    computed: the first element with the least key. *)
Fixpoint min_first {A : Type} (best : A * Q) (l : list (A * Q)) : A * Q :=
  match l with
  | [] => best
  | x :: l' => min_first (if Qltb (snd x) (snd best) then x else best) l'
  end.

(** [collections.deque(maxlen=n).append(x)]: the oldest entries are
    discarded from the left once the bound is reached. *)
Definition deque_append (maxlen : nat) (d : list Q) (x : Q) : list Q :=
  let d' := d ++ [x] in
  skipn (List.length d' - maxlen) d'.

End Py.
Import Py.

(* ===================================================================== *)
(** ** JSON documents, as [r.json()] returns them *)
(* ===================================================================== *)

Module Json.

(** A parsed document.  An object is the association list of a Python
    dict: a key occurs once, and [jget] finds it.  A number written
    without fraction and exponent is an [int], any other a [float]. *)
Inductive json : Type :=
| JNull
| JBool (b : bool)
| JInt (n : Z)
| JFloat (q : Q)
| JStr (s : string)
| JArr (l : list json)
| JObj (m : list (string * json)).

(** Truthiness ([not x], [x or y], [if x]). *)
Definition truthy (v : json) : bool :=
  match v with
  | JNull => false
  | JBool b => b
  | JInt n => negb (n =? 0)%Z
  | JFloat q => Qnonzero q
  | JStr s => negb (String.eqb s "")
  | JArr l => match l with [] => false | _ => true end
  | JObj m => match m with [] => false | _ => true end
  end.

(** [x or y]. *)
Definition py_or (x y : json) : json := if truthy x then x else y.

Fixpoint assoc (k : string) (m : list (string * json)) : option json :=
  match m with
  | [] => None
  | (k', v) :: m' => if String.eqb k k' then Some v else assoc k m'
  end.

(** [d.get(k, default)]: only a dict has the method. *)
Definition jget_default (d : json) (k : string) (default : json) : result json :=
  match d with
  | JObj m => Ok (match assoc k m with Some v => v | None => default end)
  | _ => Raise AttributeError
  end.

(** [d.get(k)]. *)
Definition jget (d : json) (k : string) : result json := jget_default d k JNull.

(** [sub in s] on strings. *)
Fixpoint str_contains (sub s : string) : bool :=
  String.prefix sub s ||
  match s with
  | EmptyString => false
  | String _ s' => str_contains sub s'
  end.

Definition is_str (k : string) (v : json) : bool :=
  match v with
  | JStr s => String.eqb s k
  | _ => false
  end.

(** [k in x] for a string [k]: key of a dict, element of a list, substring
    of a string; the other values are not containers. *)
Definition jcontains (k : string) (x : json) : result bool :=
  match x with
  | JObj m => Ok (match assoc k m with Some _ => true | None => false end)
  | JArr l => Ok (existsb (is_str k) l)
  | JStr s => Ok (str_contains k s)
  | JNull | JBool _ | JInt _ | JFloat _ => Raise TypeError
  end.

(** [x[k]] for a string [k]: a list and a string take integer indices
    only. *)
Definition jindex (x : json) (k : string) : result json :=
  match x with
  | JObj m => match assoc k m with Some v => Ok v | None => Raise KeyError end
  | _ => Raise TypeError
  end.

End Json.
Import Json.

(* ===================================================================== *)
(** ** UpstreamClient: [prime] and [get_json] *)
(* ===================================================================== *)

Module Upstream.

(** What one [s.get(...)] can do: answer with a status and a body, or
    raise a [requests.RequestException].  [body] is what [r.json()] makes
    of the answer: the parsed document, or [None] for a body that is not
    JSON. *)
Inductive net_outcome : Type :=
| Response (status : Z) (body : option json)
| NetFailure.

Inductive site : Type := AtGetJson | AtPrime.
Inductive level : Type := LInfo | LWarning | LError.

(** What the client does that the outside can see. *)
Inductive event : Type :=
| EvGet (at_ : site) (url : string) (o : net_outcome)
| EvSleep
| EvLog (l : level).

(** The network answers by the number of the request; the trace is kept
    in the order of the events. *)
Record world : Type := {
  w_net : nat -> net_outcome;
  w_calls : nat;
  w_trace : list event
}.

Definition IO (A : Type) : Type := world -> result A * world.

Definition io_ret {A : Type} (a : A) : IO A := fun w => (Ok a, w).

Definition io_bind {A B : Type} (m : IO A) (k : A -> IO B) : IO B :=
  fun w =>
    match m w with
    | (Ok a, w') => k a w'
    | (Raise e, w') => (Raise e, w')
    end.

Notation "'do' x <- m ; k" := (io_bind m (fun x => k))
  (at level 10, x name, m at level 100, k at level 200).
Notation "m ;; k" := (io_bind m (fun _ => k))
  (at level 100, k at level 200, right associativity).

Definition io_raise {A : Type} (e : exn) : IO A := fun w => (Raise e, w).

Definition emit (e : event) : IO unit :=
  fun w => (Ok tt, {| w_net := w_net w; w_calls := w_calls w;
                      w_trace := w_trace w ++ [e] |}).

(** [try: m  except requests.RequestException: h]. *)
Definition except_request {A : Type} (m : IO A) (h : IO A) : IO A :=
  fun w =>
    match m w with
    | (Raise RequestException, w') => h w'
    | r => r
    end.

(** [s.get(url, timeout=...)]. *)
Definition s_get (at_ : site) (url : string) : IO (Z * option json) :=
  fun w =>
    let o := w_net w (w_calls w) in
    let w' := {| w_net := w_net w; w_calls := S (w_calls w);
                 w_trace := w_trace w ++ [EvGet at_ url o] |} in
    match o with
    | Response st b => (Ok (st, b), w')
    | NetFailure => (Raise RequestException, w')
    end.

Definition sleep : IO unit := emit EvSleep.
Definition log (l : level) : IO unit := emit (EvLog l).

Definition BASE : string := "https://www.nseindia.com".

Definition prime : IO unit :=
  except_request
    (s_get AtPrime BASE ;;
     s_get AtPrime (BASE ++ "/option-chain") ;;
     log LInfo)
    (log LWarning).

Section WithJsonError.

(** The exception [r.json()] raises on a body that is not JSON: a
    [requests.RequestException] ([requests.exceptions.JSONDecodeError])
    from version 2.27 of the library on, a [ValueError] before; the
    program does not say which version it runs with. *)
Variable json_error : exn.

(** [r.json()]. *)
Definition r_json (body : option json) : IO json :=
  match body with
  | Some j => io_ret j
  | None => io_raise json_error
  end.

(** One turn of the [for] loop of [get_json]: [Some] is the [return]. *)
Definition attempt (url : string) : IO (option json) :=
  except_request
    (do r <- s_get AtGetJson url;
     if (fst r =? 200)%Z then (do j <- r_json (snd r); io_ret (Some j))
     else
       (if ((fst r =? 401) || (fst r =? 403))%Z then prime else io_ret tt) ;;
       sleep ;;
       io_ret None)
    (log LWarning ;; prime ;; sleep ;; io_ret None).

Fixpoint get_json_loop (url : string) (n : nat) : IO json :=
  match n with
  | O => log LError ;; io_raise (RuntimeError "NSE fetch failed")
  | S n' =>
      do o <- attempt url;
      match o with
      | Some j => io_ret j
      | None => get_json_loop url n'
      end
  end.

Definition default_retries : nat := 3.

Definition get_json (url : string) (retries : nat) : IO json :=
  get_json_loop url retries.

End WithJsonError.

End Upstream.

(* ===================================================================== *)
(** ** Normalizer: [safe_float] and [parse_rows] *)
(* ===================================================================== *)

Module Normalizer.

Inductive side : Type := CE | PE.

(** One entry of ["rows"]. *)
Record row : Type := {
  r_symbol : json;
  r_underlying : option Q;
  r_expiry : json;
  r_strike : option Q;
  CE_iv : option Q;
  PE_iv : option Q;
  CE_ltp : option Q;
  PE_ltp : option Q;
  CE_vol : option Q;
  PE_vol : option Q
}.

(** [r.get(f"{side}_iv")] and its siblings. *)
Definition iv_of (sd : side) (r : row) : option Q :=
  match sd with CE => CE_iv r | PE => PE_iv r end.
Definition ltp_of (sd : side) (r : row) : option Q :=
  match sd with CE => CE_ltp r | PE => PE_ltp r end.
Definition vol_of (sd : side) (r : row) : option Q :=
  match sd with CE => CE_vol r | PE => PE_vol r end.

(** The dict [parse_rows] returns. *)
Record snapshot : Type := {
  rows : list row;
  expiries : json;
  underlying : option Q;
  symbol_name : json
}.

Definition empty_snapshot : snapshot :=
  {| rows := []; expiries := JArr []; underlying := None; symbol_name := JNull |}.

Fixpoint chars (s : string) : list json :=
  match s with
  | EmptyString => []
  | String c s' => JStr (String c EmptyString) :: chars s'
  end.

(** [for item in data]: a list gives its elements, a dict its keys, a
    string its characters; the other values are not iterable. *)
Definition py_iter (v : json) : result (list json) :=
  match v with
  | JArr l => Ok l
  | JObj m => Ok (map (fun kv => JStr (fst kv)) m)
  | JStr s => Ok (chars s)
  | JNull | JBool _ | JInt _ | JFloat _ => Raise TypeError
  end.

(** The key of [rows.sort]: every row that reaches the sort has a strike. *)
Definition strike_leb (a b : row) : bool :=
  match r_strike a, r_strike b with
  | Some x, Some y => Qle_bool x y
  | _, _ => true
  end.

Definition has_strike (r : row) : bool :=
  match r_strike r with Some _ => true | None => false end.

Section WithFloat.

(** [float(s)] on a string: [None] stands for its [ValueError], for a
    string that denotes a number the result is the double. *)
Variable float_of_str : string -> option Q.

(** [float(val)]: the [ValueError] of a string and the [TypeError] of a
    list or a dict are caught, the [OverflowError] of an integer is
    not. *)
Definition safe_float (val : json) : result (option Q) :=
  match val with
  | JNull => Ok None
  | JInt n => q ← float_of_int n; Ok (Some q)
  | JFloat q => Ok (Some q)
  | JBool b => Ok (Some (if b then 1 else 0))
  | JStr s => Ok (float_of_str s)
  | JArr _ | JObj _ => Ok None
  end.

(** [d.get(k1) or d.get(k2) or d.get(k3)]. *)
Definition get_first_truthy (d : json) (k1 k2 k3 : string) : result json :=
  a ← jget d k1;
  if truthy a then Ok a
  else b ← jget d k2;
       if truthy b then Ok b else jget d k3.

(** The body of the loop over [data]; [None] is a [continue]. *)
Definition parse_item (symbol_name : json) (underlying : option Q)
    (chosen_expiry : option string) (item : json) : result (option row) :=
  sp ← jget item "strikePrice";
  strike ← safe_float sp;
  expiry ← jget item "expiryDate";
  if match chosen_expiry with
     | Some c => negb (String.eqb c "") && negb (is_str c expiry)
     | None => false
     end
  then Ok None
  else
    c ← jget item "CE";
    let ce := py_or c (JObj []) in
    p ← jget item "PE";
    let pe := py_or p (JObj []) in
    ce_iv ← jget ce "impliedVolatility" ≫= safe_float;
    pe_iv ← jget pe "impliedVolatility" ≫= safe_float;
    ce_ltp ← jget ce "lastPrice" ≫= safe_float;
    pe_ltp ← jget pe "lastPrice" ≫= safe_float;
    ce_vol ← get_first_truthy ce "totalTradedVolume" "lastTradedVolume" "totalTradedQty"
             ≫= safe_float;
    pe_vol ← get_first_truthy pe "totalTradedVolume" "lastTradedVolume" "totalTradedQty"
             ≫= safe_float;
    Ok (Some {| r_symbol := symbol_name;
                r_underlying := underlying;
                r_expiry := expiry;
                r_strike := strike;
                CE_iv := ce_iv;
                PE_iv := pe_iv;
                CE_ltp := ce_ltp;
                PE_ltp := pe_ltp;
                CE_vol := ce_vol;
                PE_vol := pe_vol |}).

(** [not oc_json or "records" not in oc_json]. *)
Definition invalid_structure (oc_json : json) : result bool :=
  if negb (truthy oc_json) then Ok true
  else b ← jcontains "records" oc_json; Ok (negb b).

Definition parse_rows (oc_json : json) (chosen_expiry : option string)
  : result snapshot :=
  bad ← invalid_structure oc_json;
  if (bad : bool) then Ok empty_snapshot
  else
    rec ← jindex oc_json "records";
    e ← jget_default rec "expiryDates" (JArr []);
    let expiries := py_or e (JArr []) in
    d ← jget_default rec "data" (JArr []);
    let data := py_or d (JArr []) in
    i ← jget rec "index";
    u ← jget rec "underlying";
    let symbol_name := py_or i u in
    uv ← jget rec "underlyingValue";
    underlying ← safe_float uv;
    items ← py_iter data;
    rs ← for_collect (parse_item symbol_name underlying chosen_expiry) items;
    let rs := List.filter has_strike rs in
    let rs := sort_asc strike_leb rs in
    Ok {| rows := rs; expiries := expiries;
          underlying := underlying; symbol_name := symbol_name |}.

End WithFloat.

End Normalizer.
Import Normalizer.

(* ===================================================================== *)
(** ** SignalEngine: [nearest_strike_iv], [get_straddle_info], [build_hits] *)
(* ===================================================================== *)

Module Signal.

(** [d < bestd], where [bestd] starts as [float('inf')] ([None]). *)
Definition lt_best (d : Q) (bestd : option Q) : bool :=
  match bestd with
  | None => true
  | Some b => Qltb d b
  end.

(** One turn of the loop of [nearest_strike_iv] on [(best, bestd)]. *)
Definition nearest_step (sd : side) (under : Q)
    (st : option row * option Q) (r : row) : option row * option Q :=
  match iv_of sd r with
  | None => st
  | Some _ =>
      match r_strike r with
      | None => st
      | Some strike =>
          let d := Qabs (strike - under) in
          if lt_best d (snd st) then (Some r, Some d) else st
      end
  end.

Definition nearest_strike_iv (rows : list row) (under : Q) (sd : side)
  : option Q * option Q :=
  match fst (fold_left (nearest_step sd under) rows (None, None)) with
  | None => (None, None)
  | Some best => (r_strike best, iv_of sd best)
  end.

(** [a + b] on values that may be [None]. *)
Definition add_opt (a b : option Q) : result Q :=
  match a, b with
  | Some x, Some y => Ok (fadd x y)
  | _, _ => Raise TypeError
  end.

(** [abs(x["strike"] - underlying)]. *)
Definition strike_distance (underlying : Q) (r : row) : result Q :=
  match r_strike r with
  | Some s => Ok (Qabs (s - underlying))
  | None => Raise TypeError
  end.

Fixpoint with_keys (underlying : Q) (rows : list row) : result (list (row * Q)) :=
  match rows with
  | [] => Ok []
  | r :: rows' =>
      k ← strike_distance underlying r;
      ks ← with_keys underlying rows';
      Ok ((r, k) :: ks)
  end.

(** The first loop: a non-zero strike within 0.1 of the underlying. *)
Definition near_atm (underlying : Q) (r : row) : bool :=
  match r_strike r with
  | Some s => Qnonzero s && Qltb (Qabs (s - underlying)) (1 # 10)
  | None => false
  end.

(** The strike [get_straddle_info] settles on, for non-empty [rows]. *)
Definition resolve_atm (rows : list row) (underlying : Q) : result (option Q) :=
  let atm_strike :=
    match find (near_atm underlying) rows with
    | Some r => r_strike r
    | None => None
    end in
  if truthy_float atm_strike then Ok atm_strike
  else
    ks ← with_keys underlying rows;
    match ks with
    | [] => Raise ValueError
    | k :: ks' => Ok (r_strike (fst (min_first k ks')))
    end.

(** [r["strike"] == atm_strike]. *)
Definition strike_is (atm_strike : option Q) (r : row) : bool :=
  match r_strike r, atm_strike with
  | Some s, Some a => Qeq_bool s a
  | None, None => true
  | _, _ => false
  end.

(** One turn of the loop that picks [ce_row] and [pe_row]. *)
Definition legs_step (atm_strike : option Q)
    (st : option row * option row) (r : row) : option row * option row :=
  if strike_is atm_strike r then
    (if truthy_float (CE_ltp r) then Some r else fst st,
     if truthy_float (PE_ltp r) then Some r else snd st)
  else st.

(** The label [f"{atm_strike} CE + {atm_strike} PE"], by the strike it
    prints. *)
Inductive label : Type := StraddleLabel (atm_strike : option Q).

Record straddle : Type := {
  straddle_price : Q;
  straddle_iv : Q;
  atm_strike : option Q;
  straddle_label : label
}.

(** [None] is the result [(None, None, None, None)]. *)
Definition get_straddle_info (rows : list row) (underlying : option Q)
  : result (option straddle) :=
  match rows, underlying with
  | [], _ | _, None => Ok None
  | _ :: _, Some u =>
      atm ← resolve_atm rows u;
      match fold_left (legs_step atm) rows (None, None) with
      | (Some ce_row, Some pe_row) =>
          price ← add_opt (CE_ltp ce_row) (PE_ltp pe_row);
          ivs ← add_opt (CE_iv ce_row) (PE_iv pe_row);
          Ok (Some {| straddle_price := round2 price;
                      straddle_iv := round2 (fdiv ivs 2);
                      atm_strike := atm;
                      straddle_label := StraddleLabel atm |})
      | _ => Ok None
      end
  end.

(** An entry of [hits]. *)
Record hit : Type := {
  h_strike : Q;
  h_iv : Q;
  h_ltp : option Q;
  h_inc : Q;
  h_dist_pct : Q
}.

(** The body of the loop of [build_hits]; [None] is a [continue] or a
    row below the threshold. *)
Definition hit_of (sd : side) (under thr comp : Q) (r : row) : result (option hit) :=
  match iv_of sd r with
  | None => Ok None
  | Some iv =>
      match r_strike r with
      | None => Ok None
      | Some strike =>
          if match sd with
             | CE => Qltb strike under
             | PE => Qltb under strike
             end
          then Ok None
          else
            let inc := fsub iv comp in
            if Qgeb inc thr then
              d ← py_div (Qabs (fsub strike under)) under;
              Ok (Some {| h_strike := strike;
                          h_iv := iv;
                          h_ltp := ltp_of sd r;
                          h_inc := round2 inc;
                          h_dist_pct := round2 (fmul d 100) |})
            else Ok None
      end
  end.

(** [key(a) <= key(b)] for the key [(x["inc"], -abs(x["dist_pct"]))]:
    tuples compare by their first components unless these are equal. *)
Definition hit_key_leb (a b : hit) : bool :=
  if Qeq_bool (h_inc a) (h_inc b)
  then Qle_bool (- Qabs (h_dist_pct a)) (- Qabs (h_dist_pct b))
  else Qltb (h_inc a) (h_inc b).

(** [build_hits(side_name, comp)], with the [rows], [under] and [thr] of
    the enclosing [scan_symbols]. *)
Definition build_hits (rows : list row) (under thr : Q) (sd : side)
    (comp : option Q) : result (list hit) :=
  match comp with
  | None => Ok []
  | Some c =>
      hits ← for_collect (hit_of sd under thr c) rows;
      Ok (sort_desc hit_key_leb hits)
  end.

End Signal.
Import Signal.

(* ===================================================================== *)
(** ** SurgeDetector: the row loop of [api_premium_surge] and [scoreBomb] *)
(* ===================================================================== *)

Module Surge.

Inductive strength : Type := NUCLEAR | EXTREME | STRONG | GOOD.
Inductive bomb_type : Type := OTM_BOMB | INSTITUTIONAL_BOMB.

(** An entry of [out]; the wall-clock ["timestamp"] is left out. *)
Record surge_event : Type := {
  ev_symbol : string;
  ev_expiry : option string;
  ev_strike : Z;
  ev_side : side;
  ev_prev : Q;
  ev_curr : Q;
  ev_pct : Q;
  ev_speed : Q;
  ev_volume : Z;
  ev_lots : Q;
  ev_strength : strength;
  ev_type : bomb_type
}.

(** The two deques kept for a strike (["ts"] is never written). *)
Record history : Type := {
  hist_CE : list Q;
  hist_PE : list Q
}.


Definition set_hist (sd : side) (d : list Q) (h : history) : history :=
  match sd with
  | CE => {| hist_CE := d; hist_PE := hist_PE h |}
  | PE => {| hist_CE := hist_CE h; hist_PE := d |}
  end.

Definition new_history : history := {| hist_CE := []; hist_PE := [] |}.

Definition maxlen : nat := 5.

(** [PREV_SURGE_CACHE]: (symbol, expiry) to strike to history.  A float
    used as a dict key is a rational in lowest terms. *)
Definition surge_key : Type := string * option string.

Definition LOT_SIZES : gmap string Q :=
  list_to_map [("NIFTY"%string, 25); ("BANKNIFTY"%string, 15);
               ("FINNIFTY"%string, 25); ("MIDCPNIFTY"%string, 50);
               ("SENSEX"%string, 10); ("SENSEX50"%string, 15);
               ("INDIAVIX"%string, 100)].

(** [get_lot_size], on a symbol the caller has already upper-cased. *)
Definition get_lot_size (sym : string) : Q :=
  match LOT_SIZES !! sym with
  | Some l => l
  | None => 50
  end.

Definition tier (pct : Q) : strength :=
  if Qgeb pct 1000 then NUCLEAR
  else if Qgeb pct 500 then EXTREME
  else if Qgeb pct 300 then STRONG
  else GOOD.

(** [strike > under + 10] for CE, [strike < under - 10] for PE. *)
Definition otm_buffer (sd : side) (strike under : Q) : bool :=
  match sd with
  | CE => Qgtb strike (fadd under 10)
  | PE => Qltb strike (fsub under 10)
  end.

(** [(cur - prev) / prev * 100.0]. *)
Definition change_pct (cur prev : Q) : result Q :=
  d ← py_div (fsub cur prev) prev; Ok (fmul d 100).

(** The literal [0.1]: the double nearest to one tenth. *)
Definition noise_floor : Q := rnd (1 # 10).

(** The 3-tick momentum, from the deque before the append. *)
Definition momentum (cur : Q) (dq : list Q) : result Q :=
  match dq with
  | oldest :: _ =>
      if (3 <=? List.length dq)%nat then change_pct cur oldest
      else Ok 0
  | [] => Ok 0
  end.

(** The event of one side, when there is a previous price: the block
    under [if cache[side]:]. *)
Definition detect (sym : string) (used : option string) (sd : side)
    (strike cur vol lot_size min_pct : Q) (dq : list Q)
  : result (option surge_event) :=
  match last dq with
  | None => Ok None
  | Some prev =>
      if Qgtb prev noise_floor then
        pct ← change_pct cur prev;
        speed ← momentum cur dq;
        lots ← py_div vol lot_size;
        if Qgeb pct min_pct then
          Ok (Some {| ev_symbol := sym;
                      ev_expiry := used;
                      ev_strike := py_int strike;
                      ev_side := sd;
                      ev_prev := round2 prev;
                      ev_curr := round2 cur;
                      ev_pct := round1 pct;
                      ev_speed := round1 speed;
                      ev_volume := py_int vol;
                      ev_lots := round2 lots;
                      ev_strength := tier pct;
                      ev_type := if Qltb lots 5 then OTM_BOMB
                                 else INSTITUTIONAL_BOMB |})
        else Ok None
      else Ok None
  end.

(** One side of one row: the event, if any, and the deque afterwards.
    An exception leaves the deque as it was. *)
Definition check_side (sym : string) (used : option string) (sd : side)
    (strike under lot_size min_pct : Q) (r : row) (dq : list Q)
  : result (option surge_event * list Q) :=
  let vol := match vol_of sd r with
             | Some v => if Qnonzero v then v else 0
             | None => 0
             end in
  match ltp_of sd r with
  | Some cur =>
      if Qnonzero cur && otm_buffer sd strike under then
        ev ← detect sym used sd strike cur vol lot_size min_pct dq;
        Ok (ev, deque_append maxlen dq cur)
      else Ok (None, dq)
  | None => Ok (None, dq)
  end.

Definition opt_list {A : Type} (o : option A) : list A :=
  match o with Some a => [a] | None => [] end.

(** The body of [for r in rows]: the strike map afterwards, the events
    appended to [out], and the exception that left the loop, if any. *)
Definition surge_row (sym : string) (used : option string)
    (under lot_size min_pct : Q) (m : gmap Qc history) (r : row)
  : gmap Qc history * list surge_event * option exn :=
  match r_strike r with
  | None => (m, [], None)
  | Some strike =>
      if Qnonzero strike then
        let k := Q2Qc strike in
        let cache := match m !! k with Some h => h | None => new_history end in
        let m0 := <[k := cache]> m in
        match check_side sym used CE strike under lot_size min_pct r (hist_CE cache) with
        | Raise e => (m0, [], Some e)
        | Ok (ev1, dce) =>
            let cache1 := set_hist CE dce cache in
            let m1 := <[k := cache1]> m in
            match check_side sym used PE strike under lot_size min_pct r (hist_PE cache1) with
            | Raise e => (m1, opt_list ev1, Some e)
            | Ok (ev2, dpe) =>
                (<[k := set_hist PE dpe cache1]> m, opt_list ev1 ++ opt_list ev2, None)
            end
        end
      else (m, [], None)
  end.

Fixpoint surge_rows (sym : string) (used : option string)
    (under lot_size min_pct : Q) (m : gmap Qc history) (rows : list row)
  : gmap Qc history * list surge_event * option exn :=
  match rows with
  | [] => (m, [], None)
  | r :: rows' =>
      match surge_row sym used under lot_size min_pct m r with
      | (m1, ev1, Some e) => (m1, ev1, Some e)
      | (m1, ev1, None) =>
          match surge_rows sym used under lot_size min_pct m1 rows' with
          | (m2, ev2, e) => (m2, ev1 ++ ev2, e)
          end
      end
  end.

(** What the scan has of one symbol once it is fetched and parsed. *)
Record parsed_symbol : Type := {
  ps_sym : string;
  ps_used : option string;
  ps_rows : list row;
  ps_under : option Q
}.

(** One turn of [for sym in symbols], after the fetch: the exception of
    the row loop is logged and the next symbol is taken. *)
Definition surge_symbol (min_pct : Q)
    (st : gmap surge_key (gmap Qc history) * list surge_event)
    (p : parsed_symbol) : gmap surge_key (gmap Qc history) * list surge_event :=
  match ps_rows p, ps_under p with
  | [], _ | _, None => st
  | _ :: _, Some under =>
      let key := (ps_sym p, ps_used p) in
      let m := match fst st !! key with Some m => m | None => ∅ end in
      match surge_rows (ps_sym p) (ps_used p) under (get_lot_size (ps_sym p))
                       min_pct m (ps_rows p) with
      | (m', evs, _) => (<[key := m']> (fst st), snd st ++ evs)
      end
  end.

(** [x["pct"]] and [x["speed"]] are the doubles that the rounded figures
    of the event stand for. *)
Definition scoreBomb (x : surge_event) : Q :=
  let pct := rnd (ev_pct x) in
  let speed := rnd (ev_speed x) in
  let score := pct in
  let score := match ev_strength x with NUCLEAR => fadd score 5000 | _ => score end in
  let score := match ev_strength x with EXTREME => fadd score 2000 | _ => score end in
  let score := if Qgtb speed (fmul pct (3 # 2)) then fadd score 1000 else score in
  let score := match ev_type x with INSTITUTIONAL_BOMB => fadd score 500 | _ => score end in
  score.

Definition score_leb (a b : surge_event) : bool :=
  Qle_bool (scoreBomb a) (scoreBomb b).

(** [out.sort(key=scoreBomb, reverse=True); out[:50]]. *)
Definition top_bombs (out : list surge_event) : list surge_event :=
  firstn 50 (sort_desc score_leb out).

(** The scan of the parsed symbols against the cache: the cache
    afterwards and the events returned. *)
Definition api_premium_surge (min_pct : Q)
    (cache : gmap surge_key (gmap Qc history)) (symbols : list parsed_symbol)
  : gmap surge_key (gmap Qc history) * list surge_event :=
  let st := fold_left (surge_symbol min_pct) symbols (cache, []) in
  (fst st, top_bombs (snd st)).

End Surge.
Import Surge.

(* ===================================================================== *)
(** ** RealtimeSession: [_bg_loop] and the handlers of its flag *)
(* ===================================================================== *)

Module Realtime.

(** [_realtime_tasks]: session id to its ["running"] flag. *)
Definition handle_connect (sid : string) (tasks : gmap string bool) : gmap string bool :=
  <[sid := false]> tasks.

Definition handle_disconnect (sid : string) (tasks : gmap string bool) : gmap string bool :=
  delete sid tasks.

(** Lines 871 to 875 of [handle_start_realtime], which are reached once
    the payload has been read without an exception: a running entry is
    first switched off, then the entry is replaced by a running one. *)
Definition mark_running (sid : string) (tasks : gmap string bool) : gmap string bool :=
  let tasks :=
    match tasks !! sid with
    | Some true => <[sid := false]> tasks
    | _ => tasks
    end in
  <[sid := true]> tasks.

Definition handle_stop_realtime (sid : string) (tasks : gmap string bool) : gmap string bool :=
  match tasks !! sid with
  | Some _ => <[sid := false]> tasks
  | None => tasks
  end.

(** [_realtime_tasks.get(sid, {}).get("running")]. *)
Definition running (sid : string) (tasks : gmap string bool) : bool :=
  match tasks !! sid with
  | Some b => b
  | None => false
  end.

(** [int(data.get("interval") or 15)] for an absent interval. *)
Definition default_interval : Z := 15.

Section Start.

(** [float(s)] and [int(s)] on a string, where [None] stands for the
    [ValueError], and [s.upper()]. *)
Variable float_of_str : string -> option Q.
Variable int_of_str : string -> option Z.
Variable upper : string -> string.

(** [float(v)] and [int(v)] on a value of the payload. *)
Definition py_float (v : json) : result Q :=
  match v with
  | JBool b => Ok (if b then 1 else 0)
  | JInt n => float_of_int n
  | JFloat q => Ok q
  | JStr s => match float_of_str s with Some q => Ok q | None => Raise ValueError end
  | JNull | JArr _ | JObj _ => Raise TypeError
  end.

Definition int_of (v : json) : result Z :=
  match v with
  | JBool b => Ok (if b then 1 else 0)%Z
  | JInt n => Ok n
  | JFloat q => Ok (py_int q)
  | JStr s => match int_of_str s with Some n => Ok n | None => Raise ValueError end
  | JNull | JArr _ | JObj _ => Raise TypeError
  end.

(** [v.upper()]: only a string has the method. *)
Definition py_upper (v : json) : result string :=
  match v with
  | JStr s => Ok (upper s)
  | _ => Raise AttributeError
  end.

(** What the handler hands to the loop it starts. *)
Record session : Type := {
  s_symbols : json;
  s_thr : Q;
  s_side : string;
  s_interval : Z;
  s_overrides : json
}.

(** Lines 860 to 869: the payload is read; only the conversion of the
    threshold is guarded. *)
Definition read_payload (data : json) : result session :=
  sy ← jget data "symbols";
  let thr :=
    match (t ← jget data "threshold"; py_float (py_or t (JFloat 5))) with
    | Ok q => q
    | Raise _ => 5
    end in
  sd ← jget data "side";
  side ← py_upper (py_or sd (JStr "ALL"));
  let side :=
    if existsb (String.eqb side) ["ALL"; "CE"; "PE"]%string then side
    else "ALL"%string in
  iv ← jget data "interval";
  interval ← int_of (py_or iv (JInt 15));
  ov ← jget data "expiry_overrides";
  Ok {| s_symbols := py_or sy (JArr []);
        s_thr := thr;
        s_side := side;
        s_interval := interval;
        s_overrides := py_or ov (JObj []) |}.

(** The handler up to the start of the loop: an exception of the first
    part leaves the registry as it was. *)
Definition handle_start_realtime (sid : string) (data : json)
    (tasks : gmap string bool) : result session * gmap string bool :=
  match read_payload data with
  | Ok s => (Ok s, mark_running sid tasks)
  | Raise e => (Raise e, tasks)
  end.

End Start.

Section Loop.

(** The list [scan_symbols] returns. *)
Variable payload : Type.

(** What the loop meets in one turn: the registry as the handlers left
    it when the flag is read, the outcome of the scan, the outcome of
    [socketio.emit]. *)
Record turn : Type := {
  t_tasks : gmap string bool;
  t_scan : result payload;
  t_emit : result unit
}.

Inductive rt_event : Type :=
| RtStarted
| RtScan
| RtPublish (out : payload)
| RtWarning
| RtSleep (seconds : Z)
| RtStopped.

(** The [while] loop, on the turns that are observed. *)
Fixpoint bg_while (sid : string) (interval : Z) (turns : list turn) : list rt_event :=
  match turns with
  | [] => []
  | t :: turns' =>
      if running sid (t_tasks t) then
        match t_scan t with
        | Ok out =>
            match t_emit t with
            | Ok _ => RtScan :: RtPublish out :: bg_while sid interval turns'
            | Raise _ =>
                RtScan :: RtWarning :: RtSleep (Z.max 1 interval)
                  :: bg_while sid interval turns'
            end
        | Raise _ =>
            RtScan :: RtWarning :: RtSleep (Z.max 1 interval)
              :: bg_while sid interval turns'
        end
      else [RtStopped]
  end.

Definition _bg_loop (sid : string) (interval : Z) (turns : list turn) : list rt_event :=
  RtStarted :: bg_while sid interval turns.

End Loop.

End Realtime.

(* ===================================================================== *)
(** ** Scanner: [build_strategy] and the body of [scan_symbols] *)
(* ===================================================================== *)

Module Scan.

(** The dict [build_strategy] returns. *)
Record strategy : Type := {
  bias : string;
  suggestion : string;
  strength : Q
}.

(** [max(a, b)] on floats: the first argument unless the second is
    larger. *)
Definition py_max (a b : Q) : Q := if Qltb a b then b else a.

Definition build_strategy (ce_hits pe_hits : list hit) : strategy :=
  match ce_hits, pe_hits with
  | c :: _, [] =>
      {| bias := "Bullish"; suggestion := "Call Buy / Bull Call Spread";
         strength := h_inc c |}
  | [], p :: _ =>
      {| bias := "Bearish"; suggestion := "Put Buy / Bear Put Spread";
         strength := h_inc p |}
  | c :: _, p :: _ =>
      {| bias := "Vol Expansion"; suggestion := "Long Straddle / Strangle";
         strength := py_max (h_inc c) (h_inc p) |}
  | [], [] =>
      {| bias := "Neutral"; suggestion := "Wait / No Trade"; strength := 0 |}
  end.

(** The [side] argument of [scan_symbols], by the tests made on it. *)
Inductive side_arg : Type := SideAll | SideCE | SidePE | SideOther.

Definition wants (sd : side) (a : side_arg) : bool :=
  match a, sd with
  | SideAll, _ | SideCE, CE | SidePE, PE => true
  | _, _ => false
  end.

(** The loop that picks the LTP at an ATM strike: the last row at the
    strike decides, also when it has no LTP. *)
Definition atm_ltp (sd : side) (atm : option Q) (rows : list row) : option Q :=
  fold_left (fun acc r => if strike_is atm r then ltp_of sd r else acc) rows None.

(** [max((h["inc"] for h in hits), default=0)]. *)
Definition max_inc (hits : list hit) : Q :=
  match hits with
  | [] => 0
  | h :: hits' => fold_left (fun m x => if Qltb m (h_inc x) then h_inc x else m) hits' (h_inc h)
  end.

(** The entry appended to [out]. *)
Record scan_result : Type := {
  sr_symbol : string;
  sr_expiry_used : string;
  sr_underlying : Q;
  sr_atm_ce_iv : option Q;
  sr_atm_pe_iv : option Q;
  sr_atm_ce_ltp : option Q;
  sr_atm_pe_ltp : option Q;
  sr_ce_hits : list hit;
  sr_pe_hits : list hit;
  sr_ce_hit_count : nat;
  sr_pe_hit_count : nat;
  sr_ce_max_inc : Q;
  sr_pe_max_inc : Q;
  sr_strategy : strategy
}.

(** The body of [for sym in symbols] once the chain is fetched and
    parsed; [None] is the [continue] for a chain without rows or
    underlying, an exception makes [scan_symbols] skip the symbol. *)
Definition scan_symbol (sym : string) (used : option string) (rows : list row)
    (under : option Q) (thr : Q) (side_ : side_arg) : result (option scan_result) :=
  match rows, under with
  | [], _ | _, None => Ok None
  | _ :: _, Some under =>
      let ce := nearest_strike_iv rows under CE in
      let pe := nearest_strike_iv rows under PE in
      let atm_ce_ltp := atm_ltp CE (fst ce) rows in
      let atm_pe_ltp := atm_ltp PE (fst pe) rows in
      ce_hits ← (if wants CE side_ then build_hits rows under thr CE (snd ce) else Ok []);
      pe_hits ← (if wants PE side_ then build_hits rows under thr PE (snd pe) else Ok []);
      Ok (Some {| sr_symbol := sym;
                  sr_expiry_used := match used with
                                    | Some u => if String.eqb u "" then "-" else u
                                    | None => "-"
                                    end;
                  sr_underlying := if Qnonzero under then round2 under else 0;
                  sr_atm_ce_iv := option_map round2 (snd ce);
                  sr_atm_pe_iv := option_map round2 (snd pe);
                  sr_atm_ce_ltp := option_map round2 atm_ce_ltp;
                  sr_atm_pe_ltp := option_map round2 atm_pe_ltp;
                  sr_ce_hits := ce_hits;
                  sr_pe_hits := pe_hits;
                  sr_ce_hit_count := List.length ce_hits;
                  sr_pe_hit_count := List.length pe_hits;
                  sr_ce_max_inc := round2 (max_inc ce_hits);
                  sr_pe_max_inc := round2 (max_inc pe_hits);
                  sr_strategy := build_strategy ce_hits pe_hits |})
  end.

End Scan.

(* ===================================================================== *)
(** ** Strategy scan: the symbol loop of [api_strategy_ltp_scan] *)
(* ===================================================================== *)

Module StrategyScan.
Import Scan.

(** The inputs read from the request. *)
Record params : Type := {
  buy_lots : Z;
  sell_lots : Z;
  target : Q;
  tolerance : Q;
  side_ : side_arg;
  atm_from_pct : Q;
  atm_to_pct : Q;
  min_strike_diff : Q;
  max_strike_diff : Q
}.

(** A dict keyed by floats, in insertion order: [d[k] = v] keeps the place
    of a key that is already there. *)
Fixpoint dict_set {V : Type} (k : Q) (v : V) (d : list (Q * V)) : list (Q * V) :=
  match d with
  | [] => [(k, v)]
  | (k', v') :: d' =>
      if Qeq_bool k' k then (k', v) :: d' else (k', v') :: dict_set k v d'
  end.

(** [d[k]]. *)
Fixpoint dict_index {V : Type} (d : list (Q * V)) (k : Q) : result V :=
  match d with
  | [] => Raise KeyError
  | (k', v) :: d' => if Qeq_bool k' k then Ok v else dict_index d' k
  end.

(** A [for] loop that appends any number of entries per element. *)
Fixpoint for_extend {A B : Type} (f : A -> result (list B)) (l : list A)
  : result (list B) :=
  match l with
  | [] => Ok []
  | x :: l' =>
      bs ← f x;
      rest ← for_extend f l';
      Ok (bs ++ rest)
  end.

(** The two prices kept for a strike. *)
Record legs : Type := { leg_CE : option Q; leg_PE : option Q }.

Definition leg_of (sd : side) (v : legs) : option Q :=
  match sd with CE => leg_CE v | PE => leg_PE v end.

(** [abs(strike - under) / under * 100]. *)
Definition dist_pct (under strike : Q) : result Q :=
  d ← py_div (Qabs (fsub strike under)) under; Ok (fmul d 100).

(** [abs(sell_strike - buy_strike) / under * 100.0 if under else 0.0]. *)
Definition diff_pct (under buy_strike sell_strike : Q) : Q :=
  if Qnonzero under then fmul (fdiv (Qabs (fsub sell_strike buy_strike)) under) 100
  else 0.

(** [x * n] for a float [x] and an integer [n]: the integer is converted
    first. *)
Definition fmul_int (x : Q) (n : Z) : result Q :=
  y ← float_of_int n; Ok (fmul x y).

(** [(buy_ltp * buy_lots) - (sell_ltp * sell_lots)]. *)
Definition net_of (buy_lots sell_lots : Z) (buy_ltp sell_ltp : Q) : result Q :=
  b ← fmul_int buy_ltp buy_lots;
  s ← fmul_int sell_ltp sell_lots;
  Ok (fsub b s).

(** The loop that fills [strike_map]. *)
Fixpoint fill_strike_map (p : params) (under : Q) (rows : list row)
    (strike_map : list (Q * legs)) : result (list (Q * legs)) :=
  match rows with
  | [] => Ok strike_map
  | r :: rows' =>
      match r_strike r with
      | Some strike =>
          if Qnonzero strike then
            d ← dist_pct under strike;
            if Qltb d (atm_from_pct p) || Qltb (atm_to_pct p) d
            then fill_strike_map p under rows' strike_map
            else fill_strike_map p under rows'
                   (dict_set strike {| leg_CE := CE_ltp r; leg_PE := PE_ltp r |}
                             strike_map)
          else fill_strike_map p under rows' strike_map
      | None => fill_strike_map p under rows' strike_map
      end
  end.

(** An entry of [matches]. *)
Record strategy_match : Type := {
  m_buy_strike : Q;
  m_sell_strike : Q;
  m_side : side;
  m_buy_ltp : Q;
  m_sell_ltp : Q;
  m_net_per_lot : Q;
  m_total_pnl : Z;
  m_lot_size : Z;
  m_expiry : option string
}.

(** The body of [for sell_strike in sell_strikes]. *)
Definition try_pair (p : params) (lot : Z) (used : option string) (under : Q)
    (strike_map : list (Q * legs)) (sd : side) (buy_strike buy_ltp sell_strike : Q)
  : result (list strategy_match) :=
  v ← dict_index strike_map sell_strike;
  match leg_of sd v with
  | None => Ok []
  | Some sell_ltp =>
      let diff_pct := diff_pct under buy_strike sell_strike in
      if Qltb diff_pct (min_strike_diff p) || Qltb (max_strike_diff p) diff_pct
      then Ok []
      else
        net ← net_of (buy_lots p) (sell_lots p) buy_ltp sell_ltp;
        let abs_net := Qabs net in
        if Qle_bool (fsub (target p) (tolerance p)) abs_net &&
           Qle_bool abs_net (fadd (target p) (tolerance p))
        then
          total_pnl ← fmul_int net lot;
          Ok [{| m_buy_strike := buy_strike;
                 m_sell_strike := sell_strike;
                 m_side := sd;
                 m_buy_ltp := round2 buy_ltp;
                 m_sell_ltp := round2 sell_ltp;
                 m_net_per_lot := round2 net;
                 m_total_pnl := round_half_even total_pnl;
                 m_lot_size := lot;
                 m_expiry := used |}]
        else Ok []
  end.

(** The body of [for buy_strike in strikes]. *)
Definition try_buy (p : params) (lot : Z) (used : option string) (under : Q)
    (strike_map : list (Q * legs)) (strikes : list Q) (atm_strike : Q) (sd : side)
    (buy_strike : Q) : result (list strategy_match) :=
  if match sd with
     | CE => Qltb buy_strike atm_strike
     | PE => Qltb atm_strike buy_strike
     end
  then Ok []
  else
    v ← dict_index strike_map buy_strike;
    match leg_of sd v with
    | None => Ok []
    | Some buy_ltp =>
        let sell_strikes :=
          List.filter (fun s => match sd with
                                | CE => Qltb buy_strike s
                                | PE => Qltb s buy_strike
                                end) strikes in
        for_extend (try_pair p lot used under strike_map sd buy_strike buy_ltp)
                   sell_strikes
    end.

(** [sides]: both for "ALL", the side itself otherwise; a side that is
    neither CE nor PE has no price under its key, so it gives no match. *)
Definition sides (a : side_arg) : list side :=
  match a with
  | SideAll => [CE; PE]
  | SideCE => [CE]
  | SidePE => [PE]
  | SideOther => []
  end.

(** The entry appended to [out]. *)
Record strategy_result : Type := {
  st_symbol : string;
  st_underlying : Q;
  st_expiry_used : option string;
  st_matches : list strategy_match
}.

(** The body of [for sym in symbols] once the chain is fetched and
    parsed, with [lot] the value of [lot_for(sym)]; [None] is a
    [continue] or a symbol without matches, an exception skips the
    symbol. *)
Definition strategy_symbol (p : params) (lot : Z) (sym : string)
    (used : option string) (rows : list row) (under : option Q)
  : result (option strategy_result) :=
  _ ← get_straddle_info rows under;
  match rows, under with
  | [], _ | _, None => Ok None
  | _ :: _, Some under =>
      strike_map ← fill_strike_map p under rows [];
      match strike_map with
      | [] => Ok None
      | _ :: _ =>
          let strikes := sort_asc Qle_bool (map fst strike_map) in
          match map (fun x => (x, Qabs (x - under))) strikes with
          | [] => Raise ValueError
          | k :: ks =>
              let atm_strike := fst (min_first k ks) in
              matches ← for_extend
                          (fun sd => for_extend
                                       (try_buy p lot used under strike_map strikes
                                                atm_strike sd)
                                       strikes)
                          (sides (side_ p));
              match matches with
              | [] => Ok None
              | _ :: _ =>
                  Ok (Some {| st_symbol := sym;
                              st_underlying := under;
                              st_expiry_used := used;
                              st_matches := matches |})
              end
          end
      end
  end.

End StrategyScan.

(* ===================================================================== *)
(** ** The behaviour the specification describes, for comparison *)
(* ===================================================================== *)

Module Described.
Import Upstream.

(** A re-priming: the two warm-up requests, the second only after the
    first has been answered, and a log line. *)
Inductive prime_trace : list event -> Prop :=
| prime_both st1 b1 st2 b2 :
    prime_trace [EvGet AtPrime BASE (Response st1 b1);
                 EvGet AtPrime (BASE ++ "/option-chain") (Response st2 b2);
                 EvLog LInfo]
| prime_first_fails :
    prime_trace [EvGet AtPrime BASE NetFailure; EvLog LWarning]
| prime_second_fails st1 b1 :
    prime_trace [EvGet AtPrime BASE (Response st1 b1);
                 EvGet AtPrime (BASE ++ "/option-chain") NetFailure;
                 EvLog LWarning].

(** A fetch with [n] attempts left: status 200 with a JSON body ends it
    with the body; a 401 or 403 and a network failure re-prime; every
    attempt that fails in one of these ways is followed by the delay;
    with no attempt left the fetch fails.  A status 200 with a body that
    is not JSON is handled like a network failure when the exception of
    [r.json()] is a [RequestException], and ends the fetch with that
    exception otherwise. *)
Inductive fetch_trace (json_error : exn) (url : string)
  : nat -> list event -> result json -> Prop :=
| fetch_exhausted :
    fetch_trace json_error url 0 [EvLog LError] (Raise (RuntimeError "NSE fetch failed"))
| fetch_success n b :
    fetch_trace json_error url (S n) [EvGet AtGetJson url (Response 200 (Some b))] (Ok b)
| fetch_blocked n st b p tr res :
    st = 401%Z \/ st = 403%Z ->
    prime_trace p ->
    fetch_trace json_error url n tr res ->
    fetch_trace json_error url (S n)
      (EvGet AtGetJson url (Response st b) :: p ++ EvSleep :: tr) res
| fetch_other_status n st b tr res :
    st <> 200%Z -> st <> 401%Z -> st <> 403%Z ->
    fetch_trace json_error url n tr res ->
    fetch_trace json_error url (S n)
      (EvGet AtGetJson url (Response st b) :: EvSleep :: tr) res
| fetch_network_failure n p tr res :
    prime_trace p ->
    fetch_trace json_error url n tr res ->
    fetch_trace json_error url (S n)
      (EvGet AtGetJson url NetFailure :: EvLog LWarning :: p ++ EvSleep :: tr) res
| fetch_not_json_retried n p tr res :
    json_error = RequestException ->
    prime_trace p ->
    fetch_trace json_error url n tr res ->
    fetch_trace json_error url (S n)
      (EvGet AtGetJson url (Response 200 None) :: EvLog LWarning :: p ++ EvSleep :: tr) res
| fetch_not_json_escapes n :
    json_error <> RequestException ->
    fetch_trace json_error url (S n)
      [EvGet AtGetJson url (Response 200 None)] (Raise json_error).

Definition is_attempt (e : event) : bool :=
  match e with
  | EvGet AtGetJson _ _ => true
  | _ => false
  end.

(** An attempt that ends the fetch with a document. *)
Definition is_success (e : event) : bool :=
  match e with
  | EvGet AtGetJson _ (Response st (Some _)) => (st =? 200)%Z
  | _ => false
  end.

Definition is_failure (e : event) : bool := is_attempt e && negb (is_success e).

Definition is_sleep (e : event) : bool :=
  match e with
  | EvSleep => true
  | _ => false
  end.

(** The number of attempts, of failed attempts and of delays in a trace. *)
Definition attempts (tr : list event) : nat := List.length (List.filter is_attempt tr).
Definition failed_attempts (tr : list event) : nat := List.length (List.filter is_failure tr).
Definition sleeps (tr : list event) : nat := List.length (List.filter is_sleep tr).

(** The answers to the requests of a trace, in order, warm-up requests
    included. *)
Fixpoint answers (tr : list event) : list net_outcome :=
  match tr with
  | [] => []
  | EvGet _ _ o :: tr' => o :: answers tr'
  | _ :: tr' => answers tr'
  end.

(** The answers the network of [w] has for the next [n] requests. *)
Definition next_answers (w : world) (n : nat) : list net_outcome :=
  map (w_net w) (seq (w_calls w) n).

(** From [w] the client reaches [w'] with the trace [tr]: the trace is
    appended, each request of it is one more request to the network, and
    is answered by it in turn. *)
Definition served (w : world) (tr : list event) (w' : world) : Prop :=
  w_trace w' = w_trace w ++ tr /\
  w_net w' = w_net w /\
  w_calls w' = (w_calls w + List.length (answers tr))%nat /\
  answers tr = next_answers w (List.length (answers tr)).

(** Rows in non-decreasing order of strike, each with a strike. *)
Definition strike_le (a b : row) : Prop :=
  match r_strike a, r_strike b with
  | Some x, Some y => x <= y
  | _, _ => False
  end.

(** A field that [float] converts without an exception the code does not
    catch: anything but an integer beyond the range of the doubles. *)
Definition float_field (o : option json) : Prop :=
  match o with
  | Some (JInt n) => exists q, float_of_int n = Ok q
  | _ => True
  end.

Definition leg_fields (m : list (string * json)) : Prop :=
  float_field (assoc "impliedVolatility" m) /\ float_field (assoc "lastPrice" m) /\
  float_field (assoc "totalTradedVolume" m) /\
  float_field (assoc "lastTradedVolume" m) /\
  float_field (assoc "totalTradedQty" m).

(** The shape of the upstream document: an object whose ["records"] is an
    object; its ["data"], when present and not empty, a list of objects,
    each with optional ["CE"] and ["PE"] sub-objects; and no integer among
    the numeric fields that is too large for a double. *)
Definition leg_shaped (o : option json) : Prop :=
  match o with
  | None => True
  | Some v => truthy v = false \/ exists m, v = JObj m /\ leg_fields m
  end.

Definition entry_shaped (item : json) : Prop :=
  exists m, item = JObj m /\ float_field (assoc "strikePrice" m) /\
            leg_shaped (assoc "CE" m) /\ leg_shaped (assoc "PE" m).

Definition data_shaped (o : option json) : Prop :=
  match o with
  | None => True
  | Some d => truthy d = false \/ exists items, d = JArr items /\ Forall entry_shaped items
  end.

Definition chain_shaped (oc_json : json) : Prop :=
  exists m rec,
    oc_json = JObj m /\ assoc "records" m = Some (JObj rec) /\
    float_field (assoc "underlyingValue" rec) /\
    data_shaped (assoc "data" rec).

(** A row at the strike [a]; a leg of it with a last traded price that is
    present and not zero; the last row of [rows] that is both. *)
Definition at_strike (a : Q) (r : row) : Prop :=
  exists s, r_strike r = Some s /\ s == a.

Definition traded (sd : side) (r : row) : Prop :=
  exists p, ltp_of sd r = Some p /\ ~ p == 0.

Definition leg_row (sd : side) (a : Q) (r : row) : Prop :=
  at_strike a r /\ traded sd r.

Definition last_leg (sd : side) (a : Q) (rows : list row) (r : row) : Prop :=
  exists l1 l2,
    rows = l1 ++ r :: l2 /\ leg_row sd a r /\ Forall (fun x => ~ leg_row sd a x) l2.

(** What the loop over the legs holds for one side after the rows [l]. *)
Definition leg_found (sd : side) (a : Q) (l : list row) (o : option row) : Prop :=
  match o with
  | Some r => last_leg sd a l r
  | None => Forall (fun x => ~ leg_row sd a x) l
  end.

(** The side of the underlying a hit of [sd] lies on. *)
Definition on_side (sd : side) (under : Q) (h : hit) : Prop :=
  match sd with
  | CE => under <= h_strike h
  | PE => h_strike h <= under
  end.

(** The order of the hits: the larger increment first and, among equal
    increments, the smaller absolute distance first. *)
Definition hit_before (a b : hit) : Prop :=
  h_inc b < h_inc a \/
  (h_inc a == h_inc b /\ Qabs (h_dist_pct a) <= Qabs (h_dist_pct b)).

(** Out of the money by the buffer of 10. *)
Definition otm_margin (sd : side) (strike under : Q) : Prop :=
  match sd with
  | CE => fadd under 10 < strike
  | PE => strike < fsub under 10
  end.










(** An event whose tier is the one of the jump its ["pct"] is rounded
    from, as [detect] builds it. *)
Definition tiered (e : surge_event) : Prop :=
  exists pct, ev_pct e = round1 pct /\ ev_strength e = tier pct.

(** The bonus terms of the ranking score that apply to an event, in the
    order in which they are added. *)
Definition bonuses (e : surge_event) : list Q :=
  (match ev_strength e with NUCLEAR => [5000] | _ => [] end) ++
  (match ev_strength e with EXTREME => [2000] | _ => [] end) ++
  (if Qgtb (rnd (ev_speed e)) (fmul (rnd (ev_pct e)) (3 # 2)) then [1000] else []) ++
  (match ev_type e with INSTITUTIONAL_BOMB => [500] | _ => [] end).

(** A turn of the realtime loop in which the scan and the publication
    both succeed; the sleeps of a run. *)
Definition turn_succeeds {payload : Type} (t : Realtime.turn payload) : Prop :=
  (exists out, Realtime.t_scan _ t = Ok out) /\ Realtime.t_emit _ t = Ok tt.

Definition is_rt_sleep {payload : Type} (e : Realtime.rt_event payload) : bool :=
  match e with
  | Realtime.RtSleep _ _ => true
  | _ => false
  end.

End Described.

(* ===================================================================== *)
(** ** What the code shows beyond the specification *)
(* ===================================================================== *)

Module Observed.
Import Scan.

(** The hit [build_hits] makes of a row with IV [iv] and strike [strike]. *)
Definition hit_from (sd : side) (under comp : Q) (r : row) (iv strike : Q) : hit :=
  {| h_strike := strike;
     h_iv := iv;
     h_ltp := ltp_of sd r;
     h_inc := round2 (fsub iv comp);
     h_dist_pct := round2 (fmul (fdiv (Qabs (fsub strike under)) under) 100) |}.

(** A row that breaks out: it has an IV and a strike, lies on the side of
    the underlying that belongs to [sd], and the difference [iv - comp],
    as the machine computes it, is at least [thr]. *)
Definition breaks_out (sd : side) (under thr comp : Q) (r : row) (iv strike : Q) : Prop :=
  iv_of sd r = Some iv /\ r_strike r = Some strike /\
  match sd with CE => under <= strike | PE => strike <= under end /\
  thr <= fsub iv comp.


(** A row of the expiry [c]. *)
Definition of_expiry (c : string) (r : row) : bool := is_str c (r_expiry r).

(** The history stored for a strike of a (symbol, expiry), if any. *)
Definition history_at (cache : gmap surge_key (gmap Qc history))
    (key : surge_key) (k : Qc) : option history :=
  match cache !! key with
  | Some m => m !! k
  | None => None
  end.

(** The scan looks at the strike [k] of [key]: one of its symbols has the
    key and a row at the strike. *)
Definition visits (symbols : list parsed_symbol) (key : surge_key) (k : Qc) : Prop :=
  exists p r s,
    In p symbols /\ (ps_sym p, ps_used p) = key /\
    In r (ps_rows p) /\ r_strike r = Some s /\ Q2Qc s = k.

(** The publications and the scans of a run of the realtime loop. *)
Definition is_rt_publish {payload : Type} (e : Realtime.rt_event payload) : bool :=
  match e with
  | Realtime.RtPublish _ _ => true
  | _ => false
  end.

Definition is_rt_scan {payload : Type} (e : Realtime.rt_event payload) : bool :=
  match e with
  | Realtime.RtScan _ => true
  | _ => false
  end.





End Observed.

(* ===================================================================== *)
(** ** Sample data *)
(* ===================================================================== *)

Module Examples.

(** A row of a chain with underlying 100. *)
Definition quote (strike : Q) (ce_iv pe_iv ce_ltp pe_ltp : option Q) : row :=
  {| r_symbol := JStr "NIFTY"; r_underlying := Some 100;
     r_expiry := JStr "27-Nov-2025"; r_strike := Some strike;
     CE_iv := ce_iv; PE_iv := pe_iv; CE_ltp := ce_ltp; PE_ltp := pe_ltp;
     CE_vol := None; PE_vol := None |}.

(** Both legs traded at the money, the call without an IV. *)
Definition atm_without_ce_iv : row := quote 100 None (Some 20) (Some 5) (Some 6).

(** At the money, the call last traded at 0. *)
Definition atm_ce_ltp_zero : row := quote 100 (Some 18) (Some 20) (Some 0) (Some 6).

(** At the money, both legs traded, both IVs known. *)
Definition atm_complete : row := quote 100 (Some 18) (Some 21) (Some (21 # 4)) (Some 6).

(** [float] of a string, for documents without numeric strings. *)
Definition no_float_strings : string -> option Q := fun _ => None.

(** A chain of two entries, the higher strike first. *)
Definition small_chain : json :=
  JObj [("records"%string,
         JObj [("underlyingValue"%string, JInt 100);
               ("data"%string,
                JArr [JObj [("strikePrice"%string, JInt 110)];
                      JObj [("strikePrice"%string, JInt 100)]])])].

(** A document whose ["records"] is [null]. *)
Definition null_records : json := JObj [("records"%string, JNull)].

(** Two calls with the same IV, at the money and 10 above. *)
Definition two_calls : list row :=
  [quote 100 (Some 20) None (Some 5) None; quote 110 (Some 20) None (Some 1) None].

(** A call far out of the money, last traded at 8. *)
Definition far_call : row := quote 1100 (Some 30) None (Some 8) None.

(** Two events as [detect] builds them, for jumps of 1100% and 990%. *)
Definition nuclear_event : surge_event :=
  {| ev_symbol := "NIFTY"; ev_expiry := None; ev_strike := 1050; ev_side := CE;
     ev_prev := 1; ev_curr := 12; ev_pct := round1 1100; ev_speed := round1 0;
     ev_volume := 0; ev_lots := 0; ev_strength := tier 1100; ev_type := OTM_BOMB |}.

Definition extreme_event : surge_event :=
  {| ev_symbol := "NIFTY"; ev_expiry := None; ev_strike := 1100; ev_side := CE;
     ev_prev := 1; ev_curr := (109 # 10); ev_pct := round1 990; ev_speed := round1 2000;
     ev_volume := 5000; ev_lots := 200; ev_strength := tier 990;
     ev_type := INSTITUTIONAL_BOMB |}.

(** A session that is started, scans twice without error, and is then
    stopped; the payload is the number of the scan. *)
Definition started : gmap string bool :=
  Realtime.mark_running "sid-1" (Realtime.handle_connect "sid-1" ∅).

Definition stopped : gmap string bool := Realtime.handle_stop_realtime "sid-1" started.

Definition quiet_session : list (Realtime.turn nat) :=
  [ {| Realtime.t_tasks := started; Realtime.t_scan := Ok 1%nat; Realtime.t_emit := Ok tt |};
    {| Realtime.t_tasks := started; Realtime.t_scan := Ok 2%nat; Realtime.t_emit := Ok tt |};
    {| Realtime.t_tasks := stopped; Realtime.t_scan := Ok 3%nat; Realtime.t_emit := Ok tt |};
    {| Realtime.t_tasks := stopped; Realtime.t_scan := Ok 4%nat; Realtime.t_emit := Ok tt |} ].



End Examples.

(* ===================================================================== *)
(** ** More sample data *)
(* ===================================================================== *)

Module MoreExamples.
Import Examples.

(** The ATM call at IV 15 and a call 10 above at IV 21.5. *)
Definition breakout_calls : list row :=
  [quote 100 (Some 15) None (Some 9) None; quote 110 (Some (43 # 2)) None (Some 1) None].

(** The hit of the second call against the ATM IV 15: increment 6.50 at
    a distance of 10.00 percent. *)
Definition call_hit : hit :=
  {| h_strike := 110; h_iv := 43 # 2; h_ltp := Some 1;
     h_inc := round2 (fsub (43 # 2) 15);
     h_dist_pct := round2 (fmul (fdiv (Qabs (fsub 110 100)) 100) 100) |}.


(** A chain with one strike in each of two expiries. *)
Definition two_expiry_chain : json :=
  JObj [("records"%string,
         JObj [("underlyingValue"%string, JInt 100);
               ("index"%string, JStr "NIFTY");
               ("expiryDates"%string, JArr [JStr "27-Nov-2025"; JStr "25-Dec-2025"]);
               ("data"%string,
                JArr [JObj [("strikePrice"%string, JInt 110);
                            ("expiryDate"%string, JStr "25-Dec-2025")];
                      JObj [("strikePrice"%string, JInt 100);
                            ("expiryDate"%string, JStr "27-Nov-2025")]])])].

(** A scan of one symbol with the far call, and the key of another. *)
Definition nifty_far_call : parsed_symbol :=
  {| ps_sym := "NIFTY"; ps_used := None; ps_rows := [far_call]; ps_under := Some 1000 |}.

Definition banknifty_key : surge_key := ("BANKNIFTY"%string, None).

Definition banknifty_cache : gmap surge_key (gmap Qc history) :=
  {[ banknifty_key := {[ Q2Qc 1100 := new_history ]} ]}.


Definition spread_params : StrategyScan.params :=
  {| StrategyScan.buy_lots := 1; StrategyScan.sell_lots := 3;
     StrategyScan.target := 6; StrategyScan.tolerance := 1;
     StrategyScan.side_ := Scan.SideAll;
     StrategyScan.atm_from_pct := 0; StrategyScan.atm_to_pct := 5;
     StrategyScan.min_strike_diff := 1; StrategyScan.max_strike_diff := 10 |}.



(** A network that answers every request with status 200 and a page that
    is not JSON. *)
Definition html_pages : Upstream.world :=
  {| Upstream.w_net := fun _ => Upstream.Response 200 None;
     Upstream.w_calls := 0; Upstream.w_trace := [] |}.

Definition chain_url : string :=
  "https://www.nseindia.com/api/option-chain-indices?symbol=NIFTY".

(** A chain whose only entry has a strike beyond the range of the
    doubles. *)
Definition huge_strike_chain : json :=
  JObj [("records"%string,
         JObj [("underlyingValue"%string, JInt 100);
               ("data"%string, JArr [JObj [("strikePrice"%string, JInt (10 ^ 400))]])])].

(** The doubles nearest to a decimal figure of the feed. *)
Definition quoted (q : Q) : Q := rnd q.

(** At the money with the prices 2.0 and 0.675 and the IVs 10.05 and
    10.06. *)
Definition atm_decimal : row :=
  quote 100 (Some (quoted (1005 # 100))) (Some (quoted (1006 # 100)))
        (Some 2) (Some (quoted (675 # 1000))).

(** A call at the money with the IV 16.4, and one with the IV 30.49. *)
Definition call_iv_16_4 : list row :=
  [quote 100 (Some (quoted (164 # 10))) None None None].

Definition call_iv_30_49 : list row :=
  [quote 100 (Some (quoted (3049 # 100))) None None None].

(** A call far out of the money, last traded at 1.65. *)
Definition far_call_1_65 : row :=
  quote 1100 None None (Some (quoted (165 # 100))) None.

(** A start payload whose side is a number. *)
Definition numeric_side : json := JObj [("side"%string, JInt 5)].

(** Calls at 100 and 105 with the prices 8.55 and 4.95. *)
Definition decimal_spread_calls : list row :=
  [quote 100 None None (Some (quoted (855 # 100))) None;
   quote 105 None None (Some (quoted (495 # 100))) None].

End MoreExamples.

(* ===================================================================== *)
(** * Properties *)
(* ===================================================================== *)

(* --------------------------------------------------------------------- *)
(** *** Facts about the Python fragments *)
(* --------------------------------------------------------------------- *)

Lemma Qltb_lt (a b : Q) : Qltb a b = true <-> a < b.
Proof.
  unfold Qltb. rewrite negb_true_iff. split; intro H.
  - apply Qnot_le_lt. intro Hle. apply Qle_bool_iff in Hle. congruence.
  - destruct (Qle_bool b a) eqn:E; [|reflexivity].
    apply Qle_bool_iff in E. lra.
Qed.

Lemma Qltb_ge (a b : Q) : Qltb a b = false <-> b <= a.
Proof.
  unfold Qltb. rewrite negb_false_iff. apply Qle_bool_iff.
Qed.

Lemma Qgtb_gt (a b : Q) : Qgtb a b = true <-> b < a.
Proof. apply (Qltb_lt b a). Qed.

Lemma Qgeb_ge (a b : Q) : Qgeb a b = true <-> b <= a.
Proof. apply Qle_bool_iff. Qed.

Lemma Qnonzero_true (a : Q) : Qnonzero a = true <-> ~ a == 0.
Proof.
  unfold Qnonzero. rewrite negb_true_iff. split; intro H.
  - intro E. apply Qeq_bool_iff in E. congruence.
  - destruct (Qeq_bool a 0) eqn:E; [|reflexivity].
    apply Qeq_bool_iff in E. contradiction.
Qed.

Lemma py_div_ok (a b : Q) : ~ b == 0 -> py_div a b = Ok (fdiv a b).
Proof.
  intro H. unfold py_div.
  destruct (Qeq_bool b 0) eqn:E; [|reflexivity].
  apply Qeq_bool_iff in E. contradiction.
Qed.

Lemma round_half_even_floor (q : Q) :
  (Qfloor q <= round_half_even q <= Qfloor q + 1)%Z.
Proof.
  unfold round_half_even.
  repeat match goal with |- context [if ?c then _ else _] => destruct c end; lia.
Qed.

Lemma round_half_even_ge (n : Z) (q : Q) :
  inject_Z n <= q -> (n <= round_half_even q)%Z.
Proof.
  intro H. pose proof (round_half_even_floor q) as [Hlo _].
  apply Qfloor_resp_le in H. rewrite Qfloor_Z in H. lia.
Qed.

Lemma round_half_even_le (n : Z) (q : Q) :
  q <= inject_Z n -> (round_half_even q <= n)%Z.
Proof.
  intro H.
  pose proof (Qfloor_resp_le _ _ H) as Hf. rewrite Qfloor_Z in Hf.
  destruct (Z.eq_dec (Qfloor q) n) as [E|NE].
  - unfold round_half_even.
    assert (Hd : q - inject_Z (Qfloor q) < 1#2).
    { rewrite E. lra. }
    apply Qltb_lt in Hd. rewrite Hd. lia.
  - pose proof (round_half_even_floor q). lia.
Qed.

Lemma py_round_ge (nd : nat) (n : Z) (x : Q) :
  inject_Z n <= x -> inject_Z n <= py_round nd x.
Proof.
  intro H. unfold py_round.
  set (s := (10 ^ Z.of_nat nd)%Z).
  assert (Hs : (0 < s)%Z) by (apply Z.pow_pos_nonneg; lia).
  assert (HsQ : 0 < inject_Z s) by (change (inject_Z 0 < inject_Z s); rewrite <- Zlt_Qlt; exact Hs).
  assert (Hr : (n * s <= round_half_even (x * inject_Z s))%Z).
  { apply round_half_even_ge. rewrite inject_Z_mult. nra. }
  apply Qle_shift_div_l; [exact HsQ|].
  rewrite <- inject_Z_mult. rewrite <- Zle_Qle. exact Hr.
Qed.

Lemma py_round_le (nd : nat) (n : Z) (x : Q) :
  x <= inject_Z n -> py_round nd x <= inject_Z n.
Proof.
  intro H. unfold py_round.
  set (s := (10 ^ Z.of_nat nd)%Z).
  assert (Hs : (0 < s)%Z) by (apply Z.pow_pos_nonneg; lia).
  assert (HsQ : 0 < inject_Z s) by (change (inject_Z 0 < inject_Z s); rewrite <- Zlt_Qlt; exact Hs).
  assert (Hr : (round_half_even (x * inject_Z s) <= n * s)%Z).
  { apply round_half_even_le. rewrite inject_Z_mult. nra. }
  apply Qle_shift_div_r; [exact HsQ|].
  rewrite <- inject_Z_mult. rewrite <- Zle_Qle. exact Hr.
Qed.

Lemma round_half_even_near (q : Q) :
  Qabs (inject_Z (round_half_even q) - q) <= 1 # 2.
Proof.
  unfold round_half_even.
  pose proof (Qfloor_le q) as Hlo. pose proof (Qlt_floor q) as Hhi.
  rewrite inject_Z_plus in Hhi. change (inject_Z 1) with 1 in Hhi.
  destruct (Qltb (q - inject_Z (Qfloor q)) (1 # 2)) eqn:E1.
  { apply Qltb_lt in E1. apply Qabs_case; intros; lra. }
  apply Qltb_ge in E1.
  destruct (Qltb (1 # 2) (q - inject_Z (Qfloor q))) eqn:E2.
  { rewrite inject_Z_plus. change (inject_Z 1) with 1.
    apply Qabs_case; intros; lra. }
  apply Qltb_ge in E2.
  destruct (Z.even (Qfloor q)).
  - apply Qabs_case; intros; lra.
  - rewrite inject_Z_plus. change (inject_Z 1) with 1.
    apply Qabs_case; intros; lra.
Qed.

Lemma rnd_nonneg (x : Q) : 0 <= x -> 0 <= rnd x.
Proof.
  intro H. unfold rnd. destruct (Qeq_bool x 0); [lra|].
  set (e := Z.max _ _).
  assert (Hp : 0 < 2 ^ e) by (apply Qpower_0_lt; lra).
  apply Qmult_le_0_compat; [|lra].
  change 0 with (inject_Z 0). rewrite <- Zle_Qle. apply round_half_even_ge.
  change (inject_Z 0) with 0. apply Qle_shift_div_l; lra.
Qed.

Lemma rnd_nonpos (x : Q) : x <= 0 -> rnd x <= 0.
Proof.
  intro H. unfold rnd. destruct (Qeq_bool x 0); [lra|].
  set (e := Z.max _ _).
  assert (Hp : 0 < 2 ^ e) by (apply Qpower_0_lt; lra).
  assert (Hr : inject_Z (round_half_even (x / 2 ^ e)) <= 0).
  { change 0 with (inject_Z 0). rewrite <- Zle_Qle. apply round_half_even_le.
    change (inject_Z 0) with 0. apply Qle_shift_div_r; lra. }
  nra.
Qed.

Lemma pow2_pos (e : Z) : 0 < 2 ^ e.
Proof. apply Qpower_0_lt. reflexivity. Qed.

Lemma pow2_inject (k : Z) : (0 <= k)%Z -> inject_Z (2 ^ k) == 2 ^ k.
Proof. intro H. apply (Zpower_Qpower 2 k H). Qed.

Lemma floor_log2_le (a : Q) : 0 < a -> 2 ^ floor_log2 a <= a.
Proof.
  destruct a as [n d]. intro Ha. unfold floor_log2. cbn [Qnum Qden].
  set (e0 := (Z.log2 n - Z.log2 (Z.pos d))%Z).
  destruct (Qle_bool (2 ^ e0) (n # d)) eqn:E; [apply Qle_bool_iff; exact E|].
  assert (Hn : (0 < n)%Z).
  { unfold Qlt in Ha. cbn in Ha. lia. }
  destruct (Z.log2_spec n Hn) as [Hn1 _].
  destruct (Z.log2_spec (Z.pos d) (Pos2Z.is_pos _)) as [_ Hd2].
  pose proof (Z.log2_nonneg n) as Hln.
  pose proof (Z.log2_nonneg (Z.pos d)) as Hld.
  replace (e0 - 1)%Z
    with (Z.log2 n - Z.succ (Z.log2 (Z.pos d)))%Z by (unfold e0; lia).
  rewrite Qpower_minus by discriminate.
  rewrite <- !pow2_inject by lia.
  rewrite (Qmake_Qdiv n d).
  assert (Hd0 : 0 < inject_Z (Z.pos d)) by reflexivity.
  assert (Hp0 : 0 < inject_Z (2 ^ Z.succ (Z.log2 (Z.pos d)))).
  { rewrite pow2_inject by lia. apply pow2_pos. }
  apply Qle_shift_div_l; [exact Hd0|].
  unfold Qdiv. rewrite <- Qmult_assoc, (Qmult_comm (/ _)), Qmult_assoc.
  apply Qle_shift_div_r; [exact Hp0|].
  rewrite <- !inject_Z_mult, <- Zle_Qle. nia.
Qed.

Lemma floor_log2_lt (a : Q) : 0 < a -> a < 2 ^ (floor_log2 a + 1).
Proof.
  destruct a as [n d]. intro Ha. unfold floor_log2. cbn [Qnum Qden].
  set (e0 := (Z.log2 n - Z.log2 (Z.pos d))%Z).
  destruct (Qle_bool (2 ^ e0) (n # d)) eqn:E.
  - assert (Hn : (0 < n)%Z).
    { unfold Qlt in Ha. cbn in Ha. lia. }
    destruct (Z.log2_spec n Hn) as [_ Hn2].
    destruct (Z.log2_spec (Z.pos d) (Pos2Z.is_pos _)) as [Hd1 _].
    pose proof (Z.log2_nonneg n) as Hln.
    pose proof (Z.log2_nonneg (Z.pos d)) as Hld.
    replace (e0 + 1)%Z
      with (Z.succ (Z.log2 n) - Z.log2 (Z.pos d))%Z by (unfold e0; lia).
    rewrite Qpower_minus by discriminate.
    rewrite <- !pow2_inject by lia.
    rewrite (Qmake_Qdiv n d).
    assert (Hd0 : 0 < inject_Z (Z.pos d)) by reflexivity.
    assert (Hp0 : 0 < inject_Z (2 ^ Z.log2 (Z.pos d))).
    { rewrite pow2_inject by lia. apply pow2_pos. }
    apply Qlt_shift_div_r; [exact Hd0|].
    unfold Qdiv. rewrite <- Qmult_assoc, (Qmult_comm (/ _)), Qmult_assoc.
    apply Qlt_shift_div_l; [exact Hp0|].
    rewrite <- !inject_Z_mult, <- Zlt_Qlt. nia.
  - replace (e0 - 1 + 1)%Z with e0 by lia.
    apply Qnot_le_lt. intro H. apply Qle_bool_iff in H. congruence.
Qed.

(** [rnd x] is a multiple of the unit in the last place of [x], at most half
    a unit away from it. *)
Lemma rnd_near (x : Q) :
  let e := Z.max (floor_log2 (Qabs x) - 52) (-1074) in
  rnd x == inject_Z (round_half_even (x / 2 ^ e)) * 2 ^ e /\
  Qabs (rnd x - x) <= 2 ^ e * (1 # 2).
Proof.
  intro e. pose proof (pow2_pos e) as Hp.
  unfold rnd. destruct (Qeq_bool x 0) eqn:E.
  - apply Qeq_bool_iff in E. split.
    + assert (Hq : x / 2 ^ e == 0) by (rewrite E; field; lra).
      assert (H0 : round_half_even (x / 2 ^ e) = 0%Z).
      { apply Z.le_antisymm.
        - apply round_half_even_le. change (inject_Z 0) with 0. lra.
        - apply round_half_even_ge. change (inject_Z 0) with 0. lra. }
      rewrite H0. change (inject_Z 0) with 0. ring.
    + apply Qabs_case; intros; lra.
  - fold e. split; [reflexivity|].
    pose proof (round_half_even_near (x / 2 ^ e)) as Hn.
    assert (Hx : x == x / 2 ^ e * 2 ^ e) by (field; lra).
    set (q := x / 2 ^ e) in *. set (i := inject_Z (round_half_even q)) in *.
    revert Hn. apply Qabs_case; intros H1; apply Qabs_case; intros H2 Hn; nra.
Qed.

(** The exponent [rnd] gives a value that lies below [2^53]. *)
Lemma rnd_exponent_small (n : Z) (x : Q) :
  (n < 2 ^ 53)%Z -> 0 < x -> x <= inject_Z n ->
  (Z.max (floor_log2 (Qabs x) - 52) (-1074) <= 0)%Z.
Proof.
  intros Hn Hx Hle.
  destruct (Z_le_gt_dec (floor_log2 (Qabs x)) 52) as [H|H]; [lia|].
  exfalso.
  pose proof (Qabs_pos x (Qlt_le_weak _ _ Hx)) as Habs.
  assert (Hlog : 2 ^ floor_log2 (Qabs x) <= Qabs x) by (apply floor_log2_le; lra).
  assert (H53 : 2 ^ 53 <= 2 ^ floor_log2 (Qabs x)).
  { apply Qpower_le_compat_l; [lia|lra]. }
  assert (Hn' : inject_Z n < 2 ^ 53).
  { rewrite <- pow2_inject by lia. rewrite <- Zlt_Qlt. exact Hn. }
  lra.
Qed.

(** An integer below [2^53] is a double: [rnd] does not cross it. *)
Lemma rnd_ge_int (n : Z) (x : Q) :
  (0 <= n < 2 ^ 53)%Z -> inject_Z n <= x -> inject_Z n <= rnd x.
Proof.
  intros [Hn0 Hn] Hle.
  assert (Hn0' : 0 <= inject_Z n).
  { change 0 with (inject_Z 0). rewrite <- Zle_Qle. exact Hn0. }
  unfold rnd. destruct (Qeq_bool x 0) eqn:E0.
  { apply Qeq_bool_iff in E0. lra. }
  apply Qeq_bool_neq in E0.
  assert (Hx : 0 < x) by lra.
  set (e := Z.max (floor_log2 (Qabs x) - 52) (-1074)).
  pose proof (pow2_pos e) as Hpe.
  destruct (Z_le_gt_dec e 0) as [He|He].
  - assert (Hint : inject_Z (n * 2 ^ (- e)) * 2 ^ e == inject_Z n).
    { rewrite inject_Z_mult, pow2_inject by lia. rewrite Qpower_opp.
      field. lra. }
    rewrite <- Hint. apply Qmult_le_compat_r; [|lra].
    rewrite <- Zle_Qle. apply round_half_even_ge.
    apply Qle_shift_div_l; [exact Hpe|]. rewrite Hint. exact Hle.
  - assert (Hlg : floor_log2 (Qabs x) = (e + 52)%Z) by (unfold e in *; lia).
    pose proof (Qabs_pos x (Qlt_le_weak _ _ Hx)) as Habs.
    assert (Hlog : 2 ^ floor_log2 (Qabs x) <= Qabs x) by (apply floor_log2_le; lra).
    rewrite Hlg in Hlog.
    rewrite Qpower_plus in Hlog by discriminate.
    assert (Hr : (2 ^ 52 <= round_half_even (x / 2 ^ e))%Z).
    { apply round_half_even_ge. apply Qle_shift_div_l; [exact Hpe|].
      rewrite pow2_inject by lia. lra. }
    rewrite Zle_Qle in Hr. rewrite pow2_inject in Hr by lia.
    assert (H2 : 2 <= 2 ^ e).
    { change 2 with (2 ^ 1) at 1. apply Qpower_le_compat_l; [lia|lra]. }
    assert (Hn' : inject_Z n < 2 ^ 53).
    { rewrite <- pow2_inject by lia. rewrite <- Zlt_Qlt. exact Hn. }
    assert (H53 : (2 ^ 53 : Q) == 2 ^ 52 * 2) by reflexivity.
    assert (H52 : 0 < 2 ^ 52) by apply pow2_pos.
    nra.
Qed.

Lemma rnd_le_int (n : Z) (x : Q) :
  (0 <= n < 2 ^ 53)%Z -> x <= inject_Z n -> rnd x <= inject_Z n.
Proof.
  intros [Hn0 Hn] Hle.
  assert (Hn0' : 0 <= inject_Z n).
  { change 0 with (inject_Z 0). rewrite <- Zle_Qle. exact Hn0. }
  destruct (Qlt_le_dec 0 x) as [Hx|Hx].
  2:{ pose proof (rnd_nonpos x Hx). lra. }
  pose proof (rnd_exponent_small n x Hn Hx Hle) as He.
  unfold rnd. destruct (Qeq_bool x 0) eqn:E0; [exact Hn0'|].
  set (e := Z.max (floor_log2 (Qabs x) - 52) (-1074)) in *.
  pose proof (pow2_pos e) as Hpe.
  assert (Hint : inject_Z (n * 2 ^ (- e)) * 2 ^ e == inject_Z n).
  { rewrite inject_Z_mult, pow2_inject by lia. rewrite Qpower_opp.
    field. lra. }
  rewrite <- Hint. apply Qmult_le_compat_r; [|lra].
  rewrite <- Zle_Qle. apply round_half_even_le.
  apply Qle_shift_div_r; [exact Hpe|]. rewrite Hint. exact Hle.
Qed.

Lemma bind_Ok_inv {A B : Type} (m : result A) (k : A -> result B) (b : B) :
  (x ← m; k x) = Ok b -> exists a, m = Ok a /\ k a = Ok b.
Proof.
  destruct m as [a|e]; cbn; [|discriminate].
  intro H. exists a. split; [reflexivity|exact H].
Qed.

Lemma for_collect_Ok {A B : Type} (f : A -> result (option B)) (l : list A) :
  Forall (fun x => exists o, f x = Ok o) l -> exists bs, for_collect f l = Ok bs.
Proof.
  induction 1 as [|x l [o Hx] Hl [bs IH]]; cbn.
  - eexists; reflexivity.
  - rewrite Hx, IH. eexists; reflexivity.
Qed.

Lemma for_collect_In {A B : Type} (f : A -> result (option B)) (l : list A) :
  forall bs b, for_collect f l = Ok bs -> In b bs ->
  exists x, In x l /\ f x = Ok (Some b).
Proof.
  induction l as [|x l IH]; cbn; intros bs b.
  - intros [= <-] [].
  - destruct (f x) as [o|] eqn:Hx; [|discriminate].
    destruct (for_collect f l) as [bs'|] eqn:Hl; [|discriminate].
    intros [= <-] Hin. destruct o as [b0|].
    + destruct Hin as [<-|Hin].
      * exists x. auto.
      * destruct (IH bs' b eq_refl Hin) as (y & Hy & Hfy). exists y. auto.
    + destruct (IH bs' b eq_refl Hin) as (y & Hy & Hfy). exists y. auto.
Qed.

(** Insertion sort, for a comparison that decides a total relation on the
    elements that occur. *)
Section SortFacts.
Context {A : Type} (leb : A -> A -> bool) (R : A -> A -> Prop) (P : A -> Prop).
Hypothesis leb_true : forall a b, P a -> P b -> leb a b = true -> R a b.
Hypothesis leb_false : forall a b, P a -> P b -> leb a b = false -> R b a.

Lemma insert_asc_perm (x : A) (l : list A) : Permutation (insert_asc leb x l) (x :: l).
Proof.
  induction l as [|y l IH]; cbn; [reflexivity|].
  destruct (leb x y); [reflexivity|].
  rewrite IH. apply perm_swap.
Qed.

Lemma sort_asc_perm (l : list A) : Permutation (sort_asc leb l) l.
Proof.
  induction l as [|x l IH]; cbn; [reflexivity|].
  rewrite insert_asc_perm. constructor. exact IH.
Qed.

Lemma insert_desc_perm (x : A) (l : list A) : Permutation (insert_desc leb x l) (x :: l).
Proof.
  induction l as [|y l IH]; cbn; [reflexivity|].
  destruct (leb y x); [reflexivity|].
  rewrite IH. apply perm_swap.
Qed.

Lemma sort_desc_perm (l : list A) : Permutation (sort_desc leb l) l.
Proof.
  induction l as [|x l IH]; cbn; [reflexivity|].
  rewrite insert_desc_perm. constructor. exact IH.
Qed.

Lemma insert_asc_sorted (x : A) (l : list A) :
  P x -> Forall P l -> Sorted R l -> Sorted R (insert_asc leb x l).
Proof.
  intros Px Pl Hs. induction l as [|y l IH]; cbn.
  - repeat constructor.
  - inversion Pl as [|? ? Py Pl']; subst. inversion Hs as [|? ? Hs' Hhd]; subst.
    destruct (leb x y) eqn:E.
    + constructor; [exact Hs|]. constructor. apply leb_true; assumption.
    + constructor; [apply IH; assumption|].
      destruct l as [|z l]; cbn.
      * constructor. apply leb_false; assumption.
      * destruct (leb x z); constructor.
        -- apply leb_false; assumption.
        -- inversion Hhd; assumption.
Qed.

Lemma sort_asc_sorted (l : list A) : Forall P l -> Sorted R (sort_asc leb l).
Proof.
  induction 1 as [|x l Px Pl IH]; cbn; [constructor|].
  apply insert_asc_sorted; [exact Px| |exact IH].
  eapply Permutation_Forall; [symmetry; apply sort_asc_perm|exact Pl].
Qed.

Lemma insert_desc_sorted (x : A) (l : list A) :
  P x -> Forall P l -> Sorted (fun a b => R b a) l ->
  Sorted (fun a b => R b a) (insert_desc leb x l).
Proof.
  intros Px Pl Hs. induction l as [|y l IH]; cbn.
  - repeat constructor.
  - inversion Pl as [|? ? Py Pl']; subst. inversion Hs as [|? ? Hs' Hhd]; subst.
    destruct (leb y x) eqn:E.
    + constructor; [exact Hs|]. constructor. apply leb_true; assumption.
    + constructor; [apply IH; assumption|].
      destruct l as [|z l]; cbn.
      * constructor. apply leb_false; assumption.
      * destruct (leb z x); constructor.
        -- apply leb_false; assumption.
        -- inversion Hhd; assumption.
Qed.

Lemma sort_desc_sorted (l : list A) :
  Forall P l -> Sorted (fun a b => R b a) (sort_desc leb l).
Proof.
  induction 1 as [|x l Px Pl IH]; cbn; [constructor|].
  apply insert_desc_sorted; [exact Px| |exact IH].
  eapply Permutation_Forall; [symmetry; apply sort_desc_perm|exact Pl].
Qed.
End SortFacts.

(* --------------------------------------------------------------------- *)
(** ** UpstreamClient *)
(* --------------------------------------------------------------------- *)

Section UpstreamFacts.
Import Upstream Described.

Lemma answers_app (tr1 tr2 : list event) :
  answers (tr1 ++ tr2) = answers tr1 ++ answers tr2.
Proof.
  induction tr1 as [|e tr1 IH]; [reflexivity|].
  destruct e; cbn; rewrite IH; reflexivity.
Qed.

Lemma served_refl (w : world) : served w [] w.
Proof.
  unfold served, next_answers. cbn. rewrite app_nil_r.
  repeat split. lia.
Qed.

Lemma served_app (w w1 w2 : world) (tr1 tr2 : list event) :
  served w tr1 w1 -> served w1 tr2 w2 -> served w (tr1 ++ tr2) w2.
Proof.
  unfold served, next_answers.
  intros (Ht1 & Hn1 & Hc1 & Ha1) (Ht2 & Hn2 & Hc2 & Ha2).
  rewrite answers_app, length_app.
  split; [|split; [|split]].
  - rewrite Ht2, Ht1, app_assoc. reflexivity.
  - congruence.
  - lia.
  - rewrite seq_app, map_app, <- Ha1. f_equal.
    rewrite Ha2 at 1. rewrite Hn1, Hc1. reflexivity.
Qed.

Lemma served_emit (e : event) (w : world) :
  answers [e] = [] -> served w [e] (snd (emit e w)).
Proof.
  intro H. unfold served, next_answers, emit. rewrite H. cbn.
  repeat split. lia.
Qed.

Lemma served_get (at_ : site) (url : string) (w : world) :
  served w [EvGet at_ url (w_net w (w_calls w))] (snd (s_get at_ url w)).
Proof.
  unfold served, next_answers, s_get.
  destruct (w_net w (w_calls w)) eqn:E; cbn; rewrite ?E; repeat split; lia.
Qed.

Lemma prime_returns (w : world) :
  exists p w', prime w = (Ok tt, w') /\ served w p w' /\ prime_trace p.
Proof.
  pose proof (served_get AtPrime BASE w) as G1.
  unfold prime, except_request, io_bind, log.
  destruct (s_get AtPrime BASE w) as [r1 w1] eqn:E1.
  unfold s_get in E1.
  destruct (w_net w (w_calls w)) as [st1 b1|] eqn:N1;
    injection E1 as <- <-; cbn [snd] in G1.
  - match goal with |- context [s_get AtPrime ?u ?w1] =>
      pose proof (served_get AtPrime u w1) as G2;
      destruct (s_get AtPrime u w1) as [r2 w2] eqn:E2
    end.
    unfold s_get in E2. cbn [w_net w_calls w_trace] in E2, G2.
    destruct (w_net w (S (w_calls w))) as [st2 b2|] eqn:N2;
      injection E2 as <- <-; cbn [snd] in G2.
    + eexists _, _. split; [reflexivity|]. split; [|apply prime_both].
      eapply (served_app _ _ _ [_] [_; _]); [exact G1|].
      eapply (served_app _ _ _ [_] [_]); [exact G2|].
      apply (served_emit (EvLog LInfo)). reflexivity.
    + eexists _, _. split; [reflexivity|]. split; [|apply prime_second_fails].
      eapply (served_app _ _ _ [_] [_; _]); [exact G1|].
      eapply (served_app _ _ _ [_] [_]); [exact G2|].
      apply (served_emit (EvLog LWarning)). reflexivity.
  - eexists _, _. split; [reflexivity|]. split; [|apply prime_first_fails].
    eapply (served_app _ _ _ [_] [_]); [exact G1|].
    apply (served_emit (EvLog LWarning)). reflexivity.
Qed.

Lemma prime_trace_quiet (p : list event) :
  prime_trace p ->
  List.filter is_attempt p = [] /\ List.filter is_success p = [] /\
  List.filter is_failure p = [] /\ List.filter is_sleep p = [].
Proof. destruct 1; repeat split; reflexivity. Qed.

(** What follows a failed attempt: the re-priming, if any, and the
    delay. *)
Lemma handler_described (reprime : bool) (w : world) :
  exists p w1,
    ((if reprime then prime else io_ret tt) ;; sleep ;; io_ret (@None json)) w
      = (Ok None, w1) /\
    served w (p ++ [EvSleep]) w1 /\
    (if reprime then prime_trace p else p = []).
Proof.
  assert (Hp : exists p w1,
             (if reprime then prime else io_ret tt) w = (Ok tt, w1) /\
             served w p w1 /\ (if reprime then prime_trace p else p = [])).
  { destruct reprime.
    - apply prime_returns.
    - exists [], w. split; [reflexivity|]. split; [apply served_refl|reflexivity]. }
  destruct Hp as (p & w1 & Hp & Hs1 & Hpt).
  exists p, (snd (emit EvSleep w1)).
  split; [|split; [|exact Hpt]].
  - unfold io_bind at 1. rewrite Hp. reflexivity.
  - eapply served_app; [exact Hs1|]. apply served_emit. reflexivity.
Qed.

Lemma warned_handler_described (w : world) :
  exists p w1,
    (log LWarning ;; prime ;; sleep ;; io_ret (@None json)) w = (Ok None, w1) /\
    served w (EvLog LWarning :: p ++ [EvSleep]) w1 /\ prime_trace p.
Proof.
  destruct (handler_described true (snd (emit (EvLog LWarning) w)))
    as (p & w1 & Hrun & Hs & Hpt).
  exists p, w1. split; [|split; [|exact Hpt]].
  - unfold io_bind at 1, log. exact Hrun.
  - eapply (served_app _ _ _ [_]); [|exact Hs]. apply served_emit. reflexivity.
Qed.

Lemma attempt_described (json_error : exn) (url : string) (w : world) :
  exists tr o w',
    attempt json_error url w = (o, w') /\ served w tr w' /\
    ((exists j, o = Ok (Some j) /\ tr = [EvGet AtGetJson url (Response 200 (Some j))]) \/
     (o = Ok None /\ exists st b p,
        (st = 401%Z \/ st = 403%Z) /\ prime_trace p /\
        tr = EvGet AtGetJson url (Response st b) :: p ++ [EvSleep]) \/
     (o = Ok None /\ exists st b,
        st <> 200%Z /\ st <> 401%Z /\ st <> 403%Z /\
        tr = [EvGet AtGetJson url (Response st b); EvSleep]) \/
     (o = Ok None /\ exists p,
        prime_trace p /\
        tr = EvGet AtGetJson url NetFailure :: EvLog LWarning :: p ++ [EvSleep]) \/
     (o = Ok None /\ json_error = RequestException /\ exists p,
        prime_trace p /\
        tr = EvGet AtGetJson url (Response 200 None) :: EvLog LWarning :: p ++ [EvSleep]) \/
     (o = Raise json_error /\ json_error <> RequestException /\
      tr = [EvGet AtGetJson url (Response 200 None)])).
Proof.
  pose proof (served_get AtGetJson url w) as G.
  unfold attempt, except_request. unfold io_bind at 1.
  destruct (s_get AtGetJson url w) as [r1 w1] eqn:E1.
  unfold s_get in E1.
  destruct (w_net w (w_calls w)) as [st b|] eqn:N;
    injection E1 as <- <-; cbn [snd fst] in *.
  - destruct (Z.eqb_spec st 200) as [->|N200].
    + destruct b as [j|]; unfold io_bind at 1; unfold r_json.
      * eexists _, _, _. split; [reflexivity|]. split; [exact G|]. left. eauto.
      * unfold io_raise.
        destruct json_error eqn:Ej;
          try (eexists _, _, _; split; [reflexivity|]; split; [exact G|];
               do 5 right; repeat split; discriminate).
        match goal with |- context [io_bind (log LWarning) _ ?w1] =>
          destruct (warned_handler_described w1) as (p & w2 & Hrun & Hs & Hpt)
        end.
        rewrite Hrun.
        eexists _, _, _. split; [reflexivity|]. split.
        -- eapply (served_app _ _ _ [_]); [exact G|exact Hs].
        -- do 4 right. left. split; [reflexivity|]. split; [reflexivity|].
           exists p. split; [exact Hpt|reflexivity].
    + match goal with |- context [io_bind (if ?c then prime else io_ret tt) _ ?w1] =>
        destruct (handler_described c w1) as (p & w2 & Hrun & Hs & Hpt);
        destruct c eqn:Hauth
      end.
      * rewrite Hrun.
        eexists _, _, _. split; [reflexivity|]. split.
        -- eapply (served_app _ _ _ [_]); [exact G|exact Hs].
        -- right. left. split; [reflexivity|]. exists st, b, p.
           split; [|split; [exact Hpt|reflexivity]].
           apply orb_true_iff in Hauth. destruct Hauth as [H|H];
             apply Z.eqb_eq in H; auto.
      * rewrite Hrun. subst p.
        eexists _, _, _. split; [reflexivity|]. split.
        -- eapply (served_app _ _ _ [_]); [exact G|exact Hs].
        -- do 2 right. left. split; [reflexivity|]. exists st, b.
           apply orb_false_iff in Hauth. destruct Hauth as [H1 H3].
           apply Z.eqb_neq in H1, H3. auto.
  - match goal with |- context [io_bind (log LWarning) _ ?w1] =>
      destruct (warned_handler_described w1) as (p & w2 & Hrun & Hs & Hpt)
    end.
    rewrite Hrun.
    eexists _, _, _. split; [reflexivity|]. split.
    + eapply (served_app _ _ _ [_]); [exact G|exact Hs].
    + do 3 right. left. split; [reflexivity|].
      exists p. split; [exact Hpt|reflexivity].
Qed.

Lemma get_json_loop_described (json_error : exn) (url : string) (n : nat) : forall w,
  exists tr res w',
    get_json_loop json_error url n w = (res, w') /\
    served w tr w' /\
    fetch_trace json_error url n tr res.
Proof.
  induction n as [|n IH]; intro w.
  - exists [EvLog LError], (Raise (RuntimeError "NSE fetch failed")),
           (snd (emit (EvLog LError) w)).
    split; [reflexivity|]. split; [|constructor].
    apply served_emit. reflexivity.
  - cbn [get_json_loop]. unfold io_bind at 1.
    destruct (attempt_described json_error url w) as (tr1 & o & w1 & Hrun & Hs & Hcases).
    rewrite Hrun.
    destruct Hcases as [(j & -> & ->)
                       |[(-> & st & b & p & Hst & Hpt & ->)
                        |[(-> & st & b & H2 & H4 & H5 & ->)
                         |[(-> & p & Hpt & ->)
                          |[(-> & Ej & p & Hpt & ->)
                           |(-> & Ej & ->)]]]]].
    + eexists _, _, _. split; [reflexivity|]. split; [exact Hs|constructor].
    + destruct (IH w1) as (tr & res & w' & Hrun' & Hs' & Hft).
      exists ((EvGet AtGetJson url (Response st b) :: p ++ [EvSleep]) ++ tr), res, w'.
      split; [exact Hrun'|]. split; [eapply served_app; eassumption|].
      cbn. rewrite <- app_assoc. apply fetch_blocked; assumption.
    + destruct (IH w1) as (tr & res & w' & Hrun' & Hs' & Hft).
      exists ([EvGet AtGetJson url (Response st b); EvSleep] ++ tr), res, w'.
      split; [exact Hrun'|]. split; [eapply served_app; eassumption|].
      apply fetch_other_status; assumption.
    + destruct (IH w1) as (tr & res & w' & Hrun' & Hs' & Hft).
      exists ((EvGet AtGetJson url NetFailure :: EvLog LWarning :: p ++ [EvSleep]) ++ tr),
             res, w'.
      split; [exact Hrun'|]. split; [eapply served_app; eassumption|].
      cbn. rewrite <- app_assoc. apply fetch_network_failure; assumption.
    + destruct (IH w1) as (tr & res & w' & Hrun' & Hs' & Hft).
      exists ((EvGet AtGetJson url (Response 200 None) :: EvLog LWarning
                 :: p ++ [EvSleep]) ++ tr), res, w'.
      split; [exact Hrun'|]. split; [eapply served_app; eassumption|].
      cbn. rewrite <- app_assoc. apply fetch_not_json_retried; assumption.
    + eexists _, _, _. split; [reflexivity|]. split; [exact Hs|].
      apply fetch_not_json_escapes. exact Ej.
Qed.

Lemma counts_app (tr1 tr2 : list event) :
  attempts (tr1 ++ tr2) = (attempts tr1 + attempts tr2)%nat /\
  failed_attempts (tr1 ++ tr2) = (failed_attempts tr1 + failed_attempts tr2)%nat /\
  sleeps (tr1 ++ tr2) = (sleeps tr1 + sleeps tr2)%nat.
Proof.
  unfold attempts, failed_attempts, sleeps.
  rewrite !List.filter_app, !length_app. auto.
Qed.

Lemma prime_trace_counts (p : list event) :
  prime_trace p ->
  attempts p = 0%nat /\ failed_attempts p = 0%nat /\ sleeps p = 0%nat /\
  List.filter is_success p = [].
Proof. destruct 1; repeat split; reflexivity. Qed.

(** A failed attempt [e], what the handler logs and re-primes ([l]), and
    the delay. *)
Lemma failed_attempt_counts (e : event) (l : list event) :
  is_attempt e = true -> is_success e = false ->
  attempts l = 0%nat /\ failed_attempts l = 0%nat /\ sleeps l = 0%nat /\
  List.filter is_success l = [] ->
  attempts (e :: l ++ [EvSleep]) = 1%nat /\
  failed_attempts (e :: l ++ [EvSleep]) = 1%nat /\
  sleeps (e :: l ++ [EvSleep]) = 1%nat /\
  List.filter is_success (e :: l ++ [EvSleep]) = [].
Proof.
  intros Ha Hs (La & Lf & Ls & Lk).
  change (e :: l ++ [EvSleep]) with ([e] ++ l ++ [EvSleep]).
  destruct (counts_app [e] (l ++ [EvSleep])) as (-> & -> & ->).
  destruct (counts_app l [EvSleep]) as (-> & -> & ->).
  rewrite La, Lf, Ls, !List.filter_app, Lk.
  unfold attempts, failed_attempts, sleeps, is_failure. cbn.
  rewrite Ha, Hs. cbn.
  destruct e; try discriminate; repeat split; reflexivity.
Qed.

(** The counts of a fetch in terms of those of its first, failed,
    attempt [hd] and of the rest. *)
Lemma fetch_counts_step (json_error : exn) (url : string) (n : nat)
    (hd tr : list event) (res : result json) :
  attempts hd = 1%nat /\ failed_attempts hd = 1%nat /\ sleeps hd = 1%nat /\
  List.filter is_success hd = [] ->
  ((attempts tr <= n)%nat /\
   (forall b, res = Ok b ->
      sleeps tr = failed_attempts tr /\
      exists tr0, tr = tr0 ++ [EvGet AtGetJson url (Response 200 (Some b))] /\
                  List.filter is_success tr0 = []) /\
   (forall e, res = Raise e ->
      List.filter is_success tr = [] /\
      ((e = RuntimeError "NSE fetch failed" /\ attempts tr = n /\
        sleeps tr = failed_attempts tr) \/
       (e = json_error /\ json_error <> RequestException /\
        failed_attempts tr = S (sleeps tr) /\
        exists tr0, tr = tr0 ++ [EvGet AtGetJson url (Response 200 None)])))) ->
  (attempts (hd ++ tr) <= S n)%nat /\
  (forall b, res = Ok b ->
     sleeps (hd ++ tr) = failed_attempts (hd ++ tr) /\
     exists tr0, hd ++ tr = tr0 ++ [EvGet AtGetJson url (Response 200 (Some b))] /\
                 List.filter is_success tr0 = []) /\
  (forall e, res = Raise e ->
     List.filter is_success (hd ++ tr) = [] /\
     ((e = RuntimeError "NSE fetch failed" /\ attempts (hd ++ tr) = S n /\
       sleeps (hd ++ tr) = failed_attempts (hd ++ tr)) \/
      (e = json_error /\ json_error <> RequestException /\
       failed_attempts (hd ++ tr) = S (sleeps (hd ++ tr)) /\
       exists tr0, hd ++ tr = tr0 ++ [EvGet AtGetJson url (Response 200 None)]))).
Proof.
  intros (Ha & Hf & Hs & Hok) (IHa & IHok & IHraise).
  destruct (counts_app hd tr) as (Ca & Cf & Cs). rewrite Ca, Cf, Cs, Ha, Hf, Hs.
  split; [lia|]. split.
  - intros b Hb. destruct (IHok b Hb) as (E & tr0 & -> & Hs0).
    split; [lia|]. exists (hd ++ tr0). split; [apply app_assoc|].
    rewrite List.filter_app, Hok, Hs0. reflexivity.
  - intros e He. destruct (IHraise e He) as (Hn & Hcases).
    split; [rewrite List.filter_app, Hok, Hn; reflexivity|].
    destruct Hcases as [(-> & Hat & E)|(-> & Hne & E & tr0 & ->)].
    + left. repeat split; lia.
    + right. split; [reflexivity|]. split; [exact Hne|]. split; [lia|].
      exists (hd ++ tr0). apply app_assoc.
Qed.

Lemma fetch_trace_counts (json_error : exn) (url : string) (n : nat)
    (tr : list event) (res : result json) :
  fetch_trace json_error url n tr res ->
  (attempts tr <= n)%nat /\
  (forall b, res = Ok b ->
     sleeps tr = failed_attempts tr /\
     exists tr0, tr = tr0 ++ [EvGet AtGetJson url (Response 200 (Some b))] /\
                 List.filter is_success tr0 = []) /\
  (forall e, res = Raise e ->
     List.filter is_success tr = [] /\
     ((e = RuntimeError "NSE fetch failed" /\ attempts tr = n /\
       sleeps tr = failed_attempts tr) \/
      (e = json_error /\ json_error <> RequestException /\
       failed_attempts tr = S (sleeps tr) /\
       exists tr0, tr = tr0 ++ [EvGet AtGetJson url (Response 200 None)]))).
Proof.
  assert (Hw : forall p, prime_trace p ->
            attempts (EvLog LWarning :: p) = 0%nat /\
            failed_attempts (EvLog LWarning :: p) = 0%nat /\
            sleeps (EvLog LWarning :: p) = 0%nat /\
            List.filter is_success (EvLog LWarning :: p) = []).
  { intros p Hp. apply prime_trace_counts in Hp. exact Hp. }
  induction 1 as [|n b|n st b p tr res Hst Hp Hft IH|n st b tr res H2 H4 H5 Hft IH
                 |n p tr res Hp Hft IH|n p tr res Ej Hp Hft IH|n Ej].
  - split; [cbn; lia|]. split; [discriminate|].
    intros e [= <-]. split; [reflexivity|]. left. repeat split.
  - split; [cbn; lia|]. split; [|discriminate].
    intros b' [= <-]. split; [reflexivity|]. exists []. split; reflexivity.
  - replace (EvGet AtGetJson url (Response st b) :: p ++ EvSleep :: tr)
      with ((EvGet AtGetJson url (Response st b) :: p ++ [EvSleep]) ++ tr)
      by (cbn; rewrite <- app_assoc; reflexivity).
    apply fetch_counts_step; [|exact IH].
    apply failed_attempt_counts; [reflexivity| |apply prime_trace_counts; exact Hp].
    cbn. destruct b; [apply Z.eqb_neq; lia|reflexivity].
  - change (EvGet AtGetJson url (Response st b) :: EvSleep :: tr)
      with ((EvGet AtGetJson url (Response st b) :: [] ++ [EvSleep]) ++ tr).
    apply fetch_counts_step; [|exact IH].
    apply failed_attempt_counts; [reflexivity| |repeat split].
    cbn. destruct b; [apply Z.eqb_neq; lia|reflexivity].
  - replace (EvGet AtGetJson url NetFailure :: EvLog LWarning :: p ++ EvSleep :: tr)
      with ((EvGet AtGetJson url NetFailure :: (EvLog LWarning :: p) ++ [EvSleep]) ++ tr)
      by (cbn; rewrite <- app_assoc; reflexivity).
    apply fetch_counts_step; [|exact IH].
    apply failed_attempt_counts; [reflexivity|reflexivity|apply Hw; exact Hp].
  - replace (EvGet AtGetJson url (Response 200 None) :: EvLog LWarning
               :: p ++ EvSleep :: tr)
      with ((EvGet AtGetJson url (Response 200 None)
               :: (EvLog LWarning :: p) ++ [EvSleep]) ++ tr)
      by (cbn; rewrite <- app_assoc; reflexivity).
    apply fetch_counts_step; [|exact IH].
    apply failed_attempt_counts; [reflexivity|reflexivity|apply Hw; exact Hp].
  - split; [cbn; lia|]. split; [discriminate|].
    intros e [= <-]. split; [reflexivity|]. right.
    split; [reflexivity|]. split; [exact Ej|]. split; [reflexivity|].
    exists []. reflexivity.
Qed.

(** C9, as the code has it.  Whatever the network answers and whichever
    exception [r.json()] raises on a body that is not JSON, [get_json]
    with the default [retries] ends after at most 3 attempts at the URL.
    Every request of its trace is a request made to the network and
    answered by it in turn.  The trace is the one described: status 200
    with a JSON body returns the parsed body; a 401 or 403 and a network
    failure are followed by a re-priming, and each such failed attempt by
    the delay, before the next attempt; a status 200 whose body is not
    JSON is treated like a network failure when the exception of
    [r.json()] is a [RequestException], and otherwise ends the fetch at
    once with that exception, without a delay.  When [get_json] returns a
    body the last event is the request answered 200 with that body and no
    earlier attempt was; when it raises the fetch failure, all 3 attempts
    were made, none of them successful.  [prime] never raises. *)
Theorem get_json_bounded_retries (json_error : exn) (url : string) (w : world) :
  exists tr res w',
    get_json json_error url default_retries w = (res, w') /\
    served w tr w' /\
    fetch_trace json_error url 3 tr res /\
    (attempts tr <= 3)%nat /\
    (forall b, res = Ok b ->
       sleeps tr = failed_attempts tr /\
       exists tr0, tr = tr0 ++ [EvGet AtGetJson url (Response 200 (Some b))] /\
                   List.filter is_success tr0 = []) /\
    (forall e, res = Raise e ->
       List.filter is_success tr = [] /\
       ((e = RuntimeError "NSE fetch failed" /\ attempts tr = 3%nat /\
         sleeps tr = failed_attempts tr) \/
        (e = json_error /\ json_error <> RequestException /\
         failed_attempts tr = S (sleeps tr) /\
         exists tr0, tr = tr0 ++ [EvGet AtGetJson url (Response 200 None)]))) /\
    (forall w0, exists w1, prime w0 = (Ok tt, w1)).
Proof.
  destruct (get_json_loop_described json_error url 3 w) as (tr & res & w' & Hrun & Hs & Hft).
  destruct (fetch_trace_counts json_error url 3 tr res Hft) as (Ha & Hok & Hraise).
  exists tr, res, w'.
  do 6 (split; [assumption|]).
  intro w0. destruct (prime_returns w0) as (p & w1 & Hp & _). exists w1. exact Hp.
Qed.

End UpstreamFacts.

(* --------------------------------------------------------------------- *)
(** ** Normalizer *)
(* --------------------------------------------------------------------- *)

Section NormalizerFacts.
Import Described.

Variable float_of_str : string -> option Q.

Ltac bind_inv H x Hx :=
  apply bind_Ok_inv in H; destruct H as (x & Hx & H).

Lemma strike_le_trans : Transitive strike_le.
Proof.
  intros a b c. unfold strike_le.
  destruct (r_strike a), (r_strike b), (r_strike c); try tauto. lra.
Qed.

Lemma strike_leb_true (a b : row) :
  has_strike a = true -> has_strike b = true -> strike_leb a b = true -> strike_le a b.
Proof.
  unfold has_strike, strike_leb, strike_le.
  destruct (r_strike a), (r_strike b); try discriminate.
  intros _ _ H. apply Qle_bool_iff. exact H.
Qed.

Lemma strike_leb_false (a b : row) :
  has_strike a = true -> has_strike b = true -> strike_leb a b = false -> strike_le b a.
Proof.
  unfold has_strike, strike_leb, strike_le.
  destruct (r_strike a) as [x|], (r_strike b) as [y|]; try discriminate.
  intros _ _ H. destruct (Qlt_le_dec y x) as [Hlt|Hle]; [lra|].
  apply Qle_bool_iff in Hle. congruence.
Qed.

Lemma sorted_rows (rs : list row) :
  let out := sort_asc strike_leb (List.filter has_strike rs) in
  StronglySorted strike_le out /\ Forall (fun r => r_strike r <> None) out.
Proof.
  cbn zeta.
  assert (HP : Forall (fun r => has_strike r = true) (List.filter has_strike rs)).
  { apply List.Forall_forall. intros r Hr. apply List.filter_In in Hr. tauto. }
  split.
  - apply Sorted_StronglySorted; [exact strike_le_trans|].
    apply (sort_asc_sorted strike_leb strike_le (fun r => has_strike r = true));
      auto using strike_leb_true, strike_leb_false.
  - eapply Permutation_Forall; [symmetry; apply sort_asc_perm|].
    eapply List.Forall_impl; [|exact HP].
    intros r. unfold has_strike. destruct (r_strike r); [discriminate|congruence].
Qed.

Lemma parse_rows_rows (oc_json : json) (chosen_expiry : option string) (snap : snapshot) :
  parse_rows float_of_str oc_json chosen_expiry = Ok snap ->
  snap = empty_snapshot \/
  exists rs, rows snap = sort_asc strike_leb (List.filter has_strike rs).
Proof.
  unfold parse_rows. intro H.
  bind_inv H bad Hbad. destruct bad.
  - left. congruence.
  - right.
    bind_inv H rec Hrec. bind_inv H e He. bind_inv H d Hd.
    bind_inv H i Hi. bind_inv H u Hu. bind_inv H uv Huv. bind_inv H un Hun.
    bind_inv H items Hitems. bind_inv H rs Hrs.
    injection H as <-. exists rs. reflexivity.
Qed.

Lemma parse_rows_guard (oc_json : json) (chosen_expiry : option string) :
  truthy oc_json = false \/ jcontains "records" oc_json = Ok false ->
  parse_rows float_of_str oc_json chosen_expiry = Ok empty_snapshot.
Proof.
  unfold parse_rows, invalid_structure. intros [H|H].
  - rewrite H. reflexivity.
  - destruct (truthy oc_json); [|reflexivity]. cbn. rewrite H. reflexivity.
Qed.

Lemma leg_fields_nil : leg_fields [].
Proof. repeat split. Qed.

Lemma leg_object (o : option json) :
  leg_shaped o ->
  exists m, py_or (match o with Some v => v | None => JNull end) (JObj []) = JObj m /\
            leg_fields m.
Proof.
  unfold leg_shaped, py_or. destruct o as [v|].
  - intros [H|(m & -> & Hm)].
    + rewrite H. exists []. split; [reflexivity|apply leg_fields_nil].
    + destruct (truthy (JObj m)).
      * exists m. split; [reflexivity|exact Hm].
      * exists []. split; [reflexivity|apply leg_fields_nil].
  - intros _. exists []. split; [reflexivity|apply leg_fields_nil].
Qed.

Lemma safe_float_field (m : list (string * json)) (k : string) :
  float_field (assoc k m) ->
  exists q, (jget (JObj m) k ≫= safe_float float_of_str) = Ok q.
Proof.
  unfold float_field. cbn [jget jget_default mbind result_bind rbind].
  destruct (assoc k m) as [[]|]; cbn; intro H; try (eexists; reflexivity).
  destruct H as (q & ->). eexists; reflexivity.
Qed.

Lemma safe_float_volume (m : list (string * json)) :
  leg_fields m ->
  exists q,
    (get_first_truthy (JObj m) "totalTradedVolume" "lastTradedVolume" "totalTradedQty"
       ≫= safe_float float_of_str) = Ok q.
Proof.
  intros (_ & _ & H1 & H2 & H3).
  apply safe_float_field in H1, H2, H3.
  unfold get_first_truthy.
  cbn [jget jget_default mbind result_bind rbind] in *.
  repeat match goal with |- context [if ?c then _ else _] => destruct c end;
    cbn [mbind result_bind rbind]; assumption.
Qed.

Lemma parse_item_returns (sym : json) (under : option Q) (chosen_expiry : option string)
    (item : json) :
  entry_shaped item ->
  exists o, parse_item float_of_str sym under chosen_expiry item = Ok o.
Proof.
  intros (m & -> & Hsp & Hce & Hpe).
  destruct (leg_object _ Hce) as (mc & Hmc & Fc).
  destruct (leg_object _ Hpe) as (mp & Hmp & Fp).
  destruct (safe_float_field m "strikePrice" Hsp) as (strike & Hstrike).
  unfold parse_item.
  change (sp ← jget (JObj m) "strikePrice"; ?k sp)
    with (jget (JObj m) "strikePrice" ≫= ?k).
  cbn [jget jget_default mbind result_bind rbind] in Hstrike |- *.
  rewrite Hstrike. cbn [mbind result_bind rbind].
  match goal with |- context [if ?c then Ok None else _] => destruct c end;
    [eexists; reflexivity|].
  rewrite Hmc, Hmp.
  destruct Fc as (Fc1 & Fc2 & Fc3). destruct Fp as (Fp1 & Fp2 & Fp3).
  destruct (safe_float_field mc _ Fc1) as (? & ->).
  destruct (safe_float_field mp _ Fp1) as (? & ->).
  destruct (safe_float_field mc _ Fc2) as (? & ->).
  destruct (safe_float_field mp _ Fp2) as (? & ->).
  destruct (safe_float_volume mc (conj Fc1 (conj Fc2 Fc3))) as (? & ->).
  destruct (safe_float_volume mp (conj Fp1 (conj Fp2 Fp3))) as (? & ->).
  eexists; reflexivity.
Qed.

Lemma parse_rows_returns (oc_json : json) (chosen_expiry : option string) :
  chain_shaped oc_json ->
  exists snap, parse_rows float_of_str oc_json chosen_expiry = Ok snap.
Proof.
  intros (m & rec & -> & Hrec & Hunder & Hdata).
  destruct (safe_float_field rec "underlyingValue" Hunder) as (un & Hun).
  unfold parse_rows, invalid_structure.
  assert (Ht : truthy (JObj m) = true).
  { destruct m; [discriminate|reflexivity]. }
  rewrite Ht. cbn [negb jcontains jindex mbind result_bind rbind].
  rewrite Hrec. cbn [negb jget jget_default mbind result_bind rbind] in Hun |- *.
  rewrite Hun. cbn [mbind result_bind rbind].
  set (d := match assoc "data" rec with Some v => v | None => JArr [] end).
  assert (Hit : exists items, py_iter (py_or d (JArr [])) = Ok items /\
                              Forall entry_shaped items).
  { unfold data_shaped in Hdata. subst d. unfold py_or.
    destruct (assoc "data" rec) as [v|].
    - destruct Hdata as [Hf|(items & -> & Hitems)].
      + rewrite Hf. exists []. split; [reflexivity|constructor].
      + destruct (truthy (JArr items)).
        * exists items. split; [reflexivity|exact Hitems].
        * exists []. split; [reflexivity|constructor].
    - cbn. exists []. split; [reflexivity|constructor]. }
  destruct Hit as (items & Hiter & Hshape). rewrite Hiter.
  cbn [mbind result_bind rbind].
  match goal with
  | |- context [for_collect ?f items] =>
      destruct (for_collect_Ok f items) as (rs & Hrs)
  end.
  { eapply List.Forall_impl; [|exact Hshape]. intros item. apply parse_item_returns. }
  rewrite Hrs. cbn [mbind result_bind rbind]. eexists; reflexivity.
Qed.

(** C8, as the code has it.  Whenever [parse_rows] returns, its rows are
    in non-decreasing order of strike and none has a null strike; a falsy
    document and a document that does not contain ["records"] give the
    empty snapshot; and a document of the upstream shape, none of whose
    numeric fields is an integer too large for a double, always gives a
    snapshot. *)
Theorem parse_rows_sorted_and_guarded (oc_json : json) (chosen_expiry : option string) :
  (forall snap,
     parse_rows float_of_str oc_json chosen_expiry = Ok snap ->
     StronglySorted strike_le (rows snap) /\
     Forall (fun r => r_strike r <> None) (rows snap)) /\
  (truthy oc_json = false \/ jcontains "records" oc_json = Ok false ->
   parse_rows float_of_str oc_json chosen_expiry = Ok empty_snapshot) /\
  (chain_shaped oc_json ->
   exists snap, parse_rows float_of_str oc_json chosen_expiry = Ok snap).
Proof.
  split; [|split].
  - intros snap H. destruct (parse_rows_rows _ _ _ H) as [->|(rs & ->)].
    + split; constructor.
    + apply sorted_rows.
  - apply parse_rows_guard.
  - apply parse_rows_returns.
Qed.

End NormalizerFacts.

(* --------------------------------------------------------------------- *)
(** ** SignalEngine: the nearest strike *)
(* --------------------------------------------------------------------- *)

Section NearestFacts.
Import Described.

Variables (sd : side) (under : Q).







End NearestFacts.

(* --------------------------------------------------------------------- *)
(** ** SignalEngine: the straddle *)
(* --------------------------------------------------------------------- *)

Section StraddleFacts.
Import Described.

Lemma last_such_unique {A : Type} (P : A -> Prop) (l1 : list A) :
  forall l1' l2 l2' r r',
    l1 ++ r :: l2 = l1' ++ r' :: l2' ->
    P r -> P r' -> Forall (fun x => ~ P x) l2 -> Forall (fun x => ~ P x) l2' ->
    r = r'.
Proof.
  induction l1 as [|x l1 IH]; intros [|x' l1'] l2 l2' r r' E Pr Pr' H2 H2';
    cbn in E; injection E as E1 E2.
  - exact E1.
  - exfalso. rewrite List.Forall_forall in H2. apply (H2 r'); [|exact Pr'].
    rewrite E2. apply in_or_app. right. left. reflexivity.
  - exfalso. rewrite List.Forall_forall in H2'. apply (H2' r); [|exact Pr].
    rewrite <- E2. apply in_or_app. right. left. reflexivity.
  - exact (IH l1' l2 l2' r r' E2 Pr Pr' H2 H2').
Qed.

Lemma last_leg_unique (sd : side) (a : Q) (rows : list row) (r r' : row) :
  last_leg sd a rows r -> last_leg sd a rows r' -> r = r'.
Proof.
  intros (l1 & l2 & E & P & H) (l1' & l2' & E' & P' & H').
  apply (last_such_unique (leg_row sd a) l1 l1' l2 l2'); try assumption.
  congruence.
Qed.

Lemma strike_is_at (a : Q) (r : row) :
  strike_is (Some a) r = true <-> at_strike a r.
Proof.
  unfold strike_is, at_strike. destruct (r_strike r) as [s|].
  - rewrite Qeq_bool_iff. split.
    + intro H. exists s. auto.
    + intros (s' & [= <-] & H). exact H.
  - split; [discriminate|]. intros (s' & H & _). discriminate.
Qed.

Lemma truthy_traded (sd : side) (r : row) :
  truthy_float (ltp_of sd r) = true <-> traded sd r.
Proof.
  unfold truthy_float, traded. destruct (ltp_of sd r) as [p|].
  - rewrite Qnonzero_true. split.
    + intro H. exists p. auto.
    + intros (p' & [= <-] & H). exact H.
  - split; [discriminate|]. intros (p' & H & _). discriminate.
Qed.

Lemma leg_found_snoc (sd : side) (a : Q) (l : list row) (o : option row) (r : row) :
  leg_found sd a l o ->
  leg_found sd a (l ++ [r])
    (if strike_is (Some a) r && truthy_float (ltp_of sd r) then Some r else o).
Proof.
  intro H.
  destruct (strike_is (Some a) r && truthy_float (ltp_of sd r)) eqn:E.
  - apply andb_true_iff in E. destruct E as [E1 E2].
    exists l, []. split; [reflexivity|]. split; [|constructor].
    split; [apply strike_is_at|apply truthy_traded]; assumption.
  - assert (Hr : ~ leg_row sd a r).
    { intros [H1 H2]. apply strike_is_at in H1. apply truthy_traded in H2.
      rewrite H1, H2 in E. discriminate. }
    destruct o as [b|]; cbn [leg_found] in *.
    + destruct H as (l1 & l2 & -> & Hb & Hl2).
      exists l1, (l2 ++ [r]). split; [rewrite <- app_assoc; reflexivity|].
      split; [exact Hb|]. apply List.Forall_app. split; [exact Hl2|].
      constructor; [exact Hr|constructor].
    + apply List.Forall_app. split; [exact H|]. constructor; [exact Hr|constructor].
Qed.

Lemma legs_found (a : Q) (l : list row) :
  let st := fold_left (legs_step (Some a)) l (None, None) in
  leg_found CE a l (fst st) /\ leg_found PE a l (snd st).
Proof.
  induction l as [|r l IH] using rev_ind; cbn zeta in *.
  - split; constructor.
  - rewrite fold_left_app. cbn [fold_left].
    destruct (fold_left (legs_step (Some a)) l (None, None)) as [ce pe].
    cbn [fst snd] in IH. destruct IH as [Hce Hpe].
    pose proof (leg_found_snoc CE a l ce r Hce) as Hce'.
    pose proof (leg_found_snoc PE a l pe r Hpe) as Hpe'.
    unfold legs_step. cbn [ltp_of fst snd] in *.
    destruct (strike_is (Some a) r); cbn [andb fst snd] in *; auto.
Qed.

Lemma straddle_unfold (r : row) (rows : list row) (under a : Q) :
  resolve_atm (r :: rows) under = Ok (Some a) ->
  get_straddle_info (r :: rows) (Some under) =
  match fold_left (legs_step (Some a)) (r :: rows) (None, None) with
  | (Some ce_row, Some pe_row) =>
      price ← add_opt (CE_ltp ce_row) (PE_ltp pe_row);
      ivs ← add_opt (CE_iv ce_row) (PE_iv pe_row);
      Ok (Some {| straddle_price := round2 price;
                  straddle_iv := round2 (fdiv ivs 2);
                  atm_strike := Some a;
                  straddle_label := StraddleLabel (Some a) |})
  | _ => Ok None
  end.
Proof.
  intro H. unfold get_straddle_info. rewrite H. reflexivity.
Qed.

Lemma straddle_undefined (rows : list row) (under a : Q) (sd : side) :
  rows <> [] ->
  resolve_atm rows under = Ok (Some a) ->
  Forall (fun x => ~ leg_row sd a x) rows ->
  get_straddle_info rows (Some under) = Ok None.
Proof.
  intros Hne Hatm Hnone. destruct rows as [|r rows]; [contradiction|].
  rewrite (straddle_unfold _ _ _ _ Hatm).
  destruct (legs_found a (r :: rows)) as [Hce Hpe].
  destruct (fold_left (legs_step (Some a)) (r :: rows) (None, None)) as [[ce|] [pe|]];
    try reflexivity.
  exfalso. cbn [fst snd leg_found] in *.
  assert (Hin : forall sd' x, last_leg sd' a (r :: rows) x -> In x (r :: rows)).
  { intros sd' x (l1 & l2 & -> & _). apply in_or_app. right. left. reflexivity. }
  rewrite List.Forall_forall in Hnone.
  destruct sd.
  - apply (Hnone ce (Hin _ _ Hce)). destruct Hce as (? & ? & _ & H & _). exact H.
  - apply (Hnone pe (Hin _ _ Hpe)). destruct Hpe as (? & ? & _ & H & _). exact H.
Qed.

Lemma straddle_legs (rows : list row) (under a : Q) (ce_row pe_row : row) :
  resolve_atm rows under = Ok (Some a) ->
  last_leg CE a rows ce_row -> last_leg PE a rows pe_row ->
  get_straddle_info rows (Some under) =
  (price ← add_opt (CE_ltp ce_row) (PE_ltp pe_row);
   ivs ← add_opt (CE_iv ce_row) (PE_iv pe_row);
   Ok (Some {| straddle_price := round2 price;
               straddle_iv := round2 (fdiv ivs 2);
               atm_strike := Some a;
               straddle_label := StraddleLabel (Some a) |})).
Proof.
  intros Hatm Lce Lpe. destruct rows as [|r rows].
  { destruct Lce as ([|? ?] & ? & E & _); discriminate. }
  rewrite (straddle_unfold _ _ _ _ Hatm).
  destruct (legs_found a (r :: rows)) as [Hce Hpe].
  destruct (fold_left (legs_step (Some a)) (r :: rows) (None, None)) as [[ce|] [pe|]];
    cbn [fst snd leg_found] in *.
  - rewrite (last_leg_unique _ _ _ _ _ Lce Hce), (last_leg_unique _ _ _ _ _ Lpe Hpe).
    reflexivity.
  - exfalso. destruct Lpe as (l1 & l2 & E & H & _).
    rewrite List.Forall_forall in Hpe. apply (Hpe pe_row); [|exact H].
    rewrite E. apply in_or_app. right. left. reflexivity.
  - exfalso. destruct Lce as (l1 & l2 & E & H & _).
    rewrite List.Forall_forall in Hce. apply (Hce ce_row); [|exact H].
    rewrite E. apply in_or_app. right. left. reflexivity.
  - exfalso. destruct Lce as (l1 & l2 & E & H & _).
    rewrite List.Forall_forall in Hce. apply (Hce ce_row); [|exact H].
    rewrite E. apply in_or_app. right. left. reflexivity.
Qed.

Lemma with_keys_Ok (under : Q) (rows : list row) :
  Forall (fun r => r_strike r <> None) rows ->
  exists ks, with_keys under rows = Ok ks /\ map fst ks = rows.
Proof.
  induction 1 as [|r rows Hr Hrows (ks & IH & Hmap)]; cbn.
  - exists []. split; reflexivity.
  - unfold strike_distance. destruct (r_strike r) as [s|]; [|contradiction].
    cbn [mbind result_bind rbind]. rewrite IH. cbn [mbind result_bind rbind].
    eexists. split; [reflexivity|]. cbn. rewrite Hmap. reflexivity.
Qed.

Lemma min_first_In {A : Type} (ks : list (A * Q)) : forall k,
  In (min_first k ks) (k :: ks).
Proof.
  induction ks as [|x ks IH]; intro k; cbn [min_first].
  - left. reflexivity.
  - destruct (IH (if Qltb (snd x) (snd k) then x else k)) as [H|H].
    + destruct (Qltb (snd x) (snd k)); rewrite <- H; [right; left|left]; reflexivity.
    + right. right. exact H.
Qed.

Lemma resolve_atm_returns (rows : list row) (under : Q) :
  rows <> [] ->
  Forall (fun r => r_strike r <> None) rows ->
  exists a, resolve_atm rows under = Ok (Some a).
Proof.
  intros Hne Hall. unfold resolve_atm.
  destruct (find (near_atm under) rows) as [r|] eqn:Hfind.
  - apply find_some in Hfind. destruct Hfind as [_ Hnear].
    unfold near_atm in Hnear. destruct (r_strike r) as [s|]; [|discriminate].
    apply andb_true_iff in Hnear. destruct Hnear as [Hnz _].
    cbn [truthy_float]. rewrite Hnz. exists s. reflexivity.
  - cbn [truthy_float].
    destruct (with_keys_Ok under rows Hall) as (ks & Hks & Hmap).
    rewrite Hks. cbn [mbind result_bind rbind].
    destruct ks as [|k ks]; [destruct rows; [contradiction|discriminate]|].
    pose proof (min_first_In ks k) as Hin.
    apply (in_map fst) in Hin. rewrite Hmap in Hin.
    rewrite List.Forall_forall in Hall. specialize (Hall _ Hin).
    destruct (r_strike (fst (min_first k ks))) as [a|]; [|contradiction].
    exists a. reflexivity.
Qed.

(** C6, as the code has it.  With no rows or no underlying the result is
    undefined.  At the resolved ATM strike (there is one when every row has
    a strike), the result is undefined whenever no row has a CE price, or
    none a PE price, that is present and not zero; and when the last row
    with such a CE price and the last row with such a PE price both carry
    their IV, the result is the sum of the two prices and half the sum of
    the two IVs, each as the machine computes it in doubles and then
    rounded to 2 decimals. *)
Theorem get_straddle_info_both_legs (rows : list row) (under : Q) :
  get_straddle_info [] (Some under) = Ok None /\
  get_straddle_info rows None = Ok None /\
  (rows <> [] -> Forall (fun r => r_strike r <> None) rows ->
   exists a, resolve_atm rows under = Ok (Some a)) /\
  (forall a,
     rows <> [] ->
     resolve_atm rows under = Ok (Some a) ->
     (Forall (fun x => ~ leg_row CE a x) rows \/
      Forall (fun x => ~ leg_row PE a x) rows ->
      get_straddle_info rows (Some under) = Ok None) /\
     (forall ce_row pe_row c p civ piv,
        last_leg CE a rows ce_row -> last_leg PE a rows pe_row ->
        CE_ltp ce_row = Some c -> PE_ltp pe_row = Some p ->
        CE_iv ce_row = Some civ -> PE_iv pe_row = Some piv ->
        get_straddle_info rows (Some under) =
        Ok (Some {| straddle_price := round2 (fadd c p);
                    straddle_iv := round2 (fdiv (fadd civ piv) 2);
                    atm_strike := Some a;
                    straddle_label := StraddleLabel (Some a) |}))).
Proof.
  split; [reflexivity|]. split; [destruct rows; reflexivity|].
  split; [apply resolve_atm_returns|].
  intros a Hne Hatm. split.
  - intros [H|H]; eapply straddle_undefined; eassumption.
  - intros ce_row pe_row c p civ piv Lce Lpe Hc Hp Hciv Hpiv.
    rewrite (straddle_legs rows under a ce_row pe_row Hatm Lce Lpe).
    rewrite Hc, Hp, Hciv, Hpiv. reflexivity.
Qed.

(** C10.  There are rows whose two legs at the resolved ATM strike have a
    price that is present and not zero while an IV is absent, and on every
    such input [get_straddle_info] raises; and when the price of a leg is
    present but 0 in every row at the resolved ATM strike, the result is
    the fully undefined one. *)
Theorem get_straddle_info_raises_without_iv :
  (exists rows under a ce_row pe_row,
     resolve_atm rows under = Ok (Some a) /\
     last_leg CE a rows ce_row /\ last_leg PE a rows pe_row /\
     (CE_iv ce_row = None \/ PE_iv pe_row = None) /\
     get_straddle_info rows (Some under) = Raise TypeError) /\
  (forall rows under a ce_row pe_row,
     resolve_atm rows under = Ok (Some a) ->
     last_leg CE a rows ce_row -> last_leg PE a rows pe_row ->
     CE_iv ce_row = None \/ PE_iv pe_row = None ->
     get_straddle_info rows (Some under) = Raise TypeError) /\
  (forall rows under a sd,
     rows <> [] ->
     resolve_atm rows under = Ok (Some a) ->
     (forall r, In r rows -> at_strike a r ->
                exists q, ltp_of sd r = Some q /\ q == 0) ->
     get_straddle_info rows (Some under) = Ok None).
Proof.
  assert (Hraise : forall rows under a ce_row pe_row,
     resolve_atm rows under = Ok (Some a) ->
     last_leg CE a rows ce_row -> last_leg PE a rows pe_row ->
     CE_iv ce_row = None \/ PE_iv pe_row = None ->
     get_straddle_info rows (Some under) = Raise TypeError).
  { intros rows under a ce_row pe_row Hatm Lce Lpe Hiv.
    rewrite (straddle_legs rows under a ce_row pe_row Hatm Lce Lpe).
    destruct Lce as (_ & _ & _ & (_ & c & Hc & _) & _).
    destruct Lpe as (_ & _ & _ & (_ & p & Hp & _) & _).
    cbn [ltp_of] in Hc, Hp. rewrite Hc, Hp. cbn [add_opt mbind result_bind rbind].
    destruct Hiv as [-> | ->]; [reflexivity|].
    destruct (CE_iv ce_row); reflexivity. }
  split; [|split; [exact Hraise|]].
  - exists [Examples.atm_without_ce_iv], 100, 100,
      Examples.atm_without_ce_iv, Examples.atm_without_ce_iv.
    assert (Hatm : resolve_atm [Examples.atm_without_ce_iv] 100 = Ok (Some 100))
      by reflexivity.
    assert (Hleg : forall sd, last_leg sd 100 [Examples.atm_without_ce_iv]
                                Examples.atm_without_ce_iv).
    { intro sd. exists [], []. split; [reflexivity|]. split; [|constructor].
      split.
      - exists 100. split; reflexivity.
      - destruct sd; [exists 5|exists 6]; (split; [reflexivity|discriminate]). }
    split; [exact Hatm|]. split; [apply Hleg|]. split; [apply Hleg|].
    split; [left; reflexivity|].
    apply (Hraise _ _ _ _ _ Hatm (Hleg CE) (Hleg PE)). left. reflexivity.
  - intros rows under a sd Hne Hatm Hzero.
    apply (straddle_undefined rows under a sd Hne Hatm).
    apply List.Forall_forall. intros r Hr [Hat (p & Hp & Hnz)].
    destruct (Hzero r Hr Hat) as (q & Hq & Hq0).
    assert (q = p) by congruence. subst q. contradiction.
Qed.

End StraddleFacts.

(* --------------------------------------------------------------------- *)
(** ** SignalEngine: breakout hits *)
(* --------------------------------------------------------------------- *)

Section HitsFacts.
Import Described.

Lemma hit_of_side (sd : side) (under thr comp : Q) (r : row) (h : hit) :
  hit_of sd under thr comp r = Ok (Some h) -> on_side sd under h.
Proof.
  unfold hit_of.
  destruct (iv_of sd r) as [iv|]; [|discriminate].
  destruct (r_strike r) as [strike|]; [|discriminate].
  destruct sd; cbn [on_side].
  - destruct (Qltb strike under) eqn:E; [discriminate|]. apply Qltb_ge in E.
    destruct (Qgeb (fsub iv comp) thr); [|discriminate].
    intro H. apply bind_Ok_inv in H. destruct H as (d & _ & [= <-]). exact E.
  - destruct (Qltb under strike) eqn:E; [discriminate|]. apply Qltb_ge in E.
    destruct (Qgeb (fsub iv comp) thr); [|discriminate].
    intro H. apply bind_Ok_inv in H. destruct H as (d & _ & [= <-]). exact E.
Qed.

Lemma hit_of_returns (sd : side) (under thr comp : Q) (r : row) :
  ~ under == 0 -> exists o, hit_of sd under thr comp r = Ok o.
Proof.
  intro Hu. unfold hit_of.
  destruct (iv_of sd r) as [iv|]; [|eexists; reflexivity].
  destruct (r_strike r) as [strike|]; [|eexists; reflexivity].
  match goal with |- context [if ?c then Ok None else _] => destruct c end;
    [eexists; reflexivity|].
  destruct (Qgeb (fsub iv comp) thr); [|eexists; reflexivity].
  rewrite (py_div_ok _ _ Hu). eexists; reflexivity.
Qed.

Lemma hit_key_leb_true (a b : hit) : hit_key_leb a b = true -> hit_before b a.
Proof.
  unfold hit_key_leb, hit_before.
  destruct (Qeq_bool (h_inc a) (h_inc b)) eqn:E.
  - apply Qeq_bool_iff in E. intro H. apply Qle_bool_iff in H.
    right. split; [symmetry; exact E|lra].
  - intro H. apply Qltb_lt in H. left. exact H.
Qed.

Lemma hit_key_leb_false (a b : hit) : hit_key_leb a b = false -> hit_before a b.
Proof.
  unfold hit_key_leb, hit_before.
  destruct (Qeq_bool (h_inc a) (h_inc b)) eqn:E.
  - apply Qeq_bool_iff in E. intro H.
    right. split; [exact E|].
    destruct (Qlt_le_dec (Qabs (h_dist_pct b)) (Qabs (h_dist_pct a))) as [Hlt|Hle];
      [|exact Hle].
    exfalso. assert (Hle : - Qabs (h_dist_pct a) <= - Qabs (h_dist_pct b)) by lra.
    apply Qle_bool_iff in Hle. congruence.
  - intro H. apply Qltb_ge in H. left.
    apply Qeq_bool_neq in E. destruct (Qlt_le_dec (h_inc b) (h_inc a)) as [Hlt|Hle];
      [exact Hlt|].
    exfalso. apply E. apply Qle_antisym; assumption.
Qed.

Lemma hit_before_trans : Transitive hit_before.
Proof.
  intros a b c. unfold hit_before. intros [H1|[H1 H1']] [H2|[H2 H2']].
  - left. lra.
  - left. lra.
  - left. lra.
  - right. split; lra.
Qed.

(** C1, as the code has it.  [build_hits] returns whenever the underlying
    is not zero.  What it returns has every CE hit at or above the
    underlying and every PE hit at or below it, and is ordered by increment
    descending, equal increments by the smaller absolute distance percent
    first. *)
Theorem build_hits_side_and_order (rows : list row) (under thr : Q) (sd : side)
    (comp : option Q) :
  (~ under == 0 -> exists hits, build_hits rows under thr sd comp = Ok hits) /\
  (forall hits,
     build_hits rows under thr sd comp = Ok hits ->
     Forall (on_side sd under) hits /\ StronglySorted hit_before hits).
Proof.
  unfold build_hits. split.
  - intro Hu. destruct comp as [c|]; [|eexists; reflexivity].
    destruct (for_collect_Ok (hit_of sd under thr c) rows) as (hs & Hhs).
    { apply List.Forall_forall. intros r _. apply hit_of_returns. exact Hu. }
    rewrite Hhs. eexists; reflexivity.
  - intros hits H. destruct comp as [c|].
    + apply bind_Ok_inv in H. destruct H as (hs & Hhs & [= <-]). split.
      * eapply Permutation_Forall; [symmetry; apply sort_desc_perm|].
        apply List.Forall_forall. intros h Hh.
        destruct (for_collect_In _ _ _ _ Hhs Hh) as (r & _ & Hr).
        exact (hit_of_side _ _ _ _ _ _ Hr).
      * apply Sorted_StronglySorted; [exact hit_before_trans|].
        apply (sort_desc_sorted hit_key_leb (fun a b => hit_before b a) (fun _ => True)).
        -- intros a b _ _. apply hit_key_leb_true.
        -- intros a b _ _. apply hit_key_leb_false.
        -- apply List.Forall_forall. intros; exact I.
    + injection H as <-. split; constructor.
Qed.

End HitsFacts.

(** The claim of C1 on the order fails: of two hits with the same
    increment, the one nearer to the underlying comes first. *)
Lemma build_hits_nearer_first :
  exists h1 h2,
    build_hits Examples.two_calls 100 5 CE (Some 10) = Ok [h1; h2] /\
    h_inc h1 == h_inc h2 /\
    h_dist_pct h1 < h_dist_pct h2.
Proof.
  eexists _, _. split; [vm_compute; reflexivity|]. split; [reflexivity|].
  cbn. reflexivity.
Qed.

Lemma build_hits_side_and_order_witness :
  exists hits,
    build_hits Examples.two_calls 100 5 CE (Some 10) = Ok hits /\
    Forall (Described.on_side CE 100) hits /\
    StronglySorted Described.hit_before hits.
Proof.
  destruct (build_hits_side_and_order Examples.two_calls 100 5 CE (Some 10))
    as [Hret Hprop].
  destruct Hret as (hits & Hhits); [discriminate|].
  exists hits. split; [exact Hhits|]. apply Hprop. exact Hhits.
Defined.

(* --------------------------------------------------------------------- *)
(** ** SurgeDetector *)
(* --------------------------------------------------------------------- *)

Section SurgeFacts.
Import Described.


Lemma check_side_deque (sym : string) (used : option string) (sd : side)
    (strike under lot_size min_pct : Q) (r : row) (dq : list Q)
    (o : option surge_event) (dq' : list Q) :
  check_side sym used sd strike under lot_size min_pct r dq = Ok (o, dq') ->
  (exists cur, ltp_of sd r = Some cur /\ ~ cur == 0 /\
               otm_buffer sd strike under = true /\
               dq' = deque_append maxlen dq cur) \/
  (o = None /\ dq' = dq /\
   ~ (exists cur, ltp_of sd r = Some cur /\ ~ cur == 0 /\
                  otm_buffer sd strike under = true)).
Proof.
  unfold check_side. destruct (ltp_of sd r) as [cur|].
  - destruct (Qnonzero cur && otm_buffer sd strike under) eqn:E.
    + apply andb_true_iff in E. destruct E as [E1 E2]. apply Qnonzero_true in E1.
      intro H. apply bind_Ok_inv in H. destruct H as (ev & _ & [= <- <-]).
      left. exists cur. auto.
    + intros [= <- <-]. right. split; [reflexivity|]. split; [reflexivity|].
      intros (c & [= <-] & Hc & Hb). apply Qnonzero_true in Hc.
      rewrite Hc, Hb in E. discriminate.
  - intros [= <- <-]. right. split; [reflexivity|]. split; [reflexivity|].
    intros (c & Hc & _). discriminate.
Qed.



Lemma noise_floor_pos : 0 < noise_floor.
Proof. vm_compute. reflexivity. Qed.

Lemma change_pct_ok (cur prev : Q) :
  ~ prev == 0 -> change_pct cur prev = Ok (fmul (fdiv (fsub cur prev) prev) 100).
Proof.
  intro H. unfold change_pct. rewrite (py_div_ok _ _ H). reflexivity.
Qed.

Lemma detect_event (sym : string) (used : option string) (sd : side)
    (strike cur vol lot_size min_pct : Q) (dq : list Q) (e : surge_event) :
  detect sym used sd strike cur vol lot_size min_pct dq = Ok (Some e) ->
  exists prev pct,
    last dq = Some prev /\ noise_floor < prev /\
    change_pct cur prev = Ok pct /\ min_pct <= pct /\
    ev_pct e = round1 pct /\ ev_strength e = tier pct.
Proof.
  unfold detect. destruct (last dq) as [prev|]; [|discriminate].
  destruct (Qgtb prev noise_floor) eqn:Hprev; [|discriminate].
  apply Qgtb_gt in Hprev.
  intro H. apply bind_Ok_inv in H. destruct H as (pct & Hpct & H).
  apply bind_Ok_inv in H. destruct H as (speed & _ & H).
  apply bind_Ok_inv in H. destruct H as (lots & _ & H).
  destruct (Qgeb pct min_pct) eqn:Hmin; [|discriminate].
  apply Qgeb_ge in Hmin. injection H as <-.
  exists prev, pct. cbn. auto 10.
Qed.










Lemma otm_buffer_margin (sd : side) (strike under : Q) :
  otm_buffer sd strike under = true <-> otm_margin sd strike under.
Proof.
  destruct sd; cbn; [apply Qgtb_gt|apply Qltb_lt].
Qed.




End SurgeFacts.

(* --------------------------------------------------------------------- *)
(** ** SurgeDetector: the ranking *)
(* --------------------------------------------------------------------- *)

Section RankingFacts.
Import Described.

Lemma StronglySorted_app_inv {A : Type} (R : A -> A -> Prop) (l1 l2 : list A) :
  StronglySorted R (l1 ++ l2) ->
  StronglySorted R l1 /\ forall x y, In x l1 -> In y l2 -> R x y.
Proof.
  induction l1 as [|a l1 IH]; cbn; intro H.
  - split; [constructor|]. intros x y [].
  - inversion H as [|? ? Hs Hall]; subst. destruct (IH Hs) as [IH1 IH2].
    rewrite List.Forall_forall in Hall. split.
    + constructor; [exact IH1|]. apply List.Forall_forall. intros x Hx.
      apply Hall. apply in_or_app. left. exact Hx.
    + intros x y [<-|Hx] Hy.
      * apply Hall. apply in_or_app. right. exact Hy.
      * exact (IH2 x y Hx Hy).
Qed.

Lemma scoreBomb_bonuses (x : surge_event) :
  scoreBomb x = fold_left fadd (bonuses x) (rnd (ev_pct x)).
Proof.
  unfold scoreBomb, bonuses.
  destruct (ev_strength x), (ev_type x),
    (Qgtb (rnd (ev_speed x)) (fmul (rnd (ev_pct x)) (3 # 2))); reflexivity.
Qed.

(** Adding a bonus keeps a score on its side of an integer bound. *)
Lemma fadd_ge_int (n b : Z) (s : Q) :
  (0 <= b)%Z -> (0 <= n)%Z -> (n + b < 2 ^ 53)%Z ->
  inject_Z n <= s -> inject_Z (n + b) <= fadd s (inject_Z b).
Proof.
  intros Hb Hn Hnb Hs. unfold fadd. apply rnd_ge_int; [lia|].
  rewrite inject_Z_plus. lra.
Qed.

Lemma fadd_le_int (n b : Z) (s : Q) :
  (0 <= b)%Z -> (0 <= n)%Z -> (n + b < 2 ^ 53)%Z ->
  s <= inject_Z n -> fadd s (inject_Z b) <= inject_Z (n + b).
Proof.
  intros Hb Hn Hnb Hs. unfold fadd. apply rnd_le_int; [lia|].
  rewrite inject_Z_plus. lra.
Qed.

Lemma scoreBomb_nuclear (x : surge_event) :
  ev_strength x = NUCLEAR -> 1000 <= ev_pct x -> 6000 <= scoreBomb x.
Proof.
  intros Hx Hp. unfold scoreBomb. rewrite Hx.
  assert (H0 : 1000 <= rnd (ev_pct x)).
  { apply (rnd_ge_int 1000); [lia|exact Hp]. }
  assert (H1 : 6000 <= fadd (rnd (ev_pct x)) 5000).
  { apply (fadd_ge_int 1000 5000); [lia..|exact H0]. }
  set (s1 := fadd (rnd (ev_pct x)) 5000) in *.
  assert (H2 : 6000 <=
               (if Qgtb (rnd (ev_speed x)) (fmul (rnd (ev_pct x)) (3 # 2))
                then fadd s1 1000 else s1)).
  { destruct (Qgtb _ _); [|exact H1].
    assert (H : 7000 <= fadd s1 1000).
    { apply (fadd_ge_int 6000 1000); [lia..|exact H1]. }
    lra. }
  destruct (ev_type x); [exact H2|].
  match goal with |- _ <= fadd ?s 500 =>
    assert (H : 6500 <= fadd s 500)
  end.
  { apply (fadd_ge_int 6000 500); [lia..|exact H2]. }
  lra.
Qed.

Lemma scoreBomb_other (x : surge_event) :
  ev_strength x <> NUCLEAR -> ev_pct x <= 1000 -> scoreBomb x <= 4500.
Proof.
  intros Hx Hp. unfold scoreBomb.
  assert (H0 : rnd (ev_pct x) <= 1000).
  { apply (rnd_le_int 1000); [lia|exact Hp]. }
  set (s0 := rnd (ev_pct x)) in *.
  assert (H1 : (match ev_strength x with NUCLEAR => fadd s0 5000 | _ => s0 end) = s0).
  { destruct (ev_strength x); [contradiction|reflexivity..]. }
  rewrite H1.
  assert (H2 : (match ev_strength x with EXTREME => fadd s0 2000 | _ => s0 end) <= 3000).
  { assert (H : fadd s0 2000 <= 3000).
    { apply (fadd_le_int 1000 2000); [lia..|exact H0]. }
    destruct (ev_strength x); try exact H; lra. }
  set (s2 := match ev_strength x with EXTREME => fadd s0 2000 | _ => s0 end) in *.
  assert (H3 : (if Qgtb (rnd (ev_speed x)) (fmul s0 (3 # 2)) then fadd s2 1000 else s2)
               <= 4000).
  { assert (H : fadd s2 1000 <= 4000).
    { apply (fadd_le_int 3000 1000); [lia..|exact H2]. }
    destruct (Qgtb _ _); [exact H|lra]. }
  set (s3 := if Qgtb (rnd (ev_speed x)) (fmul s0 (3 # 2)) then fadd s2 1000 else s2) in *.
  assert (H : fadd s3 500 <= 4500).
  { apply (fadd_le_int 4000 500); [lia..|exact H3]. }
  destruct (ev_type x); [lra|exact H].
Qed.

Lemma tier_nuclear (pct : Q) : tier pct = NUCLEAR <-> 1000 <= pct.
Proof.
  unfold tier. destruct (Qgeb pct 1000) eqn:E.
  - apply Qgeb_ge in E. tauto.
  - split.
    + destruct (Qgeb pct 500); [discriminate|].
      destruct (Qgeb pct 300); discriminate.
    + intro H. apply Qgeb_ge in H. congruence.
Qed.

Lemma score_leb_true (a b : surge_event) :
  score_leb a b = true -> scoreBomb a <= scoreBomb b.
Proof. apply Qle_bool_iff. Qed.

Lemma score_leb_false (a b : surge_event) :
  score_leb a b = false -> scoreBomb b <= scoreBomb a.
Proof.
  unfold score_leb. intro H.
  destruct (Qlt_le_dec (scoreBomb b) (scoreBomb a)) as [Hlt|Hle]; [lra|].
  apply Qle_bool_iff in Hle. congruence.
Qed.

Lemma sort_desc_score_sorted (out : list surge_event) :
  StronglySorted (fun a b => scoreBomb b <= scoreBomb a) (sort_desc score_leb out).
Proof.
  apply Sorted_StronglySorted.
  - intros a b c H1 H2. lra.
  - apply (sort_desc_sorted score_leb (fun a b => scoreBomb a <= scoreBomb b)
             (fun _ => True)).
    + intros a b _ _. apply score_leb_true.
    + intros a b _ _. apply score_leb_false.
    + apply List.Forall_forall. intros; exact I.
Qed.

(** C4.  The score of an event is its ["pct"] plus 5000 if NUCLEAR, plus
    2000 if EXTREME, plus 1000 if its speed exceeds 1.5 times its pct, plus
    500 if INSTITUTIONAL_BOMB, the sums taken in this order as the machine
    takes them.  The list returned holds 50 of the events,
    or all of them when there are fewer, in descending order of score, and
    no event left out scores more than one returned.  The events [detect]
    builds carry the tier of their jump, and among such events a NUCLEAR
    one scores strictly more than any other. *)
Theorem scoreBomb_top_ranking (out : list surge_event) :
  (forall x, scoreBomb x = fold_left fadd (bonuses x) (rnd (ev_pct x))) /\
  (List.length (top_bombs out) = Nat.min 50 (List.length out) /\
   StronglySorted (fun a b => scoreBomb b <= scoreBomb a) (top_bombs out) /\
   exists rest,
     Permutation out (top_bombs out ++ rest) /\
     forall x y, In x (top_bombs out) -> In y rest -> scoreBomb y <= scoreBomb x) /\
  (forall sym used sd strike cur vol lot_size min_pct dq e,
     detect sym used sd strike cur vol lot_size min_pct dq = Ok (Some e) ->
     tiered e) /\
  (forall x y,
     tiered x -> tiered y ->
     ev_strength x = NUCLEAR -> ev_strength y <> NUCLEAR ->
     scoreBomb y < scoreBomb x).
Proof.
  split; [exact scoreBomb_bonuses|]. split; [|split].
  - unfold top_bombs.
    pose proof (sort_desc_score_sorted out) as Hs.
    rewrite <- (firstn_skipn 50 (sort_desc score_leb out)) in Hs.
    apply StronglySorted_app_inv in Hs. destruct Hs as [Hs1 Hs2].
    split.
    { rewrite length_firstn. f_equal. apply Permutation_length, sort_desc_perm. }
    split; [exact Hs1|].
    exists (skipn 50 (sort_desc score_leb out)). split; [|exact Hs2].
    rewrite firstn_skipn. symmetry. apply sort_desc_perm.
  - intros sym used sd strike cur vol lot_size min_pct dq e H.
    destruct (detect_event _ _ _ _ _ _ _ _ _ _ H) as (prev & pct & _ & _ & _ & _ & Hp & Ht).
    exists pct. split; assumption.
  - intros x y (px & Hpx & Htx) (py & Hpy & Hty) Hx Hy.
    assert (Hx1 : 1000 <= ev_pct x).
    { rewrite Hpx. apply (py_round_ge 1 1000). apply tier_nuclear. congruence. }
    assert (Hy1 : ev_pct y <= 1000).
    { rewrite Hpy. apply (py_round_le 1 1000).
      destruct (Qlt_le_dec py 1000) as [Hlt|Hle]; [apply Qlt_le_weak; exact Hlt|].
      exfalso. apply Hy. rewrite Hty. apply tier_nuclear. exact Hle. }
    pose proof (scoreBomb_nuclear x Hx Hx1) as Hsx.
    pose proof (scoreBomb_other y Hy Hy1) as Hsy.
    lra.
Qed.

End RankingFacts.

Lemma momentum_short (cur : Q) (dq : list Q) :
  (List.length dq < 3)%nat -> momentum cur dq = Ok 0.
Proof.
  intro H. unfold momentum. destruct dq as [|oldest dq]; [reflexivity|].
  destruct (Nat.leb_spec 3 (List.length (oldest :: dq))) as [Hle|_]; [lia|reflexivity].
Qed.

Lemma momentum_oldest (cur oldest : Q) (rest : list Q) :
  (3 <= List.length (oldest :: rest))%nat -> ~ oldest == 0 ->
  momentum cur (oldest :: rest) = Ok (fmul (fdiv (fsub cur oldest) oldest) 100).
Proof.
  intros Hlen Hnz. unfold momentum.
  destruct (Nat.leb_spec 3 (List.length (oldest :: rest))) as [_|Hlt]; [|lia].
  apply change_pct_ok. exact Hnz.
Qed.

Lemma speed_from_oldest_stored_eval :
  exists e,
    check_side "NIFTY" None CE 1100 1000 25 50 Examples.far_call [1; 2; 3; 4] =
    Ok (Some e, [1; 2; 3; 4; 8]).
Proof. eexists. vm_compute. reflexivity. Qed.

(** C3.  With four prices stored (1, 2, 3, 4) and a current price of 8,
    the event carries the speed 700, taken from the oldest stored price,
    not the 300 of the oldest of the last three. *)
Theorem speed_from_oldest_stored :
  exists e,
    check_side "NIFTY" None CE 1100 1000 25 50 Examples.far_call [1; 2; 3; 4] =
    Ok (Some e, [1; 2; 3; 4; 8]) /\
    ev_speed e == round1 ((8 - 1) / 1 * 100) /\
    ev_speed e == 700 /\
    round1 ((8 - 2) / 2 * 100) == 300.
Proof.
  eexists. split; [vm_compute; reflexivity|].
  cbn [ev_speed]. split; [reflexivity|]. split; reflexivity.
Qed.

(* --------------------------------------------------------------------- *)
(** ** RealtimeSession *)
(* --------------------------------------------------------------------- *)

Section RealtimeFacts.
Import Realtime Described.

Variable payload : Type.

Lemma bg_while_never_sleeps_on_success (sid : string) (interval : Z)
    (turns : list (turn payload)) :
  Forall turn_succeeds turns ->
  List.filter is_rt_sleep (bg_while payload sid interval turns) = [].
Proof.
  induction 1 as [|t turns [[out Hs] He] _ IH]; cbn [bg_while]; [reflexivity|].
  destruct (running sid (t_tasks _ t)); [|reflexivity].
  rewrite Hs, He. cbn. exact IH.
Qed.

Lemma bg_while_stops (sid : string) (interval : Z) (t : turn payload)
    (turns : list (turn payload)) :
  running sid (t_tasks _ t) = false ->
  bg_while payload sid interval (t :: turns) = [RtStopped payload].
Proof.
  intro H. cbn [bg_while]. rewrite H. reflexivity.
Qed.

Lemma stop_clears_flag (sid : string) (tasks : gmap string bool) :
  running sid (handle_stop_realtime sid tasks) = false.
Proof.
  unfold running, handle_stop_realtime.
  destruct (tasks !! sid) as [b|] eqn:E.
  - rewrite lookup_insert_eq. reflexivity.
  - rewrite E. reflexivity.
Qed.

End RealtimeFacts.

(** C5.  A session with the default interval whose scans succeed: the
    loop scans and publishes, and scans again at once; no sleep separates
    two scans.  Once the flag is cleared the loop stops at its next check
    and publishes nothing more. *)
Theorem bg_loop_scans_without_sleeping :
  Realtime._bg_loop nat "sid-1" Realtime.default_interval Examples.quiet_session =
  [Realtime.RtStarted nat;
   Realtime.RtScan nat; Realtime.RtPublish nat 1%nat;
   Realtime.RtScan nat; Realtime.RtPublish nat 2%nat;
   Realtime.RtStopped nat].
Proof. vm_compute. reflexivity. Qed.

(* --------------------------------------------------------------------- *)
(** ** The statements above at sample inputs *)
(* --------------------------------------------------------------------- *)

(** The claim of C6 fails where a price is present but 0 (the result is
    undefined, not the sum) and where an IV is absent (an exception, not
    a result). *)
Lemma get_straddle_info_zero_price_or_no_iv :
  CE_ltp Examples.atm_ce_ltp_zero = Some 0 /\
  PE_ltp Examples.atm_ce_ltp_zero = Some 6 /\
  get_straddle_info [Examples.atm_ce_ltp_zero] (Some 100) = Ok None /\
  CE_ltp Examples.atm_without_ce_iv = Some 5 /\
  PE_ltp Examples.atm_without_ce_iv = Some 6 /\
  get_straddle_info [Examples.atm_without_ce_iv] (Some 100) = Raise TypeError.
Proof. repeat split; reflexivity. Qed.

Lemma get_straddle_info_both_legs_witness :
  get_straddle_info [Examples.atm_complete] (Some 100) =
  Ok (Some {| straddle_price := round2 (fadd (21 # 4) 6);
              straddle_iv := round2 (fdiv (fadd 18 21) 2);
              atm_strike := Some 100;
              straddle_label := StraddleLabel (Some 100) |}) /\
  get_straddle_info [Examples.atm_ce_ltp_zero] (Some 100) = Ok None.
Proof.
  split.
  - destruct (get_straddle_info_both_legs [Examples.atm_complete] 100)
      as (_ & _ & _ & H).
    destruct (H 100) as [_ Hdef]; [discriminate|reflexivity|].
    assert (Hleg : forall sd, Described.last_leg sd 100 [Examples.atm_complete]
                                Examples.atm_complete).
    { intro sd. exists [], []. split; [reflexivity|]. split; [|constructor].
      split.
      - exists 100. split; reflexivity.
      - destruct sd; [exists (21 # 4)|exists 6]; (split; [reflexivity|discriminate]). }
    apply (Hdef Examples.atm_complete Examples.atm_complete);
      try apply Hleg; reflexivity.
  - destruct (get_straddle_info_both_legs [Examples.atm_ce_ltp_zero] 100)
      as (_ & _ & _ & H).
    destruct (H 100) as [Hundef _]; [discriminate|reflexivity|].
    apply Hundef. left. constructor; [|constructor].
    intros [_ (p & Hp & Hnz)]. injection Hp as <-. apply Hnz. reflexivity.
Defined.

Lemma get_straddle_info_raises_without_iv_witness :
  get_straddle_info [Examples.atm_without_ce_iv] (Some 100) = Raise TypeError /\
  get_straddle_info [Examples.atm_ce_ltp_zero] (Some 100) = Ok None.
Proof.
  destruct get_straddle_info_raises_without_iv as (_ & Hraise & Hzero).
  split.
  - assert (Hleg : forall sd, Described.last_leg sd 100 [Examples.atm_without_ce_iv]
                                Examples.atm_without_ce_iv).
    { intro sd. exists [], []. split; [reflexivity|]. split; [|constructor].
      split.
      - exists 100. split; reflexivity.
      - destruct sd; [exists 5|exists 6]; (split; [reflexivity|discriminate]). }
    apply (Hraise _ 100 100 Examples.atm_without_ce_iv Examples.atm_without_ce_iv);
      [reflexivity|apply Hleg|apply Hleg|left; reflexivity].
  - apply (Hzero _ 100 100 CE); [discriminate|reflexivity|].
    intros r [<-|[]] _. exists 0. split; reflexivity.
Defined.


(** The claim of C8 on malformed documents fails: a document whose
    ["records"] is [null] makes [parse_rows] raise, and so does a chain
    with a strike that is an integer too large for a double. *)
Lemma parse_rows_malformed_raises :
  parse_rows Examples.no_float_strings Examples.null_records None = Raise AttributeError /\
  parse_rows Examples.no_float_strings MoreExamples.huge_strike_chain None =
  Raise OverflowError.
Proof. split; vm_compute; reflexivity. Qed.

(** The claim of C9 on status 200 fails for an answer that is not JSON:
    when [r.json()] raises a [RequestException] the attempt counts as
    failed and, with three such answers, the fetch ends with the fetch
    failure; when it raises a [ValueError], the fetch ends at the first
    answer with that exception, without a delay. *)
Lemma get_json_not_json_fails :
  (exists w',
     Upstream.get_json RequestException MoreExamples.chain_url Upstream.default_retries
       MoreExamples.html_pages = (Raise (RuntimeError "NSE fetch failed"), w') /\
     Described.attempts (Upstream.w_trace w') = 3%nat /\
     List.filter Described.is_success (Upstream.w_trace w') = []) /\
  (exists w',
     Upstream.get_json ValueError MoreExamples.chain_url Upstream.default_retries
       MoreExamples.html_pages = (Raise ValueError, w') /\
     Upstream.w_trace w' =
     [Upstream.EvGet Upstream.AtGetJson MoreExamples.chain_url
        (Upstream.Response 200 None)]).
Proof.
  split; eexists; (split; [vm_compute; reflexivity|]).
  - split; reflexivity.
  - reflexivity.
Qed.

Lemma parse_rows_sorted_and_guarded_witness :
  (exists snap,
     parse_rows Examples.no_float_strings Examples.small_chain None = Ok snap /\
     StronglySorted Described.strike_le (rows snap) /\
     Forall (fun r => r_strike r <> None) (rows snap)) /\
  parse_rows Examples.no_float_strings JNull None = Ok empty_snapshot.
Proof.
  split.
  - destruct (parse_rows_sorted_and_guarded Examples.no_float_strings
                Examples.small_chain None) as (Hsorted & _ & Hret).
    destruct Hret as (snap & Hsnap).
    { eexists _, _. split; [reflexivity|]. split; [reflexivity|].
      split; [eexists; reflexivity|].
      right. eexists. split; [reflexivity|].
      repeat constructor; eexists; (split; [reflexivity|]);
        (split; [eexists; reflexivity|]); split; exact I. }
    exists snap. split; [exact Hsnap|]. apply Hsorted. exact Hsnap.
  - apply (parse_rows_sorted_and_guarded Examples.no_float_strings JNull None).
    left. reflexivity.
Defined.

Lemma scoreBomb_top_ranking_witness :
  List.length (top_bombs [Examples.extreme_event; Examples.nuclear_event]) = 2%nat /\
  StronglySorted (fun a b => scoreBomb b <= scoreBomb a)
    (top_bombs [Examples.extreme_event; Examples.nuclear_event]) /\
  scoreBomb Examples.extreme_event < scoreBomb Examples.nuclear_event.
Proof.
  destruct (scoreBomb_top_ranking [Examples.extreme_event; Examples.nuclear_event])
    as (_ & (Hlen & Hsorted & _) & _ & H).
  split; [exact Hlen|]. split; [exact Hsorted|].
  apply H.
  - exists 1100. split; reflexivity.
  - exists 990. split; reflexivity.
  - reflexivity.
  - discriminate.
Defined.

(* --------------------------------------------------------------------- *)
(** ** Scanner *)
(* --------------------------------------------------------------------- *)

Section ScanFacts.
Import Scan Described Observed.

Lemma for_collect_complete {A B : Type} (f : A -> result (option B)) (l : list A) :
  forall bs x b, for_collect f l = Ok bs -> In x l -> f x = Ok (Some b) -> In b bs.
Proof.
  induction l as [|y l IH]; cbn; intros bs x b H Hin Hx; [contradiction|].
  destruct (f y) as [o|] eqn:Hy; [|discriminate].
  destruct (for_collect f l) as [bs'|] eqn:Hl; [|discriminate].
  injection H as <-. destruct Hin as [->|Hin].
  - rewrite Hx in Hy. injection Hy as <-. left. reflexivity.
  - specialize (IH bs' x b eq_refl Hin Hx). destruct o; [right|]; exact IH.
Qed.

Lemma hit_of_breaks_out (sd : side) (under thr comp : Q) (r : row) (h : hit) :
  ~ under == 0 ->
  (hit_of sd under thr comp r = Ok (Some h) <->
   exists iv strike, breaks_out sd under thr comp r iv strike /\
                     h = hit_from sd under comp r iv strike).
Proof.
  intro Hu. unfold hit_of, breaks_out, hit_from. split.
  - destruct (iv_of sd r) as [iv|]; [|discriminate].
    destruct (r_strike r) as [strike|]; [|discriminate].
    intro H. exists iv, strike.
    assert (Hside : match sd with CE => under <= strike | PE => strike <= under end /\
                    (if Qgeb (fsub iv comp) thr
                     then d ← py_div (Qabs (fsub strike under)) under;
                          Ok (Some {| h_strike := strike; h_iv := iv;
                                      h_ltp := ltp_of sd r;
                                      h_inc := round2 (fsub iv comp);
                                      h_dist_pct := round2 (fmul d 100) |})
                     else Ok None) = Ok (Some h)).
    { destruct sd.
      - destruct (Qltb strike under) eqn:E; [discriminate|].
        apply Qltb_ge in E. split; assumption.
      - destruct (Qltb under strike) eqn:E; [discriminate|].
        apply Qltb_ge in E. split; assumption. }
    destruct Hside as [Hside Hrest].
    destruct (Qgeb (fsub iv comp) thr) eqn:Hthr; [|discriminate].
    apply Qgeb_ge in Hthr. rewrite (py_div_ok _ _ Hu) in Hrest.
    injection Hrest as <-. auto.
  - intros (iv & strike & (Hiv & Hs & Hside & Hthr) & ->).
    rewrite Hiv, Hs.
    assert (Hnot : (match sd with
                    | CE => Qltb strike under
                    | PE => Qltb under strike
                    end) = false).
    { destruct sd; apply Qltb_ge; exact Hside. }
    rewrite Hnot. apply Qgeb_ge in Hthr. rewrite Hthr.
    rewrite (py_div_ok _ _ Hu). reflexivity.
Qed.

(** X1.  With an underlying that is not zero, the hits of [build_hits]
    are exactly the hits of the rows that break out, that is, whose IV
    less the ATM IV, as the machine computes the difference, reaches the
    threshold: no such row is left out and nothing else is reported;
    without an ATM IV there is no hit. *)
Theorem build_hits_exactly_breakouts (rows : list row) (under thr : Q) (sd : side) :
  ~ under == 0 ->
  build_hits rows under thr sd None = Ok [] /\
  forall comp, exists hits,
    build_hits rows under thr sd (Some comp) = Ok hits /\
    forall h,
      In h hits <->
      exists r iv strike,
        In r rows /\ breaks_out sd under thr comp r iv strike /\
        h = hit_from sd under comp r iv strike.
Proof.
  intro Hu. split; [reflexivity|]. intro comp. unfold build_hits.
  destruct (for_collect_Ok (hit_of sd under thr comp) rows) as (hs & Hhs).
  { apply List.Forall_forall. intros r _. apply hit_of_returns. exact Hu. }
  rewrite Hhs. cbn [mbind result_bind rbind]. eexists. split; [reflexivity|].
  intro h. split.
  - intro Hin.
    apply (Permutation_in h (sort_desc_perm hit_key_leb hs)) in Hin.
    destruct (for_collect_In _ _ _ _ Hhs Hin) as (r & Hr & Hf).
    apply (hit_of_breaks_out sd under thr comp r h Hu) in Hf.
    destruct Hf as (iv & strike & Hb & ->). exists r, iv, strike. auto.
  - intros (r & iv & strike & Hr & Hb & ->).
    apply (Permutation_in _ (Permutation_sym (sort_desc_perm hit_key_leb hs))).
    apply (for_collect_complete _ _ _ r _ Hhs Hr).
    apply (hit_of_breaks_out sd under thr comp r _ Hu). exists iv, strike. auto.
Qed.

Lemma round_half_even_int (q : Q) (n : Z) : q == inject_Z n -> round_half_even q = n.
Proof.
  intro H. unfold round_half_even.
  assert (Hf : Qfloor q = n) by (rewrite H; apply Qfloor_Z).
  rewrite Hf.
  assert (Hd : q - inject_Z n < 1 # 2) by lra.
  apply Qltb_lt in Hd. rewrite Hd. reflexivity.
Qed.

Lemma py_round_idem (nd : nat) (x : Q) : py_round nd (py_round nd x) = py_round nd x.
Proof.
  unfold py_round.
  set (s := inject_Z (10 ^ Z.of_nat nd)).
  assert (Hs : ~ s == 0).
  { subst s. assert (0 < 10 ^ Z.of_nat nd)%Z by (apply Z.pow_pos_nonneg; lia).
    intro E. assert (Hq : inject_Z 0 < inject_Z (10 ^ Z.of_nat nd))
      by (rewrite <- Zlt_Qlt; assumption).
    change (inject_Z 0) with 0 in Hq. lra. }
  rewrite (round_half_even_int _ (round_half_even (x * s))); [reflexivity|].
  field. exact Hs.
Qed.

Lemma max_inc_sorted (h : hit) (hits : list hit) :
  StronglySorted hit_before (h :: hits) -> max_inc (h :: hits) = h_inc h.
Proof.
  intro Hs. inversion Hs as [|? ? _ Hall]; subst. cbn [max_inc].
  clear Hs. induction hits as [|x hits IH]; cbn [fold_left]; [reflexivity|].
  inversion Hall as [|? ? Hx Hall']; subst.
  assert (Hle : h_inc x <= h_inc h) by (destruct Hx as [H|[H _]]; lra).
  apply Qltb_ge in Hle. rewrite Hle. exact (IH Hall').
Qed.

Lemma sorted_head_top (h : hit) (hits : list hit) :
  StronglySorted hit_before (h :: hits) ->
  forall x, In x (h :: hits) -> h_inc x <= h_inc h.
Proof.
  intro Hs. inversion Hs as [|? ? _ Hall]; subst.
  rewrite List.Forall_forall in Hall.
  intros x [<-|Hx]; [lra|]. destruct (Hall x Hx) as [H|[H _]]; lra.
Qed.

Lemma py_max_bounds (a b : Q) :
  a <= py_max a b /\ b <= py_max a b /\ (py_max a b = a \/ py_max a b = b).
Proof.
  unfold py_max. destruct (Qltb a b) eqn:E.
  - apply Qltb_lt in E. repeat split; try lra. right. reflexivity.
  - apply Qltb_ge in E. repeat split; try lra. left. reflexivity.
Qed.

(** X2.  On hit lists in the order [build_hits] gives them, the strength
    of the strategy is the largest increment of all the hits (0 when there
    is none), and the bias tells which of the two lists are empty. *)
Theorem build_strategy_strength_is_top (ce pe : list hit) :
  StronglySorted hit_before ce -> StronglySorted hit_before pe ->
  (forall h, In h (ce ++ pe) -> h_inc h <= strength (build_strategy ce pe)) /\
  (ce ++ pe <> [] ->
   exists h, In h (ce ++ pe) /\ strength (build_strategy ce pe) = h_inc h) /\
  (ce ++ pe = [] -> strength (build_strategy ce pe) = 0) /\
  (bias (build_strategy ce pe) = "Neutral"%string <-> ce = [] /\ pe = []) /\
  (bias (build_strategy ce pe) = "Bullish"%string <-> ce <> [] /\ pe = []) /\
  (bias (build_strategy ce pe) = "Bearish"%string <-> ce = [] /\ pe <> []) /\
  (bias (build_strategy ce pe) = "Vol Expansion"%string <-> ce <> [] /\ pe <> []).
Proof.
  intros Hce Hpe.
  destruct ce as [|c ce], pe as [|p pe]; cbn [build_strategy strength bias app].
  - split; [intros h []|]. split; [intro H; contradiction|]. split; [reflexivity|].
    repeat split; try discriminate; try tauto; intros [H1 H2]; contradiction.
  - split; [apply (sorted_head_top p pe Hpe)|].
    split; [intros _; exists p; split; [left|]; reflexivity|].
    split; [discriminate|].
    repeat split; try discriminate; try tauto; intros [H1 H2];
      try contradiction; discriminate.
  - rewrite app_nil_r.
    split; [apply (sorted_head_top c ce Hce)|].
    split; [intros _; exists c; split; [left|]; reflexivity|].
    split; [discriminate|].
    repeat split; try discriminate; try tauto; intros [H1 H2];
      try contradiction; discriminate.
  - destruct (py_max_bounds (h_inc c) (h_inc p)) as (Hc & Hp & Hor).
    split.
    + intros h Hh. change (In h ((c :: ce) ++ (p :: pe))) in Hh.
      apply in_app_or in Hh. destruct Hh as [Hh|Hh].
      * pose proof (sorted_head_top c ce Hce h Hh). lra.
      * pose proof (sorted_head_top p pe Hpe h Hh). lra.
    + split.
      * intros _. destruct Hor as [-> | ->].
        -- exists c. split; [left|]; reflexivity.
        -- exists p. split; [|reflexivity]. right. apply in_or_app. right. left.
           reflexivity.
      * split; [discriminate|].
        repeat split; try discriminate; try tauto; intros [H1 H2]; discriminate.
Qed.

Lemma build_hits_sorted (rows : list row) (under thr : Q) (sd : side)
    (comp : option Q) (hits : list hit) :
  build_hits rows under thr sd comp = Ok hits -> StronglySorted hit_before hits.
Proof.
  unfold build_hits. destruct comp as [c|].
  - intro H. apply bind_Ok_inv in H. destruct H as (hs & _ & [= <-]).
    apply Sorted_StronglySorted; [exact hit_before_trans|].
    apply (sort_desc_sorted hit_key_leb (fun a b => hit_before b a) (fun _ => True)).
    + intros a b _ _. apply hit_key_leb_true.
    + intros a b _ _. apply hit_key_leb_false.
    + apply List.Forall_forall. intros; exact I.
  - intros [= <-]. constructor.
Qed.

Lemma build_hits_inc_nonneg (rows : list row) (under thr : Q) (sd : side)
    (comp : option Q) (hits : list hit) :
  0 <= thr ->
  build_hits rows under thr sd comp = Ok hits ->
  forall h, In h hits -> 0 <= h_inc h.
Proof.
  intros Hthr. unfold build_hits. destruct comp as [c|].
  - intro H. apply bind_Ok_inv in H. destruct H as (hs & Hhs & [= <-]).
    intros h Hin.
    apply (Permutation_in h (sort_desc_perm hit_key_leb hs)) in Hin.
    destruct (for_collect_In _ _ _ _ Hhs Hin) as (r & _ & Hf).
    unfold hit_of in Hf.
    destruct (iv_of sd r) as [iv|]; [|discriminate].
    destruct (r_strike r) as [strike|]; [|discriminate].
    match type of Hf with (if ?c then _ else _) = _ => destruct c end;
      [discriminate|].
    destruct (Qgeb (fsub iv c) thr) eqn:E; [|discriminate]. apply Qgeb_ge in E.
    apply bind_Ok_inv in Hf. destruct Hf as (d & _ & [= <-]). cbn [h_inc].
    apply (py_round_ge 2 0). change (inject_Z 0) with 0. lra.
  - intros [= <-] h [].
Qed.

Lemma max_inc_nonneg (hits : list hit) :
  StronglySorted hit_before hits -> (forall h, In h hits -> 0 <= h_inc h) ->
  0 <= max_inc hits.
Proof.
  intros Hs Hpos. destruct hits as [|h hits]; [cbn; lra|].
  rewrite (max_inc_sorted h hits Hs). apply Hpos. left. reflexivity.
Qed.

Lemma build_strategy_strength_bound (ce pe : list hit) :
  StronglySorted hit_before ce -> StronglySorted hit_before pe ->
  forall h, In h (ce ++ pe) -> h_inc h <= strength (build_strategy ce pe).
Proof.
  intros Hce Hpe.
  destruct ce as [|c ce], pe as [|p pe]; cbn [build_strategy strength app].
  - intros h [].
  - apply (sorted_head_top p pe Hpe).
  - rewrite app_nil_r. apply (sorted_head_top c ce Hce).
  - destruct (py_max_bounds (h_inc c) (h_inc p)) as (Hc & Hp & _).
    intros h Hh. change (In h ((c :: ce) ++ (p :: pe))) in Hh.
    apply in_app_or in Hh. destruct Hh as [Hh|Hh].
    + pose proof (sorted_head_top c ce Hce h Hh). lra.
    + pose proof (sorted_head_top p pe Hpe h Hh). lra.
Qed.

Lemma build_hits_rounded (rows : list row) (under thr : Q) (sd : side)
    (comp : option Q) (hits : list hit) :
  build_hits rows under thr sd comp = Ok hits ->
  forall h, In h hits -> round2 (h_inc h) = h_inc h.
Proof.
  unfold build_hits. destruct comp as [c|].
  - intro H. apply bind_Ok_inv in H. destruct H as (hs & Hhs & [= <-]).
    intros h Hin.
    apply (Permutation_in h (sort_desc_perm hit_key_leb hs)) in Hin.
    destruct (for_collect_In _ _ _ _ Hhs Hin) as (r & _ & Hf).
    unfold hit_of in Hf.
    destruct (iv_of sd r) as [iv|]; [|discriminate].
    destruct (r_strike r) as [strike|]; [|discriminate].
    match type of Hf with (if ?c then _ else _) = _ => destruct c end;
      [discriminate|].
    destruct (Qgeb (fsub iv c) thr); [|discriminate].
    apply bind_Ok_inv in Hf. destruct Hf as (d & _ & [= <-]). cbn [h_inc].
    apply py_round_idem.
  - intros [= <-] h [].
Qed.

(** X3.  In an entry of [scan_symbols], a side that was not asked for has
    no hits, so a CE scan is Bullish or Neutral, a PE scan Bearish or
    Neutral, and any other side Neutral; the strength bounds every
    increment reported; and with a threshold that is not negative the
    strength is the larger of the two maximal increments reported. *)
Theorem scan_symbol_consistent (sym : string) (used : option string)
    (rows : list row) (under : option Q) (thr : Q) (side_ : side_arg)
    (res : scan_result) :
  scan_symbol sym used rows under thr side_ = Ok (Some res) ->
  (wants CE side_ = false -> sr_ce_hits res = []) /\
  (wants PE side_ = false -> sr_pe_hits res = []) /\
  (side_ = SideCE ->
   bias (sr_strategy res) = "Bullish"%string \/ bias (sr_strategy res) = "Neutral"%string) /\
  (side_ = SidePE ->
   bias (sr_strategy res) = "Bearish"%string \/ bias (sr_strategy res) = "Neutral"%string) /\
  (side_ = SideOther -> bias (sr_strategy res) = "Neutral"%string) /\
  (forall h, In h (sr_ce_hits res ++ sr_pe_hits res) ->
             h_inc h <= strength (sr_strategy res)) /\
  (0 <= thr ->
   sr_ce_max_inc res <= strength (sr_strategy res) /\
   sr_pe_max_inc res <= strength (sr_strategy res) /\
   (strength (sr_strategy res) == sr_ce_max_inc res \/
    strength (sr_strategy res) == sr_pe_max_inc res)).
Proof.
  unfold scan_symbol. destruct rows as [|r0 rows]; [discriminate|].
  destruct under as [under|]; [|discriminate].
  set (rs := r0 :: rows).
  intro H. apply bind_Ok_inv in H. destruct H as (ce & Hce & H).
  apply bind_Ok_inv in H. destruct H as (pe & Hpe & H).
  injection H as <-. cbn [sr_ce_hits sr_pe_hits sr_strategy sr_ce_max_inc sr_pe_max_inc].
  assert (Sce : StronglySorted hit_before ce).
  { destruct (wants CE side_); [exact (build_hits_sorted _ _ _ _ _ _ Hce)|].
    injection Hce as <-. constructor. }
  assert (Spe : StronglySorted hit_before pe).
  { destruct (wants PE side_); [exact (build_hits_sorted _ _ _ _ _ _ Hpe)|].
    injection Hpe as <-. constructor. }
  assert (Ece : wants CE side_ = false -> ce = []).
  { intro E. rewrite E in Hce. congruence. }
  assert (Epe : wants PE side_ = false -> pe = []).
  { intro E. rewrite E in Hpe. congruence. }
  split; [exact Ece|]. split; [exact Epe|].
  split; [|split; [|split; [|split]]].
  - intros ->. rewrite (Epe eq_refl). destruct ce; cbn; auto.
  - intros ->. rewrite (Ece eq_refl). destruct pe; cbn; auto.
  - intros ->. rewrite (Ece eq_refl), (Epe eq_refl). reflexivity.
  - apply (build_strategy_strength_bound ce pe Sce Spe).
  - intro Hthr.
    assert (Pce : forall h, In h ce -> 0 <= h_inc h).
    { destruct (wants CE side_);
        [exact (build_hits_inc_nonneg _ _ _ _ _ _ Hthr Hce)|].
      injection Hce as <-. intros h []. }
    assert (Ppe : forall h, In h pe -> 0 <= h_inc h).
    { destruct (wants PE side_);
        [exact (build_hits_inc_nonneg _ _ _ _ _ _ Hthr Hpe)|].
      injection Hpe as <-. intros h []. }
    destruct ce as [|c ce], pe as [|p pe]; cbn [build_strategy strength].
    + cbn. split; [discriminate|]. split; [discriminate|]. left. reflexivity.
    + rewrite (max_inc_sorted p pe Spe).
      assert (Hp : round2 (h_inc p) = h_inc p).
      { assert (Hin : In p (p :: pe)) by (left; reflexivity).
        destruct (wants PE side_); [|discriminate].
        exact (build_hits_rounded _ _ _ _ _ _ Hpe p Hin). }
      assert (0 <= h_inc p) by (apply Ppe; left; reflexivity).
      cbn [max_inc]. change (round2 0) with (py_round 2 0).
      assert (Hz : py_round 2 0 == 0) by reflexivity.
      rewrite Hp, Hz. split; [assumption|]. split; [lra|]. right. reflexivity.
    + rewrite (max_inc_sorted c ce Sce).
      assert (Hc : round2 (h_inc c) = h_inc c).
      { assert (Hin : In c (c :: ce)) by (left; reflexivity).
        destruct (wants CE side_); [|discriminate].
        exact (build_hits_rounded _ _ _ _ _ _ Hce c Hin). }
      assert (0 <= h_inc c) by (apply Pce; left; reflexivity).
      cbn [max_inc]. change (round2 0) with (py_round 2 0).
      assert (Hz : py_round 2 0 == 0) by reflexivity.
      rewrite Hc, Hz. split; [lra|]. split; [assumption|]. left. reflexivity.
    + rewrite (max_inc_sorted c ce Sce), (max_inc_sorted p pe Spe).
      assert (Hc : round2 (h_inc c) = h_inc c).
      { assert (Hin : In c (c :: ce)) by (left; reflexivity).
        destruct (wants CE side_); [|discriminate].
        exact (build_hits_rounded _ _ _ _ _ _ Hce c Hin). }
      assert (Hp : round2 (h_inc p) = h_inc p).
      { assert (Hin : In p (p :: pe)) by (left; reflexivity).
        destruct (wants PE side_); [|discriminate].
        exact (build_hits_rounded _ _ _ _ _ _ Hpe p Hin). }
      rewrite Hc, Hp.
      destruct (py_max_bounds (h_inc c) (h_inc p)) as (H1 & H2 & [E|E]);
        rewrite E in *.
      * split; [lra|]. split; [exact H2|]. left. reflexivity.
      * split; [exact H1|]. split; [lra|]. right. reflexivity.
Qed.

End ScanFacts.

(* --------------------------------------------------------------------- *)
(** ** SignalEngine: the ATM strike of the straddle *)
(* --------------------------------------------------------------------- *)

Section AtmFacts.
Import Described Observed.





End AtmFacts.

(* --------------------------------------------------------------------- *)
(** ** Normalizer: the chosen expiry *)
(* --------------------------------------------------------------------- *)

(** A stable insertion sort commutes with a filter, for a comparison that
    is total and transitive on the elements that occur. *)
Section SortFilter.
Context {A : Type} (leb : A -> A -> bool) (P : A -> Prop) (p : A -> bool).
Hypothesis leb_total : forall a b, P a -> P b -> leb a b = false -> leb b a = true.
Hypothesis leb_trans :
  forall a b c, P a -> P b -> P c -> leb a b = true -> leb b c = true -> leb a c = true.

Let R (a b : A) : Prop := P a /\ P b /\ leb a b = true.

Lemma sort_asc_strongly_sorted (l : list A) :
  Forall P l -> StronglySorted R (sort_asc leb l).
Proof.
  intro Hl. apply Sorted_StronglySorted.
  - intros a b c (Pa & Pb & Hab) (_ & Pc & Hbc). unfold R.
    split; [exact Pa|]. split; [exact Pc|]. exact (leb_trans a b c Pa Pb Pc Hab Hbc).
  - apply (sort_asc_sorted leb R P); [| |exact Hl].
    + intros a b Pa Pb H. split; [exact Pa|]. split; [exact Pb|exact H].
    + intros a b Pa Pb H. split; [exact Pb|]. split; [exact Pa|].
      exact (leb_total a b Pa Pb H).
Qed.

Lemma insert_asc_below (x : A) (l : list A) :
  Forall (fun z => leb x z = true) l -> insert_asc leb x l = x :: l.
Proof.
  destruct 1 as [|z l Hz _]; cbn; [reflexivity|]. rewrite Hz. reflexivity.
Qed.

Lemma filter_insert_asc (x : A) (l : list A) :
  P x -> StronglySorted R l ->
  List.filter p (insert_asc leb x l) =
  if p x then insert_asc leb x (List.filter p l) else List.filter p l.
Proof.
  intros Px Hs. induction l as [|y l IH]; cbn [insert_asc List.filter].
  - destruct (p x); reflexivity.
  - inversion Hs as [|? ? Hs' Hall]; subst.
    destruct (leb x y) eqn:E.
    + cbn [List.filter]. destruct (p x); [|reflexivity].
      symmetry. apply insert_asc_below.
      apply List.Forall_forall. intros z Hz.
      change (In z (List.filter p (y :: l))) in Hz. apply List.filter_In in Hz.
      destruct Hz as [[<-|Hz] _]; [exact E|].
      rewrite List.Forall_forall in Hall. destruct (Hall z Hz) as (Py & Pz & Hyz).
      exact (leb_trans x y z Px Py Pz E Hyz).
    + cbn [List.filter]. rewrite (IH Hs').
      destruct (p x), (p y); cbn [insert_asc]; try rewrite E; reflexivity.
Qed.

Lemma filter_sort_asc (l : list A) :
  Forall P l -> List.filter p (sort_asc leb l) = sort_asc leb (List.filter p l).
Proof.
  induction 1 as [|x l Px Pl IH]; [reflexivity|].
  cbn [sort_asc fold_right List.filter].
  change (fold_right (insert_asc leb) [] l) with (sort_asc leb l).
  rewrite (filter_insert_asc x (sort_asc leb l) Px (sort_asc_strongly_sorted l Pl)).
  rewrite IH. destruct (p x); reflexivity.
Qed.
End SortFilter.

Section ExpiryFacts.
Import Described Observed.

Variable float_of_str : string -> option Q.

Lemma strike_leb_total (a b : row) :
  has_strike a = true -> has_strike b = true ->
  strike_leb a b = false -> strike_leb b a = true.
Proof.
  unfold has_strike, strike_leb.
  destruct (r_strike a) as [x|], (r_strike b) as [y|]; try discriminate.
  intros _ _ H. apply Qle_bool_iff.
  destruct (Qlt_le_dec y x) as [Hlt|Hle]; [lra|].
  apply Qle_bool_iff in Hle. congruence.
Qed.

Lemma strike_leb_trans (a b c : row) :
  has_strike a = true -> has_strike b = true -> has_strike c = true ->
  strike_leb a b = true -> strike_leb b c = true -> strike_leb a c = true.
Proof.
  unfold has_strike, strike_leb.
  destruct (r_strike a) as [x|], (r_strike b) as [y|], (r_strike c) as [z|];
    try discriminate.
  intros _ _ _ H1 H2. apply Qle_bool_iff in H1, H2. apply Qle_bool_iff. lra.
Qed.

Lemma parse_item_row (sym : json) (under : option Q) (item : json) (o : option row) :
  parse_item float_of_str sym under None item = Ok o ->
  exists r, o = Some r /\ r_symbol r = sym /\ r_underlying r = under /\
    forall c, c <> ""%string ->
      parse_item float_of_str sym under (Some c) item =
      Ok (if of_expiry c r then Some r else None).
Proof.
  unfold parse_item. intro H.
  apply bind_Ok_inv in H. destruct H as (sp & Hsp & H).
  apply bind_Ok_inv in H. destruct H as (strike & Hstrike & H).
  apply bind_Ok_inv in H. destruct H as (expiry & Hexp & H).
  rewrite Hsp. cbn [mbind result_bind rbind].
  rewrite Hstrike. cbn [mbind result_bind rbind].
  rewrite Hexp. cbn [mbind result_bind rbind].
  pose proof H as H0.
  apply bind_Ok_inv in H. destruct H as (c1 & _ & H).
  apply bind_Ok_inv in H. destruct H as (p1 & _ & H).
  apply bind_Ok_inv in H. destruct H as (ce_iv & _ & H).
  apply bind_Ok_inv in H. destruct H as (pe_iv & _ & H).
  apply bind_Ok_inv in H. destruct H as (ce_ltp & _ & H).
  apply bind_Ok_inv in H. destruct H as (pe_ltp & _ & H).
  apply bind_Ok_inv in H. destruct H as (ce_vol & _ & H).
  apply bind_Ok_inv in H. destruct H as (pe_vol & _ & H).
  injection H as <-. eexists. split; [reflexivity|].
  split; [reflexivity|]. split; [reflexivity|].
  intros c Hc. unfold of_expiry. cbn [r_expiry].
  apply String.eqb_neq in Hc. rewrite Hc. cbn [negb andb].
  destruct (is_str c expiry); cbn [negb]; [exact H0|reflexivity].
Qed.

Lemma for_collect_filtered {A B : Type} (f g : A -> result (option B))
    (k : B -> bool) (l : list A) :
  (forall x o, f x = Ok o ->
     exists b, o = Some b /\ g x = Ok (if k b then Some b else None)) ->
  forall bs, for_collect f l = Ok bs -> for_collect g l = Ok (List.filter k bs).
Proof.
  intro Hfg. induction l as [|x l IH]; cbn [for_collect]; intros bs H.
  - injection H as <-. reflexivity.
  - destruct (f x) as [o|] eqn:Hx; [|discriminate].
    destruct (for_collect f l) as [bs'|] eqn:Hl; [|discriminate].
    injection H as <-. destruct (Hfg x o Hx) as (b & -> & Hg).
    rewrite Hg, (IH bs' eq_refl). cbn [List.filter].
    destruct (k b); reflexivity.
Qed.

Lemma filter_filter_comm {A : Type} (p q : A -> bool) (l : list A) :
  List.filter p (List.filter q l) = List.filter q (List.filter p l).
Proof.
  induction l as [|x l IH]; [reflexivity|]. cbn [List.filter].
  destruct (p x) eqn:Ep, (q x) eqn:Eq; cbn [List.filter];
    rewrite ?Ep, ?Eq, IH; reflexivity.
Qed.

(** X5.  When the parse without a chosen expiry returns, the parse with
    a chosen expiry (not the empty string) returns the same snapshot with
    the rows of the other expiries removed and the order kept; an empty
    chosen expiry makes no difference. *)
Theorem parse_rows_chosen_expiry_filters (oc_json : json) (all : snapshot) :
  parse_rows float_of_str oc_json None = Ok all ->
  parse_rows float_of_str oc_json (Some ""%string) = Ok all /\
  forall c, c <> ""%string ->
    parse_rows float_of_str oc_json (Some c) =
    Ok {| rows := List.filter (of_expiry c) (rows all);
          expiries := expiries all;
          underlying := underlying all;
          symbol_name := symbol_name all |}.
Proof.
  intro H. split.
  - exact H.
  - intros c Hc. unfold parse_rows in *.
    apply bind_Ok_inv in H. destruct H as (bad & Hbad & H). rewrite Hbad.
    cbn [mbind result_bind rbind]. destruct bad.
    + injection H as <-. reflexivity.
    + apply bind_Ok_inv in H. destruct H as (rec & Hrec & H).
      apply bind_Ok_inv in H. destruct H as (e & He & H).
      apply bind_Ok_inv in H. destruct H as (d & Hd & H).
      apply bind_Ok_inv in H. destruct H as (i & Hi & H).
      apply bind_Ok_inv in H. destruct H as (u & Hu & H).
      apply bind_Ok_inv in H. destruct H as (uv & Huv & H).
      apply bind_Ok_inv in H. destruct H as (un & Hun & H).
      apply bind_Ok_inv in H. destruct H as (items & Hitems & H).
      apply bind_Ok_inv in H. destruct H as (rs & Hrs & H).
      rewrite Hrec; cbn [mbind result_bind rbind].
      rewrite He; cbn [mbind result_bind rbind].
      rewrite Hd; cbn [mbind result_bind rbind].
      rewrite Hi; cbn [mbind result_bind rbind].
      rewrite Hu; cbn [mbind result_bind rbind].
      rewrite Huv; cbn [mbind result_bind rbind].
      rewrite Hun; cbn [mbind result_bind rbind].
      rewrite Hitems; cbn [mbind result_bind rbind].
      rewrite (for_collect_filtered
                 (parse_item float_of_str (py_or i u) un None)
                 (parse_item float_of_str (py_or i u) un (Some c))
                 (of_expiry c) items) with (bs := rs); [| |exact Hrs].
      * cbn [mbind result_bind rbind]. injection H as <-.
        cbn [rows expiries underlying symbol_name]. f_equal. f_equal.
        rewrite filter_filter_comm.
        symmetry.
        apply (filter_sort_asc strike_leb (fun r => has_strike r = true)).
        -- exact strike_leb_total.
        -- exact strike_leb_trans.
        -- apply List.Forall_forall. intros r Hr. apply List.filter_In in Hr. tauto.
      * intros x o Hx. destruct (parse_item_row _ _ _ _ Hx) as (r & -> & _ & _ & Hr).
        exists r. split; [reflexivity|]. exact (Hr c Hc).
Qed.

(** X6.  Every row of a snapshot carries the symbol name and the
    underlying of the snapshot. *)
Theorem parse_rows_rows_carry_metadata (oc_json : json) (chosen_expiry : option string)
    (snap : snapshot) :
  parse_rows float_of_str oc_json chosen_expiry = Ok snap ->
  Forall (fun r => r_symbol r = symbol_name snap /\ r_underlying r = underlying snap)
         (rows snap).
Proof.
  unfold parse_rows. intro H.
  apply bind_Ok_inv in H. destruct H as (bad & Hbad & H). destruct bad.
  - injection H as <-. constructor.
  - apply bind_Ok_inv in H. destruct H as (rec & Hrec & H).
    apply bind_Ok_inv in H. destruct H as (e & He & H).
    apply bind_Ok_inv in H. destruct H as (d & Hd & H).
    apply bind_Ok_inv in H. destruct H as (i & Hi & H).
    apply bind_Ok_inv in H. destruct H as (u & Hu & H).
    apply bind_Ok_inv in H. destruct H as (uv & Huv & H).
    apply bind_Ok_inv in H. destruct H as (un & Hun & H).
    apply bind_Ok_inv in H. destruct H as (items & Hitems & H).
    apply bind_Ok_inv in H. destruct H as (rs & Hrs & H).
    injection H as <-. cbn [rows symbol_name underlying].
    eapply Permutation_Forall; [symmetry; apply sort_asc_perm|].
    apply List.Forall_forall. intros r Hr. apply List.filter_In in Hr.
    destruct Hr as [Hr _].
    destruct (for_collect_In _ _ _ _ Hrs Hr) as (item & _ & Hitem).
    unfold parse_item in Hitem.
    apply bind_Ok_inv in Hitem. destruct Hitem as (sp & _ & Hitem).
    apply bind_Ok_inv in Hitem. destruct Hitem as (strike & _ & Hitem).
    apply bind_Ok_inv in Hitem. destruct Hitem as (expiry & _ & Hitem).
    match type of Hitem with (if ?c then _ else _) = _ => destruct c end;
      [discriminate|].
    apply bind_Ok_inv in Hitem. destruct Hitem as (c1 & _ & Hitem).
    apply bind_Ok_inv in Hitem. destruct Hitem as (p1 & _ & Hitem).
    apply bind_Ok_inv in Hitem. destruct Hitem as (ce_iv & _ & Hitem).
    apply bind_Ok_inv in Hitem. destruct Hitem as (pe_iv & _ & Hitem).
    apply bind_Ok_inv in Hitem. destruct Hitem as (ce_ltp & _ & Hitem).
    apply bind_Ok_inv in Hitem. destruct Hitem as (pe_ltp & _ & Hitem).
    apply bind_Ok_inv in Hitem. destruct Hitem as (ce_vol & _ & Hitem).
    apply bind_Ok_inv in Hitem. destruct Hitem as (pe_vol & _ & Hitem).
    injection Hitem as <-. split; reflexivity.
Qed.

End ExpiryFacts.

(* --------------------------------------------------------------------- *)
(** ** SurgeDetector: what a scan leaves alone, and what it records *)
(* --------------------------------------------------------------------- *)

Section SurgeCacheFacts.
Import Described Observed.

Lemma surge_row_frame (sym : string) (used : option string)
    (under lot_size min_pct : Q) (m : gmap Qc history) (r : row) (k : Qc) :
  (forall s, r_strike r = Some s -> Q2Qc s <> k) ->
  fst (fst (surge_row sym used under lot_size min_pct m r)) !! k = m !! k.
Proof.
  intro Hk. unfold surge_row.
  destruct (r_strike r) as [strike|]; [|reflexivity].
  specialize (Hk strike eq_refl).
  destruct (Qnonzero strike); [|reflexivity].
  repeat match goal with
         | |- context [match ?c with Ok _ => _ | Raise _ => _ end] => destruct c as [[? ?]|?]
         end; cbn [fst]; apply lookup_insert_ne; exact Hk.
Qed.

Lemma surge_row_keeps (sym : string) (used : option string)
    (under lot_size min_pct : Q) (m : gmap Qc history) (r : row) (k : Qc) :
  is_Some (m !! k) ->
  is_Some (fst (fst (surge_row sym used under lot_size min_pct m r)) !! k).
Proof.
  intro Hk. unfold surge_row.
  destruct (r_strike r) as [strike|]; [|exact Hk].
  destruct (Qnonzero strike); [|exact Hk].
  repeat match goal with
         | |- context [match ?c with Ok _ => _ | Raise _ => _ end] => destruct c as [[? ?]|?]
         end; cbn [fst];
    (destruct (decide (Q2Qc strike = k)) as [->|Hne];
     [rewrite lookup_insert_eq; eexists; reflexivity
     |rewrite lookup_insert_ne by exact Hne; exact Hk]).
Qed.

Lemma surge_rows_frame (sym : string) (used : option string)
    (under lot_size min_pct : Q) (rows : list row) (k : Qc) : forall m,
  (forall r s, In r rows -> r_strike r = Some s -> Q2Qc s <> k) ->
  fst (fst (surge_rows sym used under lot_size min_pct m rows)) !! k = m !! k.
Proof.
  induction rows as [|r rows IH]; intros m Hk; cbn [surge_rows]; [reflexivity|].
  pose proof (surge_row_frame sym used under lot_size min_pct m r k
                (fun s => Hk r s (or_introl eq_refl))) as H1.
  destruct (surge_row sym used under lot_size min_pct m r) as [[m1 ev1] [e|]];
    cbn [fst] in *; [exact H1|].
  specialize (IH m1 (fun r' s Hr => Hk r' s (or_intror Hr))).
  destruct (surge_rows sym used under lot_size min_pct m1 rows) as [[m2 ev2] e2].
  cbn [fst] in *. congruence.
Qed.

Lemma surge_rows_keeps (sym : string) (used : option string)
    (under lot_size min_pct : Q) (rows : list row) (k : Qc) : forall m,
  is_Some (m !! k) ->
  is_Some (fst (fst (surge_rows sym used under lot_size min_pct m rows)) !! k).
Proof.
  induction rows as [|r rows IH]; intros m Hk; cbn [surge_rows]; [exact Hk|].
  pose proof (surge_row_keeps sym used under lot_size min_pct m r k Hk) as H1.
  destruct (surge_row sym used under lot_size min_pct m r) as [[m1 ev1] [e|]];
    cbn [fst] in *; [exact H1|].
  specialize (IH m1 H1).
  destruct (surge_rows sym used under lot_size min_pct m1 rows) as [[m2 ev2] e2].
  exact IH.
Qed.

Lemma surge_symbol_frame (min_pct : Q)
    (st : gmap surge_key (gmap Qc history) * list surge_event) (p : parsed_symbol)
    (key : surge_key) (k : Qc) :
  ~ visits [p] key k ->
  history_at (fst (surge_symbol min_pct st p)) key k = history_at (fst st) key k.
Proof.
  intro Hv. unfold surge_symbol.
  destruct (ps_rows p) as [|r0 rows] eqn:Hrows; [reflexivity|].
  destruct (ps_under p) as [under|]; [|reflexivity].
  set (m := match fst st !! (ps_sym p, ps_used p) with Some m => m | None => ∅ end).
  pose proof (surge_rows_frame (ps_sym p) (ps_used p) under (get_lot_size (ps_sym p))
                min_pct (r0 :: rows) k m) as Hf.
  destruct (surge_rows (ps_sym p) (ps_used p) under (get_lot_size (ps_sym p))
              min_pct m (r0 :: rows)) as [[m' evs] e].
  cbn [fst] in *. unfold history_at. unfold surge_key in *.
  destruct (decide ((ps_sym p, ps_used p) = key)) as [<-|Hne].
  - rewrite lookup_insert_eq. rewrite Hf.
    + subst m. destruct (fst st !! (ps_sym p, ps_used p)); [reflexivity|].
      apply lookup_empty.
    + intros r s Hr Hs Hq. apply Hv. exists p, r, s.
      split; [left; reflexivity|]. split; [reflexivity|].
      split; [rewrite Hrows; exact Hr|]. split; assumption.
  - rewrite lookup_insert_ne by exact Hne. reflexivity.
Qed.

Lemma surge_symbol_keeps (min_pct : Q)
    (st : gmap surge_key (gmap Qc history) * list surge_event) (p : parsed_symbol)
    (key : surge_key) (k : Qc) :
  is_Some (history_at (fst st) key k) ->
  is_Some (history_at (fst (surge_symbol min_pct st p)) key k).
Proof.
  intro Hs. unfold surge_symbol.
  destruct (ps_rows p) as [|r0 rows] eqn:Hrows; [exact Hs|].
  destruct (ps_under p) as [under|]; [|exact Hs].
  set (m := match fst st !! (ps_sym p, ps_used p) with Some m => m | None => ∅ end).
  pose proof (surge_rows_keeps (ps_sym p) (ps_used p) under (get_lot_size (ps_sym p))
                min_pct (r0 :: rows) k m) as Hf.
  destruct (surge_rows (ps_sym p) (ps_used p) under (get_lot_size (ps_sym p))
              min_pct m (r0 :: rows)) as [[m' evs] e].
  cbn [fst] in *. unfold history_at in *. unfold surge_key in *.
  destruct (decide ((ps_sym p, ps_used p) = key)) as [<-|Hne].
  - rewrite lookup_insert_eq. apply Hf. subst m.
    destruct (fst st !! (ps_sym p, ps_used p)); [exact Hs|].
    destruct Hs as [? Hs]. discriminate.
  - rewrite lookup_insert_ne by exact Hne. exact Hs.
Qed.

(** X7.  A scan changes no history of a strike it does not look at, for
    any symbol and expiry, and it never removes a history: a strike with a
    history before the scan has one after it. *)
Theorem surge_scan_isolated (min_pct : Q) (cache : gmap surge_key (gmap Qc history))
    (symbols : list parsed_symbol) (key : surge_key) (k : Qc) :
  (~ visits symbols key k ->
   history_at (fst (api_premium_surge min_pct cache symbols)) key k =
   history_at cache key k) /\
  (is_Some (history_at cache key k) ->
   is_Some (history_at (fst (api_premium_surge min_pct cache symbols)) key k)).
Proof.
  unfold api_premium_surge. cbn [fst].
  assert (H : forall st,
    (~ visits symbols key k ->
     history_at (fst (fold_left (surge_symbol min_pct) symbols st)) key k =
     history_at (fst st) key k) /\
    (is_Some (history_at (fst st) key k) ->
     is_Some (history_at (fst (fold_left (surge_symbol min_pct) symbols st)) key k))).
  { induction symbols as [|p ps IH]; intro st; cbn [fold_left].
    - split; auto.
    - destruct (IH (surge_symbol min_pct st p)) as [IH1 IH2]. split.
      + intro Hv. rewrite IH1.
        * apply surge_symbol_frame. intros (p' & r & s & [Hp'|[]] & Hrest).
          apply Hv. exists p', r, s. split; [left; exact Hp'|exact Hrest].
        * intros (p' & r & s & Hp' & Hrest). apply Hv.
          exists p', r, s. split; [right; exact Hp'|exact Hrest].
      + intro Hs. apply IH2. apply surge_symbol_keeps. exact Hs. }
  exact (H (cache, [])).
Qed.

Lemma detect_fields (sym : string) (used : option string) (sd : side)
    (strike cur vol lot_size min_pct : Q) (dq : list Q) (e : surge_event) :
  detect sym used sd strike cur vol lot_size min_pct dq = Ok (Some e) ->
  exists prev,
    last dq = Some prev /\ ev_prev e = round2 prev /\ ev_curr e = round2 cur /\
    ev_side e = sd /\ ev_symbol e = sym /\ ev_expiry e = used.
Proof.
  unfold detect. destruct (last dq) as [prev|]; [|discriminate].
  destruct (Qgtb prev noise_floor) eqn:Hprev; [|discriminate].
  intro H. apply bind_Ok_inv in H. destruct H as (pct & _ & H).
  apply bind_Ok_inv in H. destruct H as (speed & _ & H).
  apply bind_Ok_inv in H. destruct H as (lots & _ & H).
  destruct (Qgeb pct min_pct); [|discriminate].
  injection H as <-. exists prev. cbn. auto 10.
Qed.

Lemma change_pct_nonpos (cur prev pct : Q) :
  0 < prev -> cur <= prev -> change_pct cur prev = Ok pct -> pct <= 0.
Proof.
  intros Hprev Hle H. rewrite change_pct_ok in H by (intro; lra).
  injection H as <-. unfold fmul, fdiv, fsub.
  pose proof (rnd_nonpos (cur - prev)) as H1.
  assert (H2 : rnd (cur - prev) / prev <= 0) by (apply Qle_shift_div_r; lra).
  apply rnd_nonpos in H2. apply rnd_nonpos. lra.
Qed.

Lemma deque_append_last (n : nat) (d : list Q) (x : Q) :
  (1 <= n)%nat -> last (deque_append n d x) = Some x.
Proof.
  intro Hn. unfold deque_append.
  assert (Hlen : (List.length (d ++ [x]) - n <= List.length d)%nat).
  { rewrite length_app. cbn. lia. }
  rewrite skipn_app.
  replace (List.length (d ++ [x]) - n - List.length d)%nat with 0%nat by lia.
  cbn [skipn]. apply last_snoc.
Qed.

(** X8.  An observation that qualifies leaves its price as the latest
    entry of the history: appended when fewer than 5 prices are stored, in
    place of the oldest one when 5 are.  The first observation of a strike
    records the price without an event, and an event of the next
    observation names that price as its previous price. *)
Theorem check_side_records_price (sym : string) (used : option string) (sd : side)
    (strike under lot_size min_pct : Q) (r : row) (dq dq' : list Q)
    (o : option surge_event) (cur : Q) :
  check_side sym used sd strike under lot_size min_pct r dq = Ok (o, dq') ->
  ltp_of sd r = Some cur -> ~ cur == 0 -> otm_margin sd strike under ->
  last dq' = Some cur /\
  (dq = [] -> o = None /\ dq' = [cur]) /\
  ((List.length dq < 5)%nat -> dq' = dq ++ [cur]) /\
  (List.length dq = 5%nat -> dq' = tl dq ++ [cur]) /\
  (forall strike2 under2 lot2 min2 r2 e2 dq2,
     check_side sym used sd strike2 under2 lot2 min2 r2 dq' = Ok (Some e2, dq2) ->
     ev_prev e2 = round2 cur).
Proof.
  intros H Hcur Hnz Hotm.
  assert (Hdq' : dq' = deque_append 5 dq cur).
  { destruct (check_side_deque _ _ _ _ _ _ _ _ _ _ _ H)
      as [(c & Hc & _ & _ & ->)|(_ & _ & Hno)].
    - assert (c = cur) by congruence. subst c. reflexivity.
    - exfalso. apply Hno. exists cur. split; [exact Hcur|]. split; [exact Hnz|].
      apply otm_buffer_margin. exact Hotm. }
  assert (Hlast : last dq' = Some cur).
  { rewrite Hdq'. apply deque_append_last. lia. }
  split; [exact Hlast|]. split; [|split; [|split]].
  - intros ->. split; [|rewrite Hdq'; reflexivity].
    unfold check_side in H. rewrite Hcur in H.
    destruct (Qnonzero cur && otm_buffer sd strike under); [|congruence].
    cbn in H. congruence.
  - intro Hlen. rewrite Hdq'. unfold deque_append.
    replace (List.length (dq ++ [cur]) - 5)%nat with 0%nat; [reflexivity|].
    rewrite length_app. cbn. lia.
  - intro Hlen. rewrite Hdq'. unfold deque_append.
    replace (List.length (dq ++ [cur]) - 5)%nat with 1%nat
      by (rewrite length_app; cbn; lia).
    destruct dq as [|a dq]; [discriminate|]. reflexivity.
  - intros strike2 under2 lot2 min2 r2 e2 dq2 H2.
    unfold check_side in H2. destruct (ltp_of sd r2) as [cur2|]; [|discriminate].
    destruct (Qnonzero cur2 && otm_buffer sd strike2 under2); [|discriminate].
    apply bind_Ok_inv in H2. destruct H2 as (o2 & Hdet & [= -> _]).
    destruct (detect_fields _ _ _ _ _ _ _ _ _ _ Hdet) as (prev & Hl & Hp & _).
    rewrite Hlast in Hl. injection Hl as <-. exact Hp.
Qed.

(** X9.  With a positive [min_pct], an observation whose price is not
    above the latest stored price gives no event. *)
Theorem check_side_silent_unless_rise (sym : string) (used : option string) (sd : side)
    (strike under lot_size min_pct : Q) (r : row) (dq dq' : list Q)
    (o : option surge_event) (cur prev : Q) :
  check_side sym used sd strike under lot_size min_pct r dq = Ok (o, dq') ->
  ltp_of sd r = Some cur -> last dq = Some prev ->
  cur <= prev -> 0 < min_pct ->
  o = None.
Proof.
  intros H Hcur Hprev Hle Hmin. destruct o as [e|]; [|reflexivity]. exfalso.
  unfold check_side in H. rewrite Hcur in H.
  destruct (Qnonzero cur && otm_buffer sd strike under); [|discriminate].
  apply bind_Ok_inv in H. destruct H as (o & Hdet & [= -> _]).
  destruct (detect_event _ _ _ _ _ _ _ _ _ _ Hdet)
    as (p & pct & Hl & Hp & Hpct & Hge & _).
  rewrite Hprev in Hl. injection Hl as <-.
  pose proof noise_floor_pos as Hpos.
  assert (Hneg : pct <= 0).
  { apply (change_pct_nonpos cur prev); [lra|exact Hle|exact Hpct]. }
  lra.
Qed.
















End SurgeCacheFacts.


(* --------------------------------------------------------------------- *)
(** ** The arithmetic of the doubles at sample inputs *)
(* --------------------------------------------------------------------- *)

(** The sum 2.0 + 0.675 is the double just below 2.675 and rounds to 2.67,
    and half the sum 10.05 + 10.06 is the double just below 10.055 and
    rounds to 10.05. *)
Lemma get_straddle_info_rounds_the_double :
  exists s,
    get_straddle_info [MoreExamples.atm_decimal] (Some 100) = Ok (Some s) /\
    straddle_price s == 267 # 100 /\ straddle_iv s == 1005 # 100.
Proof. eexists. split; [vm_compute; reflexivity|]. split; vm_compute; reflexivity. Qed.

(** The difference 16.4 - 11.4 is a double below 5 and gives no hit at the
    threshold 5; the difference 30.49 - 10.49 is the double 20 and gives a
    hit at the threshold 20. *)
Lemma build_hits_threshold_on_the_double :
  build_hits MoreExamples.call_iv_16_4 100 5 CE (Some (MoreExamples.quoted (114 # 10)))
    = Ok [] /\
  exists h,
    build_hits MoreExamples.call_iv_30_49 100 20 CE
      (Some (MoreExamples.quoted (1049 # 100))) = Ok [h] /\
    h_inc h == 20.
Proof.
  split; [vm_compute; reflexivity|].
  eexists. split; vm_compute; reflexivity.
Qed.

(** The jump from 0.15 to 1.65 is computed as the double 1000 and gives a
    NUCLEAR event at a [min_pct] of 1000. *)
Lemma check_side_jump_on_the_double :
  exists e dq',
    check_side "NIFTY" None CE 1100 1000 25 1000 MoreExamples.far_call_1_65
      [MoreExamples.quoted (15 # 100)] = Ok (Some e, dq') /\
    ev_pct e == 1000 /\ ev_strength e = NUCLEAR.
Proof.
  eexists _, _. split; [vm_compute; reflexivity|]. split; vm_compute; reflexivity.
Qed.

(** Buying 1 lot at 8.55 and selling 3 at 4.95 nets the double
    -6.300000000000001; with a lot of 75 the total is the double
    -472.50000000000006, which rounds to -473. *)
Lemma strategy_symbol_total_on_the_double :
  exists res m,
    StrategyScan.strategy_symbol MoreExamples.spread_params 75 "NIFTY" None
      MoreExamples.decimal_spread_calls (Some 100) = Ok (Some res) /\
    StrategyScan.st_matches res = [m] /\
    StrategyScan.m_total_pnl m = (-473)%Z.
Proof.
  eexists _, _. split; [vm_compute; reflexivity|]. split; reflexivity.
Qed.

(* --------------------------------------------------------------------- *)
(** ** RealtimeSession: the registry and the loop *)
(* --------------------------------------------------------------------- *)

Section RegistryFacts.
Import Realtime Described Observed.

Variable payload : Type.

Lemma mark_running_flag (sid : string) (tasks : gmap string bool) :
  running sid (mark_running sid tasks) = true.
Proof.
  unfold running, mark_running. rewrite lookup_insert_eq. reflexivity.
Qed.

Lemma mark_running_other (sid other : string) (tasks : gmap string bool) :
  other <> sid -> mark_running sid tasks !! other = tasks !! other.
Proof.
  intro Hne. unfold mark_running. rewrite lookup_insert_ne by congruence.
  destruct (tasks !! sid) as [[|]|]; [|reflexivity|reflexivity].
  rewrite lookup_insert_ne by congruence. reflexivity.
Qed.

Lemma read_payload_side (float_of_str : string -> option Q)
    (int_of_str : string -> option Z) (upper : string -> string)
    (data : json) (s : session) :
  read_payload float_of_str int_of_str upper data = Ok s ->
  s_side s = "ALL"%string \/ s_side s = "CE"%string \/ s_side s = "PE"%string.
Proof.
  unfold read_payload. intro H.
  apply bind_Ok_inv in H. destruct H as (sy & _ & H).
  apply bind_Ok_inv in H. destruct H as (sd & _ & H).
  apply bind_Ok_inv in H. destruct H as (side & _ & H).
  apply bind_Ok_inv in H. destruct H as (iv & _ & H).
  apply bind_Ok_inv in H. destruct H as (interval & _ & H).
  apply bind_Ok_inv in H. destruct H as (ov & _ & H).
  injection H as <-. cbn [s_side existsb].
  destruct (String.eqb_spec side "ALL") as [->|_]; [left; reflexivity|].
  destruct (String.eqb_spec side "CE") as [->|_]; [right; left; reflexivity|].
  destruct (String.eqb_spec side "PE") as [->|_]; [right; right; reflexivity|].
  left. reflexivity.
Qed.

(** X10.  [handle_start_realtime] reads the payload before it touches
    the registry.  When that raises, the registry is left as it was, so a
    loop that was running goes on with its old parameters: so it is for a
    payload that is not an object, and for a ["side"] that is truthy and
    not a string.  When it returns, the side handed to the loop is ALL, CE
    or PE, the session is marked as running whatever it was before, also
    right after a stop, so that a loop of that session that has not yet
    read the cleared flag scans again, and no other session is touched.
    The empty payload gives the defaults: no symbols, threshold 5, side
    ALL (its own upper case), interval 15, no overrides. *)
Theorem handle_start_realtime_payload (float_of_str : string -> option Q)
    (int_of_str : string -> option Z) (upper : string -> string)
    (sid : string) (data : json) (tasks : gmap string bool) :
  let start := handle_start_realtime float_of_str int_of_str upper sid data in
  (forall e, fst (start tasks) = Raise e -> snd (start tasks) = tasks) /\
  ((forall m, data <> JObj m) -> fst (start tasks) = Raise AttributeError) /\
  (forall m v,
     data = JObj m -> assoc "side" m = Some v -> truthy v = true ->
     (forall s, v <> JStr s) ->
     fst (start tasks) = Raise AttributeError) /\
  (forall s,
     fst (start tasks) = Ok s ->
     (s_side s = "ALL"%string \/ s_side s = "CE"%string \/ s_side s = "PE"%string) /\
     running sid (snd (start tasks)) = true /\
     (forall other, other <> sid -> snd (start tasks) !! other = tasks !! other) /\
     forall interval (t : turn payload) turns,
       t_tasks _ t = snd (start (handle_stop_realtime sid tasks)) ->
       exists rest, bg_while payload sid interval (t :: turns) = RtScan payload :: rest) /\
  (data = JObj [] -> upper "ALL" = "ALL"%string ->
   fst (start tasks) =
   Ok {| s_symbols := JArr []; s_thr := 5; s_side := "ALL"; s_interval := 15;
         s_overrides := JObj [] |}).
Proof.
  cbn zeta. unfold handle_start_realtime.
  split; [|split; [|split; [|split]]].
  - intros e He. destruct (read_payload _ _ _ data); [discriminate|reflexivity].
  - intro Hno. destruct data; try reflexivity. exfalso. exact (Hno _ eq_refl).
  - intros m v -> Hside Hv Hnot. unfold read_payload.
    cbn [jget jget_default mbind result_bind rbind]. rewrite Hside.
    cbn [mbind result_bind rbind]. unfold py_or. rewrite Hv.
    destruct v; try reflexivity. exfalso. exact (Hnot _ eq_refl).
  - intros s Hs.
    destruct (read_payload float_of_str int_of_str upper data) as [s'|] eqn:Hread;
      [|discriminate].
    cbn [fst snd] in *. injection Hs as ->.
    split; [exact (read_payload_side _ _ _ _ _ Hread)|].
    split; [apply mark_running_flag|].
    split; [intros other Hne; apply mark_running_other; exact Hne|].
    intros interval t turns Ht. cbn [bg_while]. rewrite Ht, mark_running_flag.
    destruct (t_scan _ t); [destruct (t_emit _ t)|]; eexists; reflexivity.
  - intros -> Hup. unfold read_payload.
    cbn [jget jget_default assoc mbind result_bind rbind py_or truthy py_upper].
    rewrite Hup. reflexivity.
Qed.

Lemma bg_while_running (sid : string) (interval : Z) (pre rest : list (turn payload)) :
  Forall (fun t => running sid (t_tasks _ t) = true) pre ->
  bg_while payload sid interval (pre ++ rest) =
  bg_while payload sid interval pre ++ bg_while payload sid interval rest /\
  List.length (List.filter is_rt_scan (bg_while payload sid interval pre)) = List.length pre /\
  List.length (List.filter is_rt_publish (bg_while payload sid interval pre)) =
  List.length (List.filter (fun t => match t_scan _ t, t_emit _ t with
                                     | Ok _, Ok _ => true
                                     | _, _ => false
                                     end) pre).
Proof.
  induction 1 as [|t pre Ht _ (IH1 & IH2 & IH3)]; cbn [app bg_while List.filter].
  - auto.
  - rewrite Ht, IH1.
    destruct (t_scan _ t); [destruct (t_emit _ t)|]; cbn [app List.filter is_rt_scan
      is_rt_publish List.length]; rewrite ?IH2, ?IH3; auto.
Qed.

(** X11.  When the flag reads as running over the turns [pre] and as not
    running at the next one, the run is the run over [pre] followed by the
    stop, whatever comes later: it has one scan for each turn of [pre],
    one publication for each of them whose scan and emit succeed, and
    nothing after the stop.  Every sleep of a run lasts [max 1 interval]
    seconds, at least 1. *)
Theorem bg_while_until_stop (sid : string) (interval : Z)
    (pre : list (turn payload)) (t : turn payload) (post : list (turn payload)) :
  Forall (fun t => running sid (t_tasks _ t) = true) pre ->
  running sid (t_tasks _ t) = false ->
  bg_while payload sid interval (pre ++ t :: post) =
  bg_while payload sid interval pre ++ [RtStopped payload] /\
  List.length (List.filter is_rt_scan (bg_while payload sid interval (pre ++ t :: post))) =
  List.length pre /\
  List.length (List.filter is_rt_publish (bg_while payload sid interval (pre ++ t :: post))) =
  List.length (List.filter (fun t => match t_scan _ t, t_emit _ t with
                                     | Ok _, Ok _ => true
                                     | _, _ => false
                                     end) pre) /\
  (forall turns n,
     In (RtSleep payload n) (bg_while payload sid interval turns) ->
     n = Z.max 1 interval /\ (1 <= n)%Z).
Proof.
  intros Hpre Ht.
  destruct (bg_while_running sid interval pre (t :: post) Hpre) as (H1 & H2 & H3).
  rewrite H1, (bg_while_stops payload sid interval t post Ht).
  split; [reflexivity|].
  rewrite !List.filter_app, !length_app. cbn [List.filter is_rt_scan is_rt_publish List.length].
  split; [lia|]. split; [lia|].
  intros turns n. induction turns as [|u turns IH]; cbn [bg_while]; [intros []|].
  destruct (running sid (t_tasks _ u)).
  - destruct (t_scan _ u); [destruct (t_emit _ u)|]; cbn [In];
      intros H; repeat (destruct H as [H|H]; try discriminate);
      try (injection H as <-; split; lia); auto.
  - intros [H|[]]. discriminate.
Qed.

End RegistryFacts.

(* --------------------------------------------------------------------- *)
(** ** Strategy scan *)
(* --------------------------------------------------------------------- *)

Section StrategyFacts.
Import Scan StrategyScan Described Observed.

Variables (p : params) (lot : Z) (used : option string) (under : Q).












(** X13.  The strategy scan computes the straddle before anything else
    and does not use it: whenever [get_straddle_info] raises, the symbol is
    skipped with that exception, whatever the parameters.  So it is for a
    chain whose two legs at the ATM strike are traded while one has no
    IV. *)
Theorem strategy_symbol_needs_straddle (sym : string) (rows : list row) :
  (forall u e,
     get_straddle_info rows u = Raise e ->
     strategy_symbol p lot sym used rows u = Raise e) /\
  (forall a ce_row pe_row,
     resolve_atm rows under = Ok (Some a) ->
     last_leg CE a rows ce_row -> last_leg PE a rows pe_row ->
     CE_iv ce_row = None \/ PE_iv pe_row = None ->
     strategy_symbol p lot sym used rows (Some under) = Raise TypeError).
Proof.
  assert (H : forall u e, get_straddle_info rows u = Raise e ->
                          strategy_symbol p lot sym used rows u = Raise e).
  { intros u e He. unfold strategy_symbol. rewrite He. reflexivity. }
  split; [exact H|].
  intros a ce_row pe_row Hatm Lce Lpe Hiv. apply H.
  rewrite (straddle_legs rows under a ce_row pe_row Hatm Lce Lpe).
  destruct Lce as (_ & _ & _ & (_ & c & Hc & _) & _).
  destruct Lpe as (_ & _ & _ & (_ & q & Hq & _) & _).
  cbn [ltp_of] in Hc, Hq. rewrite Hc, Hq. cbn [add_opt mbind result_bind rbind].
  destruct Hiv as [-> | ->]; [reflexivity|].
  destruct (CE_iv ce_row); reflexivity.
Qed.

End StrategyFacts.

(* --------------------------------------------------------------------- *)
(** ** The further statements at sample inputs *)
(* --------------------------------------------------------------------- *)

Lemma build_hits_exactly_breakouts_witness :
  exists hits,
    build_hits MoreExamples.breakout_calls 100 5 CE (Some 15) = Ok hits /\
    In MoreExamples.call_hit hits.
Proof.
  destruct (build_hits_exactly_breakouts MoreExamples.breakout_calls 100 5 CE)
    as [_ H]; [discriminate|].
  destruct (H 15) as (hits & Hhits & Hiff).
  exists hits. split; [exact Hhits|]. apply Hiff.
  exists (Examples.quote 110 (Some (43 # 2)) None (Some 1) None), (43 # 2), 110.
  split; [right; left; reflexivity|]. split.
  - repeat split; cbn; discriminate.
  - reflexivity.
Defined.

Lemma build_strategy_strength_is_top_witness :
  Scan.bias (Scan.build_strategy [MoreExamples.call_hit] []) = "Bullish"%string /\
  h_inc MoreExamples.call_hit <=
    Scan.strength (Scan.build_strategy [MoreExamples.call_hit] []).
Proof.
  destruct (build_strategy_strength_is_top [MoreExamples.call_hit] [])
    as (Hle & _ & _ & _ & Hbull & _).
  - repeat constructor.
  - constructor.
  - split.
    + apply Hbull. split; [discriminate|reflexivity].
    + apply Hle. left. reflexivity.
Defined.

Lemma scan_symbol_consistent_witness :
  exists res,
    Scan.scan_symbol "NIFTY" None MoreExamples.breakout_calls (Some 100) 5 Scan.SideCE =
    Ok (Some res) /\
    Scan.sr_pe_hits res = [] /\
    Scan.sr_ce_max_inc res <= Scan.strength (Scan.sr_strategy res).
Proof.
  assert (H : exists res,
    Scan.scan_symbol "NIFTY" None MoreExamples.breakout_calls (Some 100) 5 Scan.SideCE =
    Ok (Some res)) by (eexists; vm_compute; reflexivity).
  destruct H as (res & H). exists res. split; [exact H|].
  destruct (scan_symbol_consistent _ _ _ _ _ _ _ H) as (_ & Hpe & _ & _ & _ & _ & Hthr).
  split; [apply Hpe; reflexivity|].
  destruct Hthr as (Hce & _); [discriminate|exact Hce].
Defined.


Lemma parse_rows_chosen_expiry_filters_witness :
  exists all,
    parse_rows Examples.no_float_strings MoreExamples.two_expiry_chain None = Ok all /\
    parse_rows Examples.no_float_strings MoreExamples.two_expiry_chain
      (Some "27-Nov-2025"%string) =
    Ok {| rows := List.filter (Observed.of_expiry "27-Nov-2025") (rows all);
          expiries := expiries all;
          underlying := underlying all;
          symbol_name := symbol_name all |}.
Proof.
  assert (H : exists all,
    parse_rows Examples.no_float_strings MoreExamples.two_expiry_chain None = Ok all)
    by (eexists; vm_compute; reflexivity).
  destruct H as (all & H). exists all. split; [exact H|].
  apply (parse_rows_chosen_expiry_filters _ _ _ H). discriminate.
Defined.

Lemma parse_rows_rows_carry_metadata_witness :
  exists snap,
    parse_rows Examples.no_float_strings MoreExamples.two_expiry_chain None = Ok snap /\
    Forall (fun r => r_symbol r = symbol_name snap /\ r_underlying r = underlying snap)
           (rows snap).
Proof.
  assert (H : exists snap,
    parse_rows Examples.no_float_strings MoreExamples.two_expiry_chain None = Ok snap)
    by (eexists; vm_compute; reflexivity).
  destruct H as (snap & H). exists snap. split; [exact H|].
  exact (parse_rows_rows_carry_metadata _ _ _ _ H).
Defined.

Lemma surge_scan_isolated_witness :
  Observed.history_at
    (fst (api_premium_surge 50 MoreExamples.banknifty_cache [MoreExamples.nifty_far_call]))
    MoreExamples.banknifty_key (Q2Qc 1100) =
  Some new_history.
Proof.
  destruct (surge_scan_isolated 50 MoreExamples.banknifty_cache
              [MoreExamples.nifty_far_call] MoreExamples.banknifty_key (Q2Qc 1100))
    as [Hframe Hkeep].
  assert (Hat : Observed.history_at MoreExamples.banknifty_cache
                  MoreExamples.banknifty_key (Q2Qc 1100) = Some new_history).
  { unfold Observed.history_at, MoreExamples.banknifty_cache.
    rewrite lookup_singleton_eq. apply lookup_singleton_eq. }
  assert (Hsome : is_Some (Observed.history_at
            (fst (api_premium_surge 50 MoreExamples.banknifty_cache
                    [MoreExamples.nifty_far_call]))
            MoreExamples.banknifty_key (Q2Qc 1100))).
  { apply Hkeep. rewrite Hat. eexists; reflexivity. }
  rewrite Hframe; [exact Hat|].
  intros (q & r & s & [<-|[]] & Hkey & _). discriminate.
Defined.

Lemma check_side_records_price_witness :
  last [8] = Some 8 /\
  check_side "NIFTY" None CE 1100 1000 25 50 Examples.far_call [] = Ok (None, [8]).
Proof.
  assert (H : check_side "NIFTY" None CE 1100 1000 25 50 Examples.far_call [] =
              Ok (None, [8])) by reflexivity.
  split; [|exact H].
  refine (proj1 (check_side_records_price _ _ _ _ _ _ _ _ _ _ _ 8 H _ _ _)).
  - reflexivity.
  - discriminate.
  - reflexivity.
Defined.

Lemma check_side_silent_unless_rise_witness :
  exists o dq',
    check_side "NIFTY" None CE 1100 1000 25 50 Examples.far_call [9] = Ok (o, dq') /\
    o = None.
Proof.
  assert (H : exists o dq',
    check_side "NIFTY" None CE 1100 1000 25 50 Examples.far_call [9] = Ok (o, dq'))
    by (eexists _, _; vm_compute; reflexivity).
  destruct H as (o & dq' & H). exists o, dq'. split; [exact H|].
  refine (check_side_silent_unless_rise _ _ _ _ _ _ _ _ _ _ _ 8 9 H _ _ _ _).
  - reflexivity.
  - reflexivity.
  - discriminate.
  - reflexivity.
Defined.

Lemma handle_start_realtime_payload_witness :
  fst (Realtime.handle_start_realtime (fun _ => None) (fun _ => None) (fun s => s)
         "sid-1" MoreExamples.numeric_side Examples.started) = Raise AttributeError /\
  snd (Realtime.handle_start_realtime (fun _ => None) (fun _ => None) (fun s => s)
         "sid-1" MoreExamples.numeric_side Examples.started) = Examples.started.
Proof.
  destruct (handle_start_realtime_payload nat (fun _ => None) (fun _ => None)
              (fun s => s) "sid-1" MoreExamples.numeric_side Examples.started)
    as (Hraise & _ & Hside & _).
  assert (H : fst (Realtime.handle_start_realtime (fun _ => None) (fun _ => None)
                     (fun s => s) "sid-1" MoreExamples.numeric_side Examples.started)
              = Raise AttributeError).
  { apply (Hside [("side"%string, JInt 5)] (JInt 5));
      [reflexivity|reflexivity|reflexivity|discriminate]. }
  split; [exact H|exact (Hraise _ H)].
Defined.

Lemma bg_while_until_stop_witness :
  List.length (List.filter Observed.is_rt_scan
    (Realtime.bg_while nat "sid-1" 15 Examples.quiet_session)) = 2%nat.
Proof.
  destruct (bg_while_until_stop nat "sid-1" 15
              (firstn 2 Examples.quiet_session)
              {| Realtime.t_tasks := Examples.stopped; Realtime.t_scan := Ok 3%nat;
                 Realtime.t_emit := Ok tt |}
              (skipn 3 Examples.quiet_session)) as (_ & H & _).
  - repeat constructor.
  - reflexivity.
  - exact H.
Defined.


Lemma strategy_symbol_needs_straddle_witness :
  StrategyScan.strategy_symbol MoreExamples.spread_params 50 "NIFTY" None
    [Examples.atm_without_ce_iv] (Some 100) = Raise TypeError.
Proof.
  destruct (strategy_symbol_needs_straddle MoreExamples.spread_params 50 None 100
              "NIFTY" [Examples.atm_without_ce_iv]) as [_ H].
  assert (Hleg : forall sd, Described.last_leg sd 100 [Examples.atm_without_ce_iv]
                              Examples.atm_without_ce_iv).
  { intro sd. exists [], []. split; [reflexivity|]. split; [|constructor].
    split.
    - exists 100. split; reflexivity.
    - destruct sd; [exists 5|exists 6]; (split; [reflexivity|discriminate]). }
  apply (H 100 Examples.atm_without_ce_iv Examples.atm_without_ce_iv);
    [reflexivity|apply Hleg|apply Hleg|left; reflexivity].
Defined.
